(** * Git Publisher (obsidian-gitpublish): the publish orchestrator of
    [src/main.ts], embedded as a coroutine machine.

    The plugin is single-threaded JavaScript: every handler runs to its next
    [await] on a host operation (an HTTP request, a vault read, [saveData])
    and is resumed later with that operation's result, while other events of
    the host (edits, commands, timers) are served in between.  The embedding
    keeps that shape: every function of the source is a function on the
    plugin's state that runs up to the next host [await], and the suspended
    rest of the call chain is a value of type [Task].  An [await] on a call
    that settles without a host operation gives no other event a turn, and
    is not a point of suspension here.

    Modelled: the settings and their sanitization, the pending map, the
    three timers, the queue, [processPublishQueue] and [publishBatch] with
    every request they send, and the events that drive them.  Left out: the
    status bar and the view (they only repaint) and the log file (the calls
    of [this.log] are recorded, not written).  The two other writers of the
    pending map, the scan and the unpublish path, and the handlers of the
    settings tab are modelled as calls of their own, outside the event
    loop.

    Numbers are integers, as [parseInt] and the defaults give them; strings
    are sequences of code units. *)

From Stdlib Require Import List String Ascii ZArith Bool Lia PeanoNat.
From Stdlib Require DecimalString.
Import ListNotations.
Local Open Scope string_scope.
Local Open Scope Z_scope.

(** ** JavaScript values the plugin touches *)

Module Js.

(** [p.startsWith(q)] *)
Definition startsWith (s q : string) : bool := String.prefix q s.

(** [p.includes(q)] *)
Fixpoint includes (s q : string) : bool :=
  String.prefix q s ||
  match s with
  | EmptyString => false
  | String _ s' => includes s' q
  end.

(** [s.endsWith(q)], by lengths. *)
Definition endsWith (s q : string) : bool :=
  let n := String.length s in
  let m := String.length q in
  Nat.leb m n && String.eqb (String.substring (n - m) m s) q.

Fixpoint all_chars (f : ascii -> bool) (s : string) : bool :=
  match s with
  | EmptyString => true
  | String c s' => f c && all_chars f s'
  end.

Fixpoint map_chars (f : ascii -> ascii) (s : string) : string :=
  match s with
  | EmptyString => EmptyString
  | String c s' => String (f c) (map_chars f s')
  end.

Definition between (lo hi : nat) (c : ascii) : bool :=
  let n := nat_of_ascii c in Nat.leb lo n && Nat.leb n hi.

Definition is_alnum (c : ascii) : bool :=
  between 65 90 c || between 97 122 c || between 48 57 c.

(** the regular expression class [\w] *)
Definition is_word (c : ascii) : bool := is_alnum c || Ascii.eqb c "_".

(** the class [[\w.-]] *)
Definition is_repo_char (c : ascii) : bool :=
  is_word c || Ascii.eqb c "." || Ascii.eqb c "-".

(** the class [[A-Za-z0-9._\/-]] *)
Definition is_branch_char (c : ascii) : bool :=
  is_alnum c || Ascii.eqb c "." || Ascii.eqb c "_" || Ascii.eqb c "/"
  || Ascii.eqb c "-".

Definition nonempty (s : string) : bool :=
  match s with EmptyString => false | _ => true end.

(** [X+] for a character class [X], anchored at both ends. *)
Definition plus_of (f : ascii -> bool) (s : string) : bool :=
  nonempty s && all_chars f s.

(** Splits at the first character satisfying [f]. *)
Fixpoint split_at (f : ascii -> bool) (s : string) : option (string * string) :=
  match s with
  | EmptyString => None
  | String c s' =>
      if f c then Some (EmptyString, s')
      else match split_at f s' with
           | Some (a, b) => Some (String c a, b)
           | None => None
           end
  end.

(** Number to string, as in a template literal. *)
Definition show (z : Z) : string :=
  DecimalString.NilZero.string_of_int (Z.to_int z).

(** JSON data, as carried by requests, responses and log records. *)
#[local] Unset Elimination Schemes.
Inductive json : Type :=
| JNull
| JBool (b : bool)
| JNum (z : Z)
| JStr (s : string)
| JArr (l : list json)
| JObj (fields : list (string * json)).
#[local] Set Elimination Schemes.

(** JavaScript truthiness, the test behind [if (x)], [!x] and [x || y]. *)
Definition truthy (j : json) : bool :=
  match j with
  | JNull => false
  | JBool b => b
  | JNum z => negb (z =? 0)
  | JStr s => nonempty s
  | JArr _ | JObj _ => true
  end.

Fixpoint assoc (k : string) (l : list (string * json)) : json :=
  match l with
  | [] => JNull
  | (k', v) :: l' => if String.eqb k k' then v else assoc k l'
  end.

(** [x?.k]: the field, [undefined] (here [JNull]) when [x] is nullish or
    has no such field. *)
Definition field (k : string) (j : json) : json :=
  match j with
  | JObj l => assoc k l
  | _ => JNull
  end.

(** A [Map<string, boolean>] in insertion order: [set] on a present key
    replaces the value in place, on a new key appends. *)
Definition Map := list (string * bool).

Fixpoint map_get (k : string) (m : Map) : option bool :=
  match m with
  | [] => None
  | (k', v) :: m' => if String.eqb k k' then Some v else map_get k m'
  end.

Fixpoint map_set (k : string) (v : bool) (m : Map) : Map :=
  match m with
  | [] => [(k, v)]
  | (k', v') :: m' =>
      if String.eqb k k' then (k', v) :: m' else (k', v') :: map_set k v m'
  end.

(** A [Set<string>] in insertion order. *)
Definition has (k : string) (s : list string) : bool :=
  existsb (String.eqb k) s.

Definition add (k : string) (s : list string) : list string :=
  if has k s then s else s ++ [k].

Definition delete (k : string) (s : list string) : list string :=
  filter (fun x => negb (String.eqb k x)) s.

End Js.

Import Js.

(** ** Settings *)

Record GitPublisherSettings : Type := mkSettings {
  repoUri : string;
  githubToken : string;
  autoPublishEnabled : bool;
  inactivityDelaySec : Z;
  maxIntervalMin : Z;
  defaultBranch : string;
  debounceMs : Z;
  batchCommitMessage : string;
  maxFileSizeKB : Z
}.

(** The defaults of [loadSettings]. *)
Definition defaults : GitPublisherSettings :=
  mkSettings "" "" true 30 5 "main" 1500 "Publish" 1024.

Definition github_prefix : string := "https://github.com/".

(** [u.match(/^https:\/\/github\.com\/([\w.-]+)\/([\w.-]+)(?:\.git)?$/)]:
    the two groups.  The first group stops at the first slash, which is not
    in its class; the second is greedy, so it takes the rest whole when the
    rest is in its class, and gives up a final [.git] only otherwise. *)
Definition repo_groups (u : string) : option (string * string) :=
  if startsWith u github_prefix then
    let rest := String.substring (String.length github_prefix)
                  (String.length u - String.length github_prefix) u in
    match split_at (Ascii.eqb "/") rest with
    | Some (owner, tail) =>
        if plus_of is_repo_char owner then
          if plus_of is_repo_char tail then Some (owner, tail)
          else
            let stem := String.substring 0 (String.length tail - 4) tail in
            if endsWith tail ".git" && plus_of is_repo_char stem
            then Some (owner, stem) else None
        else None
    | None => None
    end
  else None.

(** [/^https:\/\/github\.com\/[\w.-]+\/[\w.-]+(?:\.git)?$/.test(u)] *)
Definition repo_ok (u : string) : bool :=
  match repo_groups u with Some _ => true | None => false end.

(** [/^[A-Za-z0-9._\/-]+$/.test(b)] *)
Definition branch_ok (b : string) : bool := plus_of is_branch_char b.

Definition clamp (lo x : Z) : Z := if x <? lo then lo else x.

Definition unbreak (c : ascii) : ascii :=
  if Ascii.eqb c "010" || Ascii.eqb c "013" then " "%char else c.

(** [msg.replace(/[\r\n]/g, ' ').slice(0, 100) || 'Publish'] *)
Definition clean_message (m : string) : string :=
  let t := String.substring 0 100 (map_chars unbreak m) in
  if nonempty t then t else "Publish".

(** [sanitizeSettings], statement by statement. *)
Definition sanitizeSettings (s : GitPublisherSettings) : GitPublisherSettings :=
  let bad_repo := negb (repo_ok (repoUri s)) in
  {| repoUri := if bad_repo then "" else repoUri s;
     githubToken := githubToken s;
     autoPublishEnabled := if bad_repo then false else autoPublishEnabled s;
     inactivityDelaySec := clamp 5 (inactivityDelaySec s);
     maxIntervalMin := clamp 1 (maxIntervalMin s);
     defaultBranch :=
       if branch_ok (defaultBranch s) then defaultBranch s else "main";
     debounceMs := clamp 250 (debounceMs s);
     batchCommitMessage := clean_message (batchCommitMessage s);
     maxFileSizeKB := clamp 50 (maxFileSizeKB s) |}.

(** [parseRepo] *)
Definition parseRepo (s : GitPublisherSettings) : option (string * string) :=
  if nonempty (repoUri s) then repo_groups (repoUri s) else None.

(** [ensureGitHubConfig] *)
Definition ensureGitHubConfig (s : GitPublisherSettings) : bool :=
  nonempty (repoUri s) && nonempty (githubToken s).

(** ** The plugin, its host and what they exchange *)

Inductive Method : Type := get | post | patch | delete_ | put.

Definition method_name (m : Method) : string :=
  match m with
  | get => "get" | post => "post" | patch => "patch"
  | delete_ => "delete" | put => "put"
  end.

Record Request : Type := mkRequest {
  method : Method;
  url : string;
  data : json
}.

(** How [axios.request] settles: a response, or an error whose
    [e.response?.status] may be missing. *)
Inductive AxiosResult : Type :=
| Resolved (status : Z) (body : json)
| Rejected (status : option Z) (body : json).

Inductive Level : Type := INFO | WARN | ERROR.

(** What the plugin does to the outside, in order. *)
Inductive Effect : Type :=
| Http (r : Request)
| Log (msg : string) (meta : json) (level : Level)
| Notice (text : string)
| SaveData.

(** The callbacks handed to [window.setTimeout]. *)
Inductive TimerCb : Type :=
| CbDebounce
| CbInactivity (file : string)
| CbSession.

(** A markdown or other file of the vault, with what the metadata cache and
    the adapter say about it.  [statSize] is [stat?.size], [None] when the
    adapter has no synchronous [stat] or no size. *)
Record File : Type := mkFile {
  extension : string;
  content : string;
  fmPublished : json;
  statSize : option Z
}.

Record Plugin : Type := mkPlugin {
  settings : GitPublisherSettings;
  pendingChanges : Map;
  inactivityHandle : option positive;
  sessionHandle : option positive;
  sessionStart : option Z;
  lastActivityTime : option Z;
  publishingInProgress : bool;
  publishQueue : list string;
  debounceHandle : option positive
}.

(** The host: the vault, the active file, the pending timeouts (ids are the
    positive integers [setTimeout] returns), the clock, and the record of
    effects. *)
Record Host : Type := mkHost {
  vault : list (string * File);
  activeFile : option string;
  timers : list (positive * (TimerCb * Z));
  nextTimer : positive;
  now : Z;
  isoNow : string;
  effects : list Effect
}.

Record World : Type := mkWorld { plugin : Plugin; host : Host }.

Section Updates.
Variable w : World.
Let p := plugin w.
Let h := host w.

Definition with_settings (s : GitPublisherSettings) : World :=
  mkWorld (mkPlugin s (pendingChanges p) (inactivityHandle p)
             (sessionHandle p) (sessionStart p) (lastActivityTime p)
             (publishingInProgress p) (publishQueue p) (debounceHandle p)) h.

Definition with_pending (m : Map) : World :=
  mkWorld (mkPlugin (settings p) m (inactivityHandle p)
             (sessionHandle p) (sessionStart p) (lastActivityTime p)
             (publishingInProgress p) (publishQueue p) (debounceHandle p)) h.

Definition with_inactivity (x : option positive) : World :=
  mkWorld (mkPlugin (settings p) (pendingChanges p) x
             (sessionHandle p) (sessionStart p) (lastActivityTime p)
             (publishingInProgress p) (publishQueue p) (debounceHandle p)) h.

Definition with_session (x : option positive) : World :=
  mkWorld (mkPlugin (settings p) (pendingChanges p) (inactivityHandle p)
             x (sessionStart p) (lastActivityTime p)
             (publishingInProgress p) (publishQueue p) (debounceHandle p)) h.

Definition with_sessionStart (x : option Z) : World :=
  mkWorld (mkPlugin (settings p) (pendingChanges p) (inactivityHandle p)
             (sessionHandle p) x (lastActivityTime p)
             (publishingInProgress p) (publishQueue p) (debounceHandle p)) h.

Definition with_lastActivity (x : option Z) : World :=
  mkWorld (mkPlugin (settings p) (pendingChanges p) (inactivityHandle p)
             (sessionHandle p) (sessionStart p) x
             (publishingInProgress p) (publishQueue p) (debounceHandle p)) h.

Definition with_inProgress (b : bool) : World :=
  mkWorld (mkPlugin (settings p) (pendingChanges p) (inactivityHandle p)
             (sessionHandle p) (sessionStart p) (lastActivityTime p)
             b (publishQueue p) (debounceHandle p)) h.

Definition with_queue (q : list string) : World :=
  mkWorld (mkPlugin (settings p) (pendingChanges p) (inactivityHandle p)
             (sessionHandle p) (sessionStart p) (lastActivityTime p)
             (publishingInProgress p) q (debounceHandle p)) h.

Definition with_debounce (x : option positive) : World :=
  mkWorld (mkPlugin (settings p) (pendingChanges p) (inactivityHandle p)
             (sessionHandle p) (sessionStart p) (lastActivityTime p)
             (publishingInProgress p) (publishQueue p) x) h.

Definition with_vault (v : list (string * File)) : World :=
  mkWorld p (mkHost v (activeFile h) (timers h) (nextTimer h) (now h)
               (isoNow h) (effects h)).

Definition with_active (a : option string) : World :=
  mkWorld p (mkHost (vault h) a (timers h) (nextTimer h) (now h)
               (isoNow h) (effects h)).

Definition with_timers (t : list (positive * (TimerCb * Z)))
    (n : positive) : World :=
  mkWorld p (mkHost (vault h) (activeFile h) t n (now h) (isoNow h)
               (effects h)).

Definition with_clock (t : Z) (iso : string) : World :=
  mkWorld p (mkHost (vault h) (activeFile h) (timers h) (nextTimer h) t iso
               (effects h)).

Definition emit (e : Effect) : World :=
  mkWorld p (mkHost (vault h) (activeFile h) (timers h) (nextTimer h)
               (now h) (isoNow h) (effects h ++ [e])%list).
End Updates.

(** [this.log(msg, meta, level)] and [new Notice(text)] *)
Definition log (msg : string) (meta : json) (level : Level) (w : World) : World :=
  emit w (Log msg meta level).

Definition notice (text : string) (w : World) : World := emit w (Notice text).

(** [this.app.vault.getAbstractFileByPath(p)] narrowed by [instanceof TFile] *)
Fixpoint lookup (p : string) (v : list (string * File)) : option File :=
  match v with
  | [] => None
  | (q, f) :: v' => if String.eqb p q then Some f else lookup p v'
  end.

Definition getAbstractFileByPath (p : string) (w : World) : option File :=
  lookup p (vault (host w)).

(** [c?.frontmatter?.published === true] *)
Definition isPublished (p : string) (w : World) : bool :=
  match getAbstractFileByPath p w with
  | Some f => match fmPublished f with JBool true => true | _ => false end
  | None => false
  end.

(** [window.setTimeout(cb, delay)]: a fresh positive id. *)
Definition setTimeout (cb : TimerCb) (delay : Z) (w : World) : positive * World :=
  let id := nextTimer (host w) in
  (id, with_timers w (timers (host w) ++ [(id, (cb, delay))])%list (Pos.succ id)).

(** [if (handle) clearTimeout(handle)]: a [null] handle clears nothing. *)
Definition clearTimeout (handle : option positive) (w : World) : World :=
  match handle with
  | Some id =>
      with_timers w
        (filter (fun t => negb (Pos.eqb (fst t) id)) (timers (host w)))
        (nextTimer (host w))
  | None => w
  end.

(** [clearTimers] *)
Definition clearTimers (w : World) : World :=
  let w := clearTimeout (inactivityHandle (plugin w)) w in
  let w := clearTimeout (sessionHandle (plugin w)) w in
  let w := clearTimeout (debounceHandle (plugin w)) w in
  with_debounce
    (with_sessionStart (with_session (with_inactivity w None) None) None) None.

(** [resetDebounce], [resetInactivityTimer] and [resetSessionTimer] *)
Definition resetDebounce (w : World) : World :=
  let w := clearTimeout (debounceHandle (plugin w)) w in
  let '(id, w) := setTimeout CbDebounce (debounceMs (settings (plugin w))) w in
  with_debounce w (Some id).

Definition resetInactivityTimer (file : string) (w : World) : World :=
  let w := clearTimeout (inactivityHandle (plugin w)) w in
  let '(id, w) :=
    setTimeout (CbInactivity file)
      (inactivityDelaySec (settings (plugin w)) * 1000) w in
  with_inactivity w (Some id).

Definition resetSessionTimer (w : World) : World :=
  let w := clearTimeout (sessionHandle (plugin w)) w in
  let '(id, w) :=
    setTimeout CbSession (maxIntervalMin (settings (plugin w)) * 60 * 1000) w in
  with_session w (Some id).

(** [!this.sessionStart]: [null] and [0] are falsy. *)
Definition falsy_time (t : option Z) : bool :=
  match t with Some z => z =? 0 | None => true end.

(** [handleEditorActivity] *)
Definition handleEditorActivity (file : string) (w : World) : World :=
  if negb (autoPublishEnabled (settings (plugin w))) then w
  else
    let w := with_lastActivity w (Some (now (host w))) in
    let w :=
      if falsy_time (sessionStart (plugin w))
      then resetSessionTimer (with_sessionStart w (Some (now (host w))))
      else w in
    resetDebounce (resetInactivityTimer file w).

(** [isSafePath] *)
Definition isSafePath (p : string) : bool :=
  negb (startsWith p ".") && negb (includes p "..").

(** ** Suspended calls *)

(** An [async] call, run up to its next host [await]: it returned, it is
    suspended with the rest [k] of its work, or it threw. *)
Inductive Outcome (K : Type) : Type :=
| Done (w : World)
| Wait (w : World) (k : K)
| Raise (w : World).
Arguments Done {K} w.
Arguments Wait {K} w k.
Arguments Raise {K} w.

Definition world_of {K : Type} (o : Outcome K) : World :=
  match o with Done w | Wait w _ | Raise w => w end.

(** [o] followed by [f] when [o] returned. *)
Definition and_then {K : Type} (o : Outcome K) (f : World -> Outcome K) : Outcome K :=
  match o with
  | Done w => f w
  | Wait w k => Wait w k
  | Raise w => Raise w
  end.

(** What [publishBatch] does with the answer of the request it awaits. *)
Inductive HttpK : Type :=
| KRef (owner repo refUrl : string)
| KInit (owner repo refUrl : string)
| KRef2 (owner repo : string)
| KBlob (owner repo : string) (baseSha : json) (blobs : list json)
    (p : string) (rest : list string)
| KTree (owner repo : string) (baseSha : json)
| KCommit (owner repo : string)
| KPatch (commitSha : json).

(** Where [publishBatch] is suspended. *)
Inductive BatchPc : Type :=
| AwaitHttp (req : Request) (k : HttpK)
| AwaitRead (owner repo : string) (baseSha : json) (blobs : list json)
    (p : string) (rest : list string)
| AwaitSave (commitSha : json).

(** What the host answers to an [await]. *)
Inductive Input : Type :=
| InHttp (r : AxiosResult)
| InRead (ok : bool)
| InSaved (ok : bool).

(** [githubReq] up to [await axios.request(...)]. *)
Definition send (m : Method) (u : string) (d : json) (k : HttpK) (w : World)
  : Outcome BatchPc :=
  let req := mkRequest m u d in Wait (emit w (Http req)) (AwaitHttp req k).

Definition status_json (s : option Z) : json :=
  match s with Some z => JNum z | None => JNull end.

Definition is_409 (s : option Z) : bool :=
  match s with Some z => z =? 409 | None => false end.

(** [`GitHub Fehler ${s||''}`] *)
Definition failure_text (s : option Z) : string :=
  "GitHub Fehler " ++
  match s with
  | Some z => if z =? 0 then "" else show z
  | None => ""
  end.

(** [githubReq] from the answer on: the value it returns, after its log
    record and, on an error, its notice. *)
Definition githubReq_settle (req : Request) (r : AxiosResult) (w : World)
  : json * World :=
  match r with
  | Resolved status body =>
      (body,
       log "github_ok"
         (JObj [("method", JStr (method_name (method req)));
                ("url", JStr (url req)); ("status", JNum status)]) INFO w)
  | Rejected s body =>
      let w :=
        log "github_err"
          (JObj [("method", JStr (method_name (method req)));
                 ("url", JStr (url req)); ("status", status_json s);
                 ("body", body)])
          (if is_409 s then WARN else ERROR) w in
      (JNull,
       notice (if is_409 s then "GitHub 409 Konflikt" else failure_text s) w)
  end.

Definition api (owner repo : string) : string :=
  "https://api.github.com/repos/" ++ owner ++ "/" ++ repo.

Definition branch (w : World) : string := defaultBranch (settings (plugin w)).

(** The body of the [for (const p of paths)] loop of [publishBatch] up to
    [await this.app.vault.read(f)], and what follows the loop up to the
    request for the tree. *)
Fixpoint read_next (owner repo : string) (baseSha : json) (blobs : list json)
    (rest : list string) (w : World) : Outcome BatchPc :=
  match rest with
  | [] =>
      match blobs with
      | [] => Done (log "batch_no_blobs" (JObj []) INFO w)
      | _ =>
          send post (api owner repo ++ "/git/trees")
            (JObj [("base_tree", baseSha); ("tree", JArr blobs)])
            (KTree owner repo baseSha) w
      end
  | p :: rest' =>
      match getAbstractFileByPath p w with
      | None =>
          read_next owner repo baseSha blobs rest'
            (log "skip_not_file" (JObj [("path", JStr p)]) INFO w)
      | Some _ => Wait w (AwaitRead owner repo baseSha blobs p rest')
      end
  end.

(** [publishBatch(paths)] up to its first [await]. *)
Definition publishBatch (paths : list string) (w : World) : Outcome BatchPc :=
  let w :=
    log "batch_start"
      (JObj [("count", JNum (Z.of_nat (List.length paths)))]) INFO w in
  match parseRepo (settings (plugin w)) with
  | None => Done (log "batch_abort_parse" (JObj []) INFO w)
  | Some (owner, repo) =>
      let refUrl := api owner repo ++ "/git/ref/heads/" ++ branch w in
      send get refUrl JNull (KRef owner repo refUrl) w
  end.

Definition mark_clean (paths : list string) (m : Map) : Map :=
  fold_left (fun m p => map_set p false m) paths m.

(** [publishBatch] resumed with the answer to a request. *)
Definition on_response (paths : list string) (k : HttpK) (res : json)
    (w : World) : Outcome BatchPc :=
  match k with
  | KRef owner repo refUrl =>
      let sha := field "sha" (field "object" res) in
      if truthy sha then read_next owner repo sha [] paths w
      else
        send put (api owner repo ++ "/contents/.gitkeep")
          (JObj [("message", JStr "Initialize branch");
                 ("content", JStr "aW5pdA==");
                 ("branch", JStr (branch w))])
          (KInit owner repo refUrl) w
  | KInit owner repo refUrl =>
      if truthy (field "sha" (field "content" res))
      then send get refUrl JNull (KRef2 owner repo) w
      else Done (log "batch_abort_branch" (JObj []) INFO w)
  | KRef2 owner repo =>
      let sha := field "sha" (field "object" res) in
      if truthy sha then read_next owner repo sha [] paths w
      else Done (log "batch_abort_branch" (JObj []) INFO w)
  | KBlob owner repo baseSha blobs p rest =>
      let sha := field "sha" res in
      if truthy sha then
        read_next owner repo baseSha
          (blobs ++ [JObj [("path", JStr p); ("mode", JStr "100644");
                           ("type", JStr "blob"); ("sha", sha)]])%list
          rest w
      else
        read_next owner repo baseSha blobs rest
          (log "blob_fail" (JObj [("path", JStr p)]) INFO w)
  | KTree owner repo baseSha =>
      let sha := field "sha" res in
      if truthy sha then
        let msg :=
          batchCommitMessage (settings (plugin w)) ++ " (" ++
          isoNow (host w) ++ ")" in
        send post (api owner repo ++ "/git/commits")
          (JObj [("message", JStr msg); ("tree", sha);
                 ("parents", JArr [baseSha])])
          (KCommit owner repo) w
      else Done (log "tree_fail" (JObj []) INFO w)
  | KCommit owner repo =>
      let sha := field "sha" res in
      if truthy sha then
        send patch (api owner repo ++ "/git/refs/heads/" ++ branch w)
          (JObj [("sha", sha); ("force", JBool false)]) (KPatch sha) w
      else Done (log "commit_fail" (JObj []) INFO w)
  | KPatch commitSha =>
      if truthy res then
        let w := with_pending w (mark_clean paths (pendingChanges (plugin w))) in
        Wait (emit w SaveData) (AwaitSave commitSha)
      else Done (log "ref_fail" (JObj []) INFO w)
  end.

(** [publishBatch] resumed at the [await] it is suspended at.  An input that
    does not answer that [await] is ignored. *)
Definition publishBatch_resume (paths : list string) (pc : BatchPc)
    (i : Input) (w : World) : Outcome BatchPc :=
  match pc, i with
  | AwaitHttp req k, InHttp r =>
      let '(res, w) := githubReq_settle req r w in on_response paths k res w
  | AwaitRead owner repo baseSha blobs p rest, InRead true =>
      match getAbstractFileByPath p w with
      | Some f =>
          send post (api owner repo ++ "/git/blobs")
            (JObj [("content", JStr (content f)); ("encoding", JStr "utf-8")])
            (KBlob owner repo baseSha blobs p rest) w
      | None => Raise w
      end
  | AwaitRead _ _ _ _ _ _, InRead false => Raise w
  | AwaitSave commitSha, InSaved true =>
      let n := Z.of_nat (List.length paths) in
      let w :=
        log "batch_ok" (JObj [("commit", commitSha); ("files", JNum n)])
          INFO w in
      Done (notice ("Published " ++ show n ++ " Dateien") w)
  | AwaitSave _, InSaved false => Raise w
  | _, _ => Wait w pc
  end.

(** ** The queue and its drain *)

Inductive AllCaller : Type := AllFromCommand | AllFromSession.

(** Who awaits [queueFileForPublish]: a command or a button of the view, the
    inactivity callback through [publishFileIfPending], or the loop of
    [publishAllPending] standing at entry [i] of [pendingChanges]. *)
Inductive Caller : Type :=
| FromCommand
| FromInactivity
| FromPublishAll (i : nat) (k : AllCaller).

Inductive Task : Type :=
| TSizeRead (file : string) (c : Caller)
| TRun (paths : list string) (pc : BatchPc) (c : Caller).

Definition delete_all (paths : list string) (q : list string) : list string :=
  fold_left (fun q p => Js.delete p q) paths q.

(** The [finally] block of [processPublishQueue]; its two other statements
    repaint the status bar and the view. *)
Definition finally (w : World) : World := with_inProgress w false.

(** What [processPublishQueue] does around [await this.publishBatch(paths)]:
    when the batch returned, the snapshot leaves the queue; in every case
    the [finally] block runs. *)
Definition close_batch (paths : list string) (o : Outcome BatchPc)
  : Outcome BatchPc :=
  match o with
  | Done w =>
      Done (finally
              (with_queue w (delete_all paths (publishQueue (plugin w)))))
  | Wait w pc => Wait w pc
  | Raise w => Raise (finally w)
  end.

Definition as_run (paths : list string) (c : Caller) (o : Outcome BatchPc)
  : Outcome Task :=
  match o with
  | Done w => Done w
  | Wait w pc => Wait w (TRun paths pc c)
  | Raise w => Raise w
  end.

(** [processPublishQueue] *)
Definition processPublishQueue (c : Caller) (w : World) : Outcome Task :=
  if publishingInProgress (plugin w) then Done w
  else if negb (ensureGitHubConfig (settings (plugin w))) then Done w
  else
    let w := with_inProgress w true in
    let paths := publishQueue (plugin w) in
    match paths with
    | [] => Done (finally w)
    | _ => as_run paths c (close_batch paths (publishBatch paths w))
    end.

Definition size_limit (w : World) : Z := maxFileSizeKB (settings (plugin w)) * 1024.

(** [queueFileForPublish] after [isTooLarge] answered [false]. *)
Definition enqueue (file : string) (c : Caller) (w : World) : Outcome Task :=
  processPublishQueue c
    (with_queue w (add file (publishQueue (plugin w)))).

Definition skip_large (file : string) (w : World) : World :=
  log "skip_large" (JObj [("path", JStr file)]) INFO w.

(** [stat?.size] when it is truthy. *)
Definition stat_size (file : string) (w : World) : option Z :=
  match getAbstractFileByPath file w with
  | Some f =>
      match statSize f with
      | Some z => if z =? 0 then None else Some z
      | None => None
      end
  | None => None
  end.

(** [queueFileForPublish(file)], the file being known by its path. *)
Definition queueFileForPublish (file : string) (c : Caller) (w : World)
  : Outcome Task :=
  if negb (isSafePath file) then Done w
  else
    match stat_size file w with
    | Some size =>
        if size >? size_limit w then Done (skip_large file w)
        else enqueue file c w
    | None => Wait w (TSizeRead file c)
    end.

(** The loop of [publishAllPending] from entry [i] on, [entries] being the
    entries of [pendingChanges] from [i].  Up to the next host [await] the
    loop only skips entries, fills the queue or logs, so the entries it
    walks are those the live iterator of the source yields. *)
Fixpoint publishAll_from (entries : Map) (i : nat) (k : AllCaller) (w : World)
  : Outcome Task :=
  match entries with
  | [] => Done w
  | (p, pen) :: rest =>
      if negb pen then publishAll_from rest (S i) k w
      else
        match getAbstractFileByPath p w with
        | None => publishAll_from rest (S i) k w
        | Some _ =>
            and_then (queueFileForPublish p (FromPublishAll (S i) k) w)
              (publishAll_from rest (S i) k)
        end
  end.

(** [publishAllPending] *)
Definition publishAllPending (k : AllCaller) (w : World) : Outcome Task :=
  if negb (autoPublishEnabled (settings (plugin w))) then Done w
  else publishAll_from (pendingChanges (plugin w)) 0 k w.

(** What follows [await this.publishAllPending()]: nothing in the command
    and in the view, [this.clearTimers()] in the session callback. *)
Definition finish_all (k : AllCaller) (w : World) : Outcome Task :=
  match k with
  | AllFromCommand => Done w
  | AllFromSession => Done (clearTimers w)
  end.

(** [publishFileIfPending] *)
Definition publishFileIfPending (file : string) (w : World) : Outcome Task :=
  if negb (autoPublishEnabled (settings (plugin w))) then Done w
  else if negb (isPublished file w) then Done w
  else
    match map_get file (pendingChanges (plugin w)) with
    | Some true => queueFileForPublish file FromInactivity w
    | _ => Done w
    end.

(** The caller of [queueFileForPublish] going on after it returned. *)
Definition return_to (c : Caller) (w : World) : Outcome Task :=
  match c with
  | FromCommand | FromInactivity => Done w
  | FromPublishAll i k =>
      and_then
        (publishAll_from (skipn i (pendingChanges (plugin w))) i k w)
        (finish_all k)
  end.

(** A suspended call resumed with the host's answer. *)
Definition step_task (t : Task) (i : Input) (w : World) : Outcome Task :=
  match t with
  | TSizeRead file c =>
      match i with
      | InRead ok =>
          match (if ok then getAbstractFileByPath file w else None) with
          | Some f =>
              if Z.of_nat (String.length (content f)) >? size_limit w
              then return_to c (skip_large file w)
              else and_then (enqueue file c w) (return_to c)
          | None => Raise w
          end
      | _ => Wait w t
      end
  | TRun paths pc c =>
      and_then
        (as_run paths c (close_batch paths (publishBatch_resume paths pc i w)))
        (return_to c)
  end.

(** ** The event loop *)

(** What the host brings: a file of the vault changed ([f] is the file as
    the vault, the metadata cache and the adapter show it when the handler
    runs); a keystroke in the editor; the command that publishes the current
    file; the command (or the button of the view) that publishes all; a
    button of a row of the view; a timeout that elapses; the auto-publish
    toggle of the settings tab; [onunload]; another file becomes the active
    one; the clock moves; a pending host operation settles. *)
Inductive Event : Type :=
| Modify (p : string) (f : File)
| EditorChange
| PublishCurrent
| PublishAll
| ViewPublish (p : string)
| TimerFire (id : positive)
| SetAutoPublish (v : bool)
| Unload
| Activate (a : option string)
| Tick (t : Z) (iso : string)
| Resume (tid : nat) (i : Input).

(** The plugin between two events: its state and the host's, the suspended
    calls, and whether its handlers are still registered. *)
Record Sys : Type := mkSys {
  world : World;
  tasks : list (nat * Task);
  nextTask : nat;
  loaded : bool
}.

Definition settle (s : Sys) (o : Outcome Task) : Sys :=
  match o with
  | Done w | Raise w => mkSys w (tasks s) (nextTask s) (loaded s)
  | Wait w t =>
      mkSys w (tasks s ++ [(nextTask s, t)])%list (S (nextTask s)) (loaded s)
  end.

Fixpoint pick (tid : nat) (l : list (nat * Task))
  : option (Task * list (nat * Task)) :=
  match l with
  | [] => None
  | (n, t) :: l' =>
      if Nat.eqb n tid then Some (t, l')
      else match pick tid l' with
           | Some (t', r) => Some (t', (n, t) :: r)
           | None => None
           end
  end.

Fixpoint store (p : string) (f : File) (v : list (string * File))
  : list (string * File) :=
  match v with
  | [] => []
  | (q, g) :: v' => if String.eqb p q then (q, f) :: v' else (q, g) :: store p f v'
  end.

(** The handler of the vault's [modify] event. *)
Definition on_modify (p : string) (w : World) : World :=
  match getAbstractFileByPath p w with
  | Some f =>
      if negb (String.eqb (extension f) "md") then w
      else if isPublished p w
      then with_pending w (map_set p true (pendingChanges (plugin w)))
      else w
  | None => w
  end.

Fixpoint find_timer (id : positive) (l : list (positive * (TimerCb * Z)))
  : option TimerCb :=
  match l with
  | [] => None
  | (n, (cb, _)) :: l' => if Pos.eqb n id then Some cb else find_timer id l'
  end.

(** A timeout elapses: the host forgets it and calls back. *)
Definition fire (cb : TimerCb) (w : World) : Outcome Task :=
  match cb with
  | CbDebounce => Done w
  | CbInactivity file => publishFileIfPending file w
  | CbSession => and_then (publishAllPending AllFromSession w)
                   (finish_all AllFromSession)
  end.

Definition with_world (s : Sys) (w : World) : Sys :=
  mkSys w (tasks s) (nextTask s) (loaded s).

(** One turn of the event loop.  Handlers registered through the plugin
    ([registerEvent], [addCommand], the view, the settings tab) are gone
    once it is unloaded; timeouts and pending promises are not. *)
Definition step (s : Sys) (e : Event) : Sys :=
  let w := world s in
  match e with
  | Modify p f =>
      match lookup p (vault (host w)) with
      | Some _ =>
          let w := with_vault w (store p f (vault (host w))) in
          with_world s (if loaded s then on_modify p w else w)
      | None => s
      end
  | EditorChange =>
      if loaded s then
        match activeFile (host w) with
        | Some f => with_world s (handleEditorActivity f w)
        | None => s
        end
      else s
  | PublishCurrent =>
      if loaded s then
        match activeFile (host w) with
        | Some f => settle s (queueFileForPublish f FromCommand w)
        | None => s
        end
      else s
  | PublishAll =>
      if loaded s then
        settle s (and_then (publishAllPending AllFromCommand w)
                    (finish_all AllFromCommand))
      else s
  | ViewPublish p =>
      if loaded s then
        match getAbstractFileByPath p w with
        | Some _ => settle s (queueFileForPublish p FromCommand w)
        | None => s
        end
      else s
  | TimerFire id =>
      match find_timer id (timers (host w)) with
      | Some cb =>
          let w :=
            with_timers w
              (filter (fun t => negb (Pos.eqb (fst t) id)) (timers (host w)))
              (nextTimer (host w)) in
          settle s (fire cb w)
      | None => s
      end
  | SetAutoPublish v =>
      if loaded s then
        let st := settings (plugin w) in
        with_world s
          (emit
             (with_settings w
                (mkSettings (repoUri st) (githubToken st) v
                   (inactivityDelaySec st) (maxIntervalMin st)
                   (defaultBranch st) (debounceMs st)
                   (batchCommitMessage st) (maxFileSizeKB st)))
             SaveData)
      else s
  | Unload =>
      if loaded s then mkSys (clearTimers w) (tasks s) (nextTask s) false
      else s
  | Activate a => with_world s (with_active w a)
  | Tick t iso => with_world s (with_clock w t iso)
  | Resume tid i =>
      match pick tid (tasks s) with
      | Some (t, others) =>
          match step_task t i w with
          | Done w' | Raise w' => mkSys w' others (nextTask s) (loaded s)
          | Wait w' t' =>
              mkSys w' (others ++ [(tid, t')])%list (nextTask s) (loaded s)
          end
      | None => s
      end
  end.

Definition run (s : Sys) (es : list Event) : Sys := fold_left step es s.

(** The plugin once [onload] is through: the stored settings sanitized, the
    pending map as the initial scan left it, nothing queued, no timer. *)
Definition seed (scan : list (string * bool)) : Map :=
  fold_left (fun m kv => map_set (fst kv) (snd kv) m) scan [].

Definition initial (st : GitPublisherSettings) (scan : list (string * bool))
    (v : list (string * File)) (a : option string) (first : positive)
    (t : Z) (iso : string) : Sys :=
  mkSys
    (mkWorld
       (mkPlugin (sanitizeSettings st) (seed scan) None None None None false
          [] None)
       (mkHost v a [] first t iso []))
    [] 0 true.

Inductive reachable : Sys -> Prop :=
| reach_initial st scan v a first t iso :
    reachable (initial st scan v a first t iso)
| reach_step s e : reachable s -> reachable (step s e).

(** ** What the properties observe *)

Definition pending (w : World) : Map := pendingChanges (plugin w).
Definition busy (w : World) : bool := publishingInProgress (plugin w).
Definition queue (w : World) : list string := publishQueue (plugin w).
Definition trace (w : World) : list Effect := effects (host w).

(** The dirty flag of a path. *)
Definition dirty (p : string) (s : Sys) : Prop :=
  map_get p (pending (world s)) = Some true.

Definition is_http (e : Effect) : bool :=
  match e with Http _ => true | _ => false end.

(** The requests sent so far. *)
Definition https (w : World) : list Effect := filter is_http (trace w).

Definition is_blob (e : Effect) : bool :=
  match e with
  | Http r => match method r with
              | post => Js.endsWith (url r) "/git/blobs"
              | _ => false
              end
  | _ => false
  end.

Definition is_commit (e : Effect) : bool :=
  match e with
  | Http r => match method r with
              | post => Js.endsWith (url r) "/git/commits"
              | _ => false
              end
  | _ => false
  end.

Definition is_ref_update (e : Effect) : bool :=
  match e with
  | Http r => match method r with patch => true | _ => false end
  | _ => false
  end.

(** The value [githubReq] returns. *)
Definition answer (r : AxiosResult) : json :=
  match r with Resolved _ body => body | Rejected _ _ => JNull end.

Definition is_run (t : nat * Task) : bool :=
  match snd t with TRun _ _ _ => true | TSizeRead _ _ => false end.

(** The batch runs in flight, their number and their snapshots. *)
Definition runs (s : Sys) : list (nat * Task) := filter is_run (tasks s).

Definition in_flight (s : Sys) : nat := List.length (runs s).

Definition snapshots (s : Sys) : list (list string) :=
  map (fun t => match snd t with
                | TRun paths _ _ => paths
                | TSizeRead _ _ => []
                end) (runs s).

(** The requests for a publication: the two commands, the buttons of the
    view, and the timers. *)
Definition is_request (e : Event) : bool :=
  match e with
  | PublishCurrent | PublishAll | ViewPublish _ | TimerFire _ => true
  | _ => false
  end.

(** Whether an answer is the one that makes [publishBatch] mark its paths
    clean: a truthy answer to the request that moves the branch ref. *)
Definition clears (pc : BatchPc) (i : Input) : bool :=
  match pc, i with
  | AwaitHttp _ (KPatch _), InHttp r => truthy (answer r)
  | _, _ => false
  end.

Definition cleaned (paths : list string) (pc : BatchPc) (i : Input)
    (w : World) : World :=
  if clears pc i then with_pending w (mark_clean paths (pending w)) else w.

(** The event [e], met in the state [s], is the accepted ref update of a
    batch run whose snapshot holds [p]. *)
Definition accepts (p : string) (s : Sys) (e : Event) : bool :=
  match e with
  | Resume tid i =>
      match pick tid (tasks s) with
      | Some (TRun paths pc _, _) => clears pc i && has p paths
      | _ => false
      end
  | _ => false
  end.

(** None of the events [es], met in turn from [s] on, is one. *)
Fixpoint unaccepted (p : string) (s : Sys) (es : list Event) : bool :=
  match es with
  | [] => true
  | e :: es' => negb (accepts p s e) && unaccepted p (step s e) es'
  end.

(** A batch run whose snapshot holds [p] is in flight. *)
Definition batched (p : string) (s : Sys) : bool :=
  existsb (fun t => match snd t with
                    | TRun paths _ _ => has p paths
                    | TSizeRead _ _ => false
                    end) (tasks s).

(** No such run is in flight in [s], nor after any of the events [es] but
    the last. *)
Fixpoint unbatched (p : string) (s : Sys) (es : list Event) : bool :=
  match es with
  | [] => true
  | e :: es' => negb (batched p s) && unbatched p (step s e) es'
  end.

(** A file passes the size test of [isTooLarge] on one of its two measures:
    the adapter's size, or the length of the content. *)
Definition fits (p : string) (w : World) : Prop :=
  exists f, getAbstractFileByPath p w = Some f /\
    ((exists z, stat_size p w = Some z /\ z <= size_limit w) \/
     Z.of_nat (String.length (content f)) <= size_limit w).


(** ** Frames and invariants *)

(** [w] with further effects recorded. *)
Definition add_effects (w : World) (eff : list Effect) : World :=
  mkWorld (plugin w)
    (mkHost (vault (host w)) (activeFile (host w)) (timers (host w))
       (nextTimer (host w)) (now (host w)) (isoNow (host w))
       (effects (host w) ++ eff)%list).

(** Nothing happened but effects. *)
Definition quiet (w w' : World) : Prop := exists eff, w' = add_effects w eff.

(** Nothing changed but timers and their handles. *)
Definition retimed (w w' : World) : Prop :=
  busy w' = busy w /\ queue w' = queue w /\ pending w' = pending w /\
  settings (plugin w') = settings (plugin w) /\ trace w' = trace w /\
  vault (host w') = vault (host w).

Definition is_patch (k : HttpK) : bool :=
  match k with KPatch _ => true | _ => false end.

(** Whether an outcome leaves a batch run suspended. *)
Definition runs_made (o : Outcome Task) : nat :=
  match o with Wait _ (TRun _ _ _) => 1%nat | _ => 0%nat end.

(** The timer handles of the plugin and the timeouts of the host. *)
Definition TimerView : Type :=
  option positive * option positive * option Z * option positive *
  list (positive * (TimerCb * Z)) * positive.

Definition timer_view (w : World) : TimerView :=
  (inactivityHandle (plugin w), sessionHandle (plugin w),
   sessionStart (plugin w), debounceHandle (plugin w),
   timers (host w), nextTimer (host w)).

Definition drop (h : option positive) (tm : list (positive * (TimerCb * Z))) :=
  match h with
  | Some id => filter (fun t => negb (Pos.eqb (fst t) id)) tm
  | None => tm
  end.

(** What [clearTimers] does to the handles and the timeouts. *)
Definition clear_view (v : TimerView) : TimerView :=
  let '(ih, sh, _, dh, tm, nx) := v in
  (None, None, None, None, drop dh (drop sh (drop ih tm)), nx).

(** Every pending timeout is held by one of the three handles. *)
Definition tracked (w : World) : Prop :=
  forall t, In t (timers (host w)) ->
    inactivityHandle (plugin w) = Some (fst t) \/
    sessionHandle (plugin w) = Some (fst t) \/
    debounceHandle (plugin w) = Some (fst t).

(** What a call that only queues and drains may do, from the world [w] it
    starts in to its outcome [o]: settings, pending map and vault stay;
    effects are only added; the in-flight flag is set exactly when a batch
    run is left suspended, and while it was set nothing is sent; the queue
    stays
    free of duplicates and gains only safe paths that fit; the timers stay
    or are cleared. *)
Record queue_spec (w : World) (o : Outcome Task) : Prop := {
  qs_settings : settings (plugin (world_of o)) = settings (plugin w);
  qs_pending : pending (world_of o) = pending w;
  qs_vault : vault (host (world_of o)) = vault (host w);
  qs_trace : exists eff, trace (world_of o) = (trace w ++ eff)%list;
  qs_gate : Nat.b2n (busy (world_of o)) = (Nat.b2n (busy w) + runs_made o)%nat;
  qs_closed : busy w = true -> https (world_of o) = https w;
  qs_nodup : NoDup (queue w) -> NoDup (queue (world_of o));
  qs_fits : forall p, In p (queue (world_of o)) ->
              In p (queue w) \/ (isSafePath p = true /\ fits p w);
  qs_task : forall w' file c, o = Wait w' (TSizeRead file c) ->
              isSafePath file = true;
  qs_timers : timer_view (world_of o) = timer_view w \/
              timer_view (world_of o) = clear_view (timer_view w)
}.

(** What resuming a batch run may do: as [queue_spec], but the pending map
    is marked clean by the one answer that [clears], and the flag falls
    with the run. *)
Record run_spec (paths : list string) (pc : BatchPc) (i : Input)
    (w : World) (o : Outcome Task) : Prop := {
  rs_settings : settings (plugin (world_of o)) = settings (plugin w);
  rs_pending : pending (world_of o) = pending (cleaned paths pc i w);
  rs_vault : vault (host (world_of o)) = vault (host w);
  rs_trace : exists eff, trace (world_of o) = (trace w ++ eff)%list;
  rs_gate : busy w = true -> Nat.b2n (busy (world_of o)) = runs_made o;
  rs_nodup : NoDup (queue w) -> NoDup (queue (world_of o));
  rs_fits : forall p, In p (queue (world_of o)) ->
              In p (queue w) \/ (isSafePath p = true /\ fits p w);
  rs_task : forall w' file c, o = Wait w' (TSizeRead file c) ->
              isSafePath file = true;
  rs_timers : timer_view (world_of o) = timer_view w \/
              timer_view (world_of o) = clear_view (timer_view w)
}.

(** The in-flight flag counts the batch runs in flight. *)
Definition busy_inv (s : Sys) : Prop :=
  in_flight s = Nat.b2n (busy (world s)).

(** The queue has no duplicates and holds safe paths only, and so do the
    calls suspended in [isTooLarge]. *)
Definition queue_inv (s : Sys) : Prop :=
  NoDup (queue (world s)) /\
  (forall p, In p (queue (world s)) -> isSafePath p = true) /\
  (forall tid file c, In (tid, TSizeRead file c) (tasks s) ->
     isSafePath file = true).

(** Every timeout is held by a handle, and none is left after unload. *)
Definition timer_inv (s : Sys) : Prop :=
  tracked (world s) /\
  (loaded s = false -> timers (host (world s)) = []).

Definition inv (s : Sys) : Prop := busy_inv s /\ queue_inv s /\ timer_inv s.

(** ** Scenarios

    A vault with two published notes and a draft, a repository and a token,
    and the answers of a server on which everything works. *)

Definition cfg : GitPublisherSettings :=
  mkSettings "https://github.com/user/repo" "tok" true 30 5 "main" 1500
    "Publish" 1024.

Definition note (text : string) : File :=
  mkFile "md" text (JBool true) (Some 10).

Definition draft (text : string) : File := mkFile "md" text JNull (Some 10).

Definition demo_vault : list (string * File) :=
  [("a.md", note "A1"); ("b.md", note "B1"); ("draft.md", draft "D1")].

(** Both notes are dirty, [a] is the active file. *)
Definition start (a : string) : Sys :=
  initial cfg [("a.md", true); ("b.md", true)] demo_vault (Some a) 1%positive
    1767225600000 "2026-01-01T00:00:00.000Z".

Definition ok_ref (sha : string) : Input :=
  InHttp (Resolved 200 (JObj [("object", JObj [("sha", JStr sha)])])).

Definition ok_sha (sha : string) : Input :=
  InHttp (Resolved 201 (JObj [("sha", JStr sha)])).

Definition failed (status : Z) : Input :=
  InHttp (Rejected (Some status) JNull).

(** A whole batch run of task [tid] over one file, every step succeeding:
    the branch head, the read, the blob, the tree, the commit, the ref
    update, the save. *)
Definition good_run (tid : nat) (n : string) : list Event :=
  [Resume tid (ok_ref ("head" ++ n)); Resume tid (InRead true);
   Resume tid (ok_sha ("blob" ++ n)); Resume tid (ok_sha ("tree" ++ n));
   Resume tid (ok_sha ("commit" ++ n)); Resume tid (ok_sha ("commit" ++ n));
   Resume tid (InSaved true)].

(** The current file is published, and publish-all arrives while that run
    is in flight, so that both notes are queued; the run fails on the
    branch, which leaves [b.md] queued.  Publishing the current file again
    starts a run over [b.md] and [a.md], in which the upload of [b.md]
    fails and everything else works. *)
Definition upload_of_b_fails : list Event :=
  [PublishCurrent; PublishAll; Resume 0 (failed 500); Resume 0 (failed 500);
   PublishCurrent;
   Resume 1 (ok_ref "head"); Resume 1 (InRead true); Resume 1 (failed 500);
   Resume 1 (InRead true); Resume 1 (ok_sha "blobA"); Resume 1 (ok_sha "tree");
   Resume 1 (ok_sha "commit"); Resume 1 (ok_sha "commit");
   Resume 1 (InSaved true)].

(** ** Further observations: settings *)

Definition is_break (c : ascii) : bool :=
  Ascii.eqb c "010" || Ascii.eqb c "013".

(** What every change of the settings keeps: the four floors, a repository
    URL that is empty or well-formed, a well-formed branch name, and a
    commit message of one line, neither empty nor longer than 100. *)
Definition tidy (s : GitPublisherSettings) : Prop :=
  5 <= inactivityDelaySec s /\ 1 <= maxIntervalMin s /\
  250 <= debounceMs s /\ 50 <= maxFileSizeKB s /\
  (repoUri s = "" \/ repo_ok (repoUri s) = true) /\
  branch_ok (defaultBranch s) = true /\
  nonempty (batchCommitMessage s) = true /\
  (String.length (batchCommitMessage s) <= 100)%nat /\
  all_chars (fun c => negb (is_break c)) (batchCommitMessage s) = true.

(** What [sanitizeSettings] leaves behind: tidy settings, with auto-publish
    off when there is no repository URL. *)
Definition sane (s : GitPublisherSettings) : Prop :=
  tidy s /\ (repoUri s = "" -> autoPublishEnabled s = false).

(** ** The settings tab

    The [onChange] handlers of [GitPublisherSettingTab.display], on the
    settings; each of them goes on with [saveSettings].  [trim] and
    [parseInt] are the two library functions they use, [parseInt] giving
    [None] for [NaN]. *)

Inductive Change : Type :=
| ChRepoUri (v : string)
| ChToken (v : string)
| ChAutoPublish (v : bool)
| ChInactivity (v : string)
| ChSession (v : string)
| ChDebounce (v : string)
| ChMessage (v : string)
| ChBranch (v : string)
| ChMaxFileSize (v : string).

Section SettingTab.
Variable trim : string -> string.
Variable parseInt : string -> option Z.

(** [const n = parseInt(v, 10); if (!isNaN(n) && n >= lo) field = n] *)
Definition typed_number (lo : Z) (v : string) (old : Z) : Z :=
  match parseInt v with
  | Some n => if lo <=? n then n else old
  | None => old
  end.

Definition apply_change (c : Change) (s : GitPublisherSettings)
  : GitPublisherSettings :=
  match c with
  | ChRepoUri v =>
      sanitizeSettings
        (mkSettings (trim v) (githubToken s) (autoPublishEnabled s)
           (inactivityDelaySec s) (maxIntervalMin s) (defaultBranch s)
           (debounceMs s) (batchCommitMessage s) (maxFileSizeKB s))
  | ChToken v =>
      mkSettings (repoUri s) (trim v) (autoPublishEnabled s)
        (inactivityDelaySec s) (maxIntervalMin s) (defaultBranch s)
        (debounceMs s) (batchCommitMessage s) (maxFileSizeKB s)
  | ChAutoPublish v =>
      mkSettings (repoUri s) (githubToken s) v
        (inactivityDelaySec s) (maxIntervalMin s) (defaultBranch s)
        (debounceMs s) (batchCommitMessage s) (maxFileSizeKB s)
  | ChInactivity v =>
      mkSettings (repoUri s) (githubToken s) (autoPublishEnabled s)
        (typed_number 5 v (inactivityDelaySec s)) (maxIntervalMin s)
        (defaultBranch s) (debounceMs s) (batchCommitMessage s)
        (maxFileSizeKB s)
  | ChSession v =>
      mkSettings (repoUri s) (githubToken s) (autoPublishEnabled s)
        (inactivityDelaySec s) (typed_number 1 v (maxIntervalMin s))
        (defaultBranch s) (debounceMs s) (batchCommitMessage s)
        (maxFileSizeKB s)
  | ChDebounce v =>
      mkSettings (repoUri s) (githubToken s) (autoPublishEnabled s)
        (inactivityDelaySec s) (maxIntervalMin s) (defaultBranch s)
        (typed_number 250 v (debounceMs s)) (batchCommitMessage s)
        (maxFileSizeKB s)
  | ChMessage v =>
      sanitizeSettings
        (mkSettings (repoUri s) (githubToken s) (autoPublishEnabled s)
           (inactivityDelaySec s) (maxIntervalMin s) (defaultBranch s)
           (debounceMs s) (trim v) (maxFileSizeKB s))
  | ChBranch v =>
      sanitizeSettings
        (mkSettings (repoUri s) (githubToken s) (autoPublishEnabled s)
           (inactivityDelaySec s) (maxIntervalMin s)
           (if nonempty (trim v) then trim v else defaultBranch s)
           (debounceMs s) (batchCommitMessage s) (maxFileSizeKB s))
  | ChMaxFileSize v =>
      mkSettings (repoUri s) (githubToken s) (autoPublishEnabled s)
        (inactivityDelaySec s) (maxIntervalMin s) (defaultBranch s)
        (debounceMs s) (batchCommitMessage s)
        (typed_number 50 v (maxFileSizeKB s))
  end.

(** The handler as a whole: the change, then [await this.plugin.saveSettings()]. *)
Definition on_change (c : Change) (w : World) : World :=
  emit (with_settings w (apply_change c (settings (plugin w)))) SaveData.

End SettingTab.

Definition is_toggle (c : Change) : bool :=
  match c with ChAutoPublish _ => true | _ => false end.

(** ** Further observations: timers *)

(** The handle that holds the timeout of a callback. *)
Definition handle_of (cb : TimerCb) (w : World) : option positive :=
  match cb with
  | CbInactivity _ => inactivityHandle (plugin w)
  | CbSession => sessionHandle (plugin w)
  | CbDebounce => debounceHandle (plugin w)
  end.

Definition is_inactivity (t : positive * (TimerCb * Z)) : bool :=
  match fst (snd t) with CbInactivity _ => true | _ => false end.

Definition is_session (t : positive * (TimerCb * Z)) : bool :=
  match fst (snd t) with CbSession => true | _ => false end.

Definition is_debounce (t : positive * (TimerCb * Z)) : bool :=
  match fst (snd t) with CbDebounce => true | _ => false end.

Definition same_kind (a b : TimerCb) : bool :=
  match a, b with
  | CbInactivity _, CbInactivity _ => true
  | CbSession, CbSession => true
  | CbDebounce, CbDebounce => true
  | _, _ => false
  end.

(** The timeouts have distinct ids, all issued already, and each is held
    by the handle of its kind; the handles are ids issued already, and no
    two of them are the same. *)
Definition timers_wf (w : World) : Prop :=
  NoDup (map fst (timers (host w))) /\
  (forall t, In t (timers (host w)) ->
     handle_of (fst (snd t)) w = Some (fst t)) /\
  (forall cb id, handle_of cb w = Some id ->
     (id < nextTimer (host w))%positive) /\
  (forall a b id, handle_of a w = Some id -> handle_of b w = Some id ->
     same_kind a b = true).

(** [w'] is [w] with the timer of [cb] armed anew: the timeout its handle
    held is cancelled, a fresh one for [cb] is pending and the handle holds
    it; the other handles are as they were. *)
Definition armed (cb : TimerCb) (d : Z) (w w' : World) : Prop :=
  timers (host w') =
    (timers (host (clearTimeout (handle_of cb w) w)) ++
     [(nextTimer (host w), (cb, d))])%list /\
  nextTimer (host w') = Pos.succ (nextTimer (host w)) /\
  handle_of cb w' = Some (nextTimer (host w)) /\
  (forall cb', same_kind cb cb' = false -> handle_of cb' w' = handle_of cb' w).

(** The timeouts left when the one with id [id] has elapsed. *)
Definition fired (id : positive) (w : World) : World :=
  with_timers w
    (filter (fun t => negb (Pos.eqb (fst t) id)) (timers (host w)))
    (nextTimer (host w)).

(** The caller a suspended call returns to. *)
Definition caller_of (t : Task) : Caller :=
  match t with TSizeRead _ c | TRun _ _ c => c end.

(** Whether the caller is the loop of [publishAllPending] called from the
    session callback. *)
Definition from_session (c : Caller) : bool :=
  match c with FromPublishAll _ AllFromSession => true | _ => false end.

(** The least delay, in milliseconds, that the floors of the settings allow
    for a timeout of each kind. *)
Definition floor_of (cb : TimerCb) : Z :=
  match cb with
  | CbInactivity _ => 5000
  | CbSession => 60000
  | CbDebounce => 250
  end.

Definition delays_ok (w : World) : Prop :=
  forall id cb d, In (id, (cb, d)) (timers (host w)) -> floor_of cb <= d.

(** ** Further observations: the queue *)

(** [ensureGitHubConfig()] of the settings in force. *)
Definition configured (w : World) : bool :=
  ensureGitHubConfig (settings (plugin w)).

(** A call that sent nothing, left no batch run suspended and kept the
    settings. *)
Definition idle (w : World) (o : Outcome Task) : Prop :=
  settings (plugin (world_of o)) = settings (plugin w) /\
  https (world_of o) = https w /\ runs_made o = 0%nat.

(** What the auto-publish toggle of the settings tab writes. *)
Definition toggled (v : bool) (st : GitPublisherSettings)
  : GitPublisherSettings :=
  mkSettings (repoUri st) (githubToken st) v (inactivityDelaySec st)
    (maxIntervalMin st) (defaultBranch st) (debounceMs st)
    (batchCommitMessage st) (maxFileSizeKB st).

(** ** Further observations: the tree of a batch run *)








(** ** The published flag and the unpublish path

    [setPublished], [togglePublished], [deleteFileFromRepo] and
    [fetchContentsSha], as a call suspended at its host [await]s like the
    batch run.  [encodeURIComponent] and the [basename] of a file are the
    host's. *)

(** [Map.prototype.delete] *)
Definition map_delete (k : string) (m : Map) : Map :=
  filter (fun kv => negb (String.eqb k (fst kv))) m.

(** Where [setPublished] is suspended: in [processFrontMatter], in the GET
    of [fetchContentsSha], or in the DELETE of [deleteFileFromRepo]. *)
Inductive FlagPc : Type :=
| AwaitFrontMatter (file : string) (value : bool)
| AwaitContentsSha (file : string) (owner repo : string) (req : Request)
| AwaitDelete (file : string) (req : Request).

Inductive FlagInput : Type :=
| FrontMatterDone (ok : bool)
| Answered (r : AxiosResult).

(** [setTimeout(() => { repaint }, 150)]: the timeout takes an id of the
    host; its callback only repaints the status bar and the view. *)
Definition repaint_later (w : World) : World :=
  with_timers w (timers (host w)) (Pos.succ (nextTimer (host w))).

Section Flag.
Variable encodeURIComponent : string -> string.
Variable basename : string -> string.

Definition path_meta (file : string) : json := JObj [("path", JStr file)].

(** [`.../repos/${owner}/${repo}/contents/${encodeURIComponent(p)}`] *)
Definition contents_url (owner repo p : string) : string :=
  api owner repo ++ "/contents/" ++ encodeURIComponent p.

(** [setPublished(file, value)] up to [await processFrontMatter(...)]. *)
Definition setPublished (file : string) (value : bool) (w : World)
  : Outcome FlagPc :=
  Wait w (AwaitFrontMatter file value).

(** [togglePublished]: [getPublished] reads the metadata cache. *)
Definition togglePublished (file : string) (w : World) : Outcome FlagPc :=
  setPublished file (negb (isPublished file w)) w.

(** The end of [setPublished] on the unpublish side: the [flag_off] record
    and the repaint. *)
Definition flag_off (file : string) (w : World) : World :=
  repaint_later (log "flag_off" (path_meta file) INFO w).

(** [deleteFileFromRepo(file)] up to the GET of [fetchContentsSha]. *)
Definition deleteFileFromRepo (file : string) (w : World) : Outcome FlagPc :=
  match parseRepo (settings (plugin w)) with
  | None => Done w
  | Some (owner, repo) =>
      let req :=
        mkRequest get (contents_url owner repo file ++ "?ref=" ++ branch w)
          JNull in
      Wait (emit w (Http req)) (AwaitContentsSha file owner repo req)
  end.

(** [setPublished] resumed at the [await] it is suspended at.  An input
    that does not answer that [await] is ignored. *)
Definition setPublished_resume (pc : FlagPc) (i : FlagInput) (w : World)
  : Outcome FlagPc :=
  match pc, i with
  | AwaitFrontMatter file value, FrontMatterDone true =>
      if value then
        let w := notice (basename file ++ " published") w in
        let w := with_pending w (map_set file true (pendingChanges (plugin w))) in
        Done (repaint_later (log "flag_on" (path_meta file) INFO w))
      else
        let w := notice (basename file ++ " unpublished") w in
        and_then (deleteFileFromRepo file w)
          (fun w => Done (flag_off file w))
  | AwaitFrontMatter _ _, FrontMatterDone false => Raise w
  | AwaitContentsSha file owner repo req, Answered r =>
      let '(res, w) := githubReq_settle req r w in
      let sha := field "sha" res in
      if truthy sha then
        let req' :=
          mkRequest delete_ (contents_url owner repo file)
            (JObj [("message", JStr ("Unpublish " ++ file));
                   ("branch", JStr (branch w)); ("sha", sha)]) in
        Wait (emit w (Http req')) (AwaitDelete file req')
      else
        Done (flag_off file (log "delete_missing_remote" (path_meta file) INFO w))
  | AwaitDelete file req, Answered r =>
      let '(res, w) := githubReq_settle req r w in
      if truthy res then
        let w := with_pending w (map_delete file (pendingChanges (plugin w))) in
        Done (flag_off file (log "deleted" (path_meta file) INFO w))
      else Done (flag_off file w)
  | _, _ => Wait w pc
  end.

(** The call resumed with one input after the other, as long as it is
    suspended. *)
Fixpoint setPublished_run (pc : FlagPc) (inputs : list FlagInput) (w : World)
  : Outcome FlagPc :=
  match inputs with
  | [] => Wait w pc
  | i :: rest =>
      match setPublished_resume pc i w with
      | Wait w' pc' => setPublished_run pc' rest w'
      | o => o
      end
  end.

End Flag.

(** The file a suspended [setPublished] is about. *)
Definition flag_file (pc : FlagPc) : string :=
  match pc with
  | AwaitFrontMatter file _ | AwaitContentsSha file _ _ _
  | AwaitDelete file _ => file
  end.

Definition is_delete (e : Effect) : bool :=
  match e with
  | Http r => match method r with delete_ => true | _ => false end
  | _ => false
  end.

(** ** The scan of the published files

    [scanPublishedFiles], the command that rescans and [initialRepoScan],
    again as a call suspended at its host [await]s.  Besides the world the
    scan writes [shaMap] and [lastScanSummary].  [toBase64] and
    [encodeURIComponent] are the host's. *)

Record Summary : Type := mkSummary {
  total : Z; outOfSync : Z; missing : Z; ts : Z
}.

Record ScanState : Type := mkScan {
  scan_world : World;
  shaMap : list (string * json);
  lastScanSummary : option Summary
}.

(** The counters of the loop: [total], [outOfSync], [missing]. *)
Record Counters : Type := mkCounters { c_total : Z; c_out : Z; c_missing : Z }.

(** Who awaits [scanPublishedFiles]: [initialRepoScan] or the command. *)
Inductive ScanCaller : Type := ScanFromOnload | ScanFromCommand.

(** Where a scan is suspended: in [initialRepoScan], at the GET for the
    repository or in [ensureBranchExists] (the GET for the branch head, the
    PUT of [initializeBranch], the second GET); in the loop, at the GET for
    the contents of a file or at the read of the file. *)
Inductive ScanPc : Type :=
| ScanRepo (owner repo : string) (req : Request)
| ScanRef (owner repo refUrl : string) (req : Request)
| ScanInit (owner repo refUrl : string) (req : Request)
| ScanRef2 (owner repo : string) (req : Request)
| ScanGet (k : ScanCaller) (owner repo : string) (f : string)
    (rest : list string) (c : Counters) (req : Request)
| ScanRead (k : ScanCaller) (owner repo : string) (f : string)
    (remote : json) (rest : list string) (c : Counters).

Inductive ScanOutcome : Type :=
| ScanDone (s : ScanState)
| ScanWait (s : ScanState) (pc : ScanPc)
| ScanRaise (s : ScanState).

Definition state_of (o : ScanOutcome) : ScanState :=
  match o with ScanDone s | ScanWait s _ | ScanRaise s => s end.

Definition scan_with (s : ScanState) (w : World) : ScanState :=
  mkScan w (shaMap s) (lastScanSummary s).

(** [obj[k] = v] on a plain object. *)
Fixpoint obj_set (k : string) (v : json) (o : list (string * json))
  : list (string * json) :=
  match o with
  | [] => [(k, v)]
  | (k', v') :: o' =>
      if String.eqb k k' then (k', v) :: o' else (k', v') :: obj_set k v o'
  end.

(** [s.replace(/\n/g, '')] *)
Fixpoint strip_newlines (s : string) : string :=
  match s with
  | EmptyString => EmptyString
  | String c s' =>
      if Ascii.eqb c "010" then strip_newlines s'
      else String c (strip_newlines s')
  end.

(** [this.app.vault.getMarkdownFiles()], by path. *)
Definition getMarkdownFiles (w : World) : list string :=
  map fst (filter (fun pf => String.eqb (extension (snd pf)) "md")
             (vault (host w))).

(** The text of the notice of the command when the URL does not parse; its
    sixth code unit is u-umlaut. *)
Definition repo_invalid : string := "Repo ung" ++ String "252" "ltig".

Section Scan.
Variable encodeURIComponent : string -> string.
Variable toBase64 : string -> string.

Definition scan_send (s : ScanState) (req : Request) (pc : Request -> ScanPc)
  : ScanOutcome :=
  ScanWait (scan_with s (emit (scan_world s) (Http req))) (pc req).

Definition summary_json (m : Summary) : json :=
  JObj [("total", JNum (total m)); ("outOfSync", JNum (outOfSync m));
        ("missing", JNum (missing m)); ("ts", JNum (ts m))].

Definition set_flag (f : string) (v : bool) (s : ScanState) : ScanState :=
  let w := scan_world s in
  scan_with s (with_pending w (map_set f v (pendingChanges (plugin w)))).

(** What follows [await this.scanPublishedFiles(...)]: a repaint, and in
    the command the notice. *)
Definition scan_return (k : ScanCaller) (s : ScanState) : ScanState :=
  match k with
  | ScanFromOnload => s
  | ScanFromCommand => scan_with s (notice "Rescan fertig" (scan_world s))
  end.

(** The loop of [scanPublishedFiles] from the files [rest] on, up to its
    next [await], and what follows the loop. *)
Fixpoint scan_from (k : ScanCaller) (owner repo : string) (rest : list string)
    (c : Counters) (s : ScanState) : ScanOutcome :=
  let w := scan_world s in
  match rest with
  | [] =>
      let m := mkSummary (c_total c) (c_out c) (c_missing c) (now (host w)) in
      ScanDone
        (scan_return k
           (mkScan (log "scan_done" (summary_json m) INFO w) (shaMap s)
              (Some m)))
  | f :: rest' =>
      if negb (isPublished f w) then scan_from k owner repo rest' c s
      else
        scan_send s
          (mkRequest get
             (api owner repo ++ "/contents/" ++ encodeURIComponent f ++
              "?ref=" ++ branch w) JNull)
          (ScanGet k owner repo f rest'
             (mkCounters (c_total c + 1) (c_out c) (c_missing c)))
  end.

(** [scanPublishedFiles(owner, repo)] *)
Definition scanPublishedFiles (k : ScanCaller) (owner repo : string)
    (s : ScanState) : ScanOutcome :=
  scan_from k owner repo (getMarkdownFiles (scan_world s)) (mkCounters 0 0 0) s.

(** The command that rescans, up to its first [await]. *)
Definition rescan (s : ScanState) : ScanOutcome :=
  match parseRepo (settings (plugin (scan_world s))) with
  | None => ScanDone (scan_with s (notice repo_invalid (scan_world s)))
  | Some (owner, repo) => scanPublishedFiles ScanFromCommand owner repo s
  end.

(** [initialRepoScan] up to the GET for the repository. *)
Definition initialRepoScan (s : ScanState) : ScanOutcome :=
  let w := scan_world s in
  if negb (ensureGitHubConfig (settings (plugin w))) then ScanDone s
  else
    match parseRepo (settings (plugin w)) with
    | None => ScanDone s
    | Some (owner, repo) =>
        scan_send s (mkRequest get (api owner repo) JNull)
          (ScanRepo owner repo)
    end.

(** A scan resumed at the [await] it is suspended at.  An input that does
    not answer that [await] is ignored. *)
Definition scan_resume (pc : ScanPc) (i : Input) (s : ScanState)
  : ScanOutcome :=
  let w := scan_world s in
  match pc, i with
  | ScanRepo owner repo req, InHttp r =>
      let '(res, w) := githubReq_settle req r w in
      if truthy res then
        let refUrl := api owner repo ++ "/git/ref/heads/" ++ branch w in
        scan_send (scan_with s w) (mkRequest get refUrl JNull)
          (ScanRef owner repo refUrl)
      else ScanDone (scan_with s w)
  | ScanRef owner repo refUrl req, InHttp r =>
      let '(res, w) := githubReq_settle req r w in
      if truthy (field "sha" (field "object" res))
      then scanPublishedFiles ScanFromOnload owner repo (scan_with s w)
      else
        scan_send (scan_with s w)
          (mkRequest put (api owner repo ++ "/contents/.gitkeep")
             (JObj [("message", JStr "Initialize branch");
                    ("content", JStr "aW5pdA==");
                    ("branch", JStr (branch w))]))
          (ScanInit owner repo refUrl)
  | ScanInit owner repo refUrl req, InHttp r =>
      let '(res, w) := githubReq_settle req r w in
      if truthy (field "sha" (field "content" res))
      then scan_send (scan_with s w) (mkRequest get refUrl JNull)
             (ScanRef2 owner repo)
      else ScanDone (scan_with s w)
  | ScanRef2 owner repo req, InHttp r =>
      let '(res, w) := githubReq_settle req r w in
      if truthy (field "sha" (field "object" res))
      then scanPublishedFiles ScanFromOnload owner repo (scan_with s w)
      else ScanDone (scan_with s w)
  | ScanGet k owner repo f rest c req, InHttp r =>
      let '(remote, w) := githubReq_settle req r w in
      let s := scan_with s w in
      if negb (truthy remote) || negb (truthy (field "content" remote)) then
        scan_from k owner repo rest
          (mkCounters (c_total c) (c_out c) (c_missing c + 1))
          (set_flag f true s)
      else ScanWait s (ScanRead k owner repo f remote rest c)
  | ScanRead k owner repo f remote rest c, InRead true =>
      match getAbstractFileByPath f w with
      | Some file =>
          match field "content" remote with
          | JStr text =>
              if negb (String.eqb (toBase64 (content file))
                         (strip_newlines text))
              then
                scan_from k owner repo rest
                  (mkCounters (c_total c) (c_out c + 1) (c_missing c))
                  (set_flag f true s)
              else
                let s := set_flag f false s in
                scan_from k owner repo rest c
                  (mkScan (scan_world s)
                     (obj_set f (field "sha" remote) (shaMap s))
                     (lastScanSummary s))
          | _ => ScanRaise s
          end
      | None => ScanRaise s
      end
  | ScanRead _ _ _ _ _ _ _, InRead false => ScanRaise s
  | _, _ => ScanWait s pc
  end.

(** The scan resumed with one input after the other, as long as it is
    suspended. *)
Fixpoint scan_run (pc : ScanPc) (inputs : list Input) (s : ScanState)
  : ScanOutcome :=
  match inputs with
  | [] => ScanWait s pc
  | i :: rest =>
      match scan_resume pc i s with
      | ScanWait s' pc' => scan_run pc' rest s'
      | o => o
      end
  end.

End Scan.

(** What the properties of the scan observe. *)
Definition scan_https (s : ScanState) : list Effect := https (scan_world s).

Definition scan_pending (s : ScanState) : Map := pending (scan_world s).

Definition is_get (e : Effect) : bool :=
  match e with
  | Http r => match method r with get => true | _ => false end
  | _ => false
  end.


(** A scan from the call of [scanPublishedFiles] on. *)
Definition scan_all (enc b64 : string -> string) (k : ScanCaller)
    (owner repo : string) (inputs : list Input) (s : ScanState)
  : ScanOutcome :=
  match scanPublishedFiles enc k owner repo s with
  | ScanWait s' pc => scan_run enc b64 pc inputs s'
  | o => o
  end.

(** Whether a scan is suspended in the loop of [scanPublishedFiles]. *)
Definition in_loop (pc : ScanPc) : bool :=
  match pc with ScanGet _ _ _ _ _ _ _ | ScanRead _ _ _ _ _ _ _ => true
  | _ => false end.

(** The files a suspended loop still has to deal with, the one at hand
    first. *)
Definition files_left (pc : ScanPc) : list string :=
  match pc with
  | ScanGet _ _ _ f rest _ _ | ScanRead _ _ _ f _ rest _ => f :: rest
  | _ => []
  end.

(** The counters of a suspended loop; the file at hand is counted in
    [total] and in neither of the others yet. *)
Definition counters_of (pc : ScanPc) : Counters :=
  match pc with
  | ScanGet _ _ _ _ _ c _ | ScanRead _ _ _ _ _ _ c => c
  | _ => mkCounters 0 0 0
  end.

(** * Properties *)

(** ** The regular expressions and the path test on examples *)

Example repo_ok_plain : repo_ok "https://github.com/user/repo" = true.
Proof. reflexivity. Qed.

Example repo_groups_git :
  repo_groups "https://github.com/user/repo.git" = Some ("user", "repo.git").
Proof. reflexivity. Qed.

Example repo_ok_http : repo_ok "http://github.com/user/repo" = false.
Proof. reflexivity. Qed.

Example repo_ok_deep : repo_ok "https://github.com/user/repo/x" = false.
Proof. reflexivity. Qed.

Example branch_ok_space : branch_ok "my branch" = false.
Proof. reflexivity. Qed.

Example isSafePath_note : isSafePath "notes/a.md" = true.
Proof. reflexivity. Qed.

Example isSafePath_hidden : isSafePath ".obsidian/app.json" = false.
Proof. reflexivity. Qed.

Example isSafePath_up : isSafePath "a/../b.md" = false.
Proof. reflexivity. Qed.

(** ** Settings sanitization *)

Lemma clamp_lower lo x : lo <= clamp lo x.
Proof. unfold clamp. destruct (Z.ltb_spec x lo); lia. Qed.

(** C9, as the code has it.  After [sanitizeSettings] the inactivity window
    is at least 5 seconds, the session window at least 1 minute, the debounce
    window at least 250 ms and the size ceiling at least 50 KB.  An invalid
    repository URL is reset to the empty string and switches auto-publish
    off; an invalid branch name is reset to [main] and leaves auto-publish as
    it was. *)
Theorem sanitizeSettings_floors_and_resets (s : GitPublisherSettings) :
  let s' := sanitizeSettings s in
  5 <= inactivityDelaySec s' /\ 1 <= maxIntervalMin s' /\
  250 <= debounceMs s' /\ 50 <= maxFileSizeKB s' /\
  repoUri s' = (if repo_ok (repoUri s) then repoUri s else "") /\
  defaultBranch s' =
    (if branch_ok (defaultBranch s) then defaultBranch s else "main") /\
  branch_ok (defaultBranch s') = true /\
  autoPublishEnabled s' = repo_ok (repoUri s) && autoPublishEnabled s.
Proof.
  cbv zeta. unfold sanitizeSettings. cbn [inactivityDelaySec maxIntervalMin
    debounceMs maxFileSizeKB repoUri defaultBranch autoPublishEnabled].
  repeat split; try apply clamp_lower.
  - destruct (repo_ok (repoUri s)); reflexivity.
  - destruct (branch_ok (defaultBranch s)) eqn:E; [exact E | reflexivity].
  - destruct (repo_ok (repoUri s)); reflexivity.
Qed.

(** C9 as stated fails: a bad branch name next to a good repository URL is
    reset, and auto-publish stays on. *)
Lemma sanitizeSettings_bad_branch_keeps_auto :
  let s := mkSettings "https://github.com/user/repo" "tok" true 30 5
             "my branch" 1500 "Publish" 1024 in
  branch_ok (defaultBranch s) = false /\
  defaultBranch (sanitizeSettings s) = "main" /\
  autoPublishEnabled (sanitizeSettings s) = true.
Proof. repeat split; reflexivity. Qed.

(** ** Frames: what each function leaves alone *)

#[local] Arguments delete_all : simpl never.
#[local] Arguments mark_clean : simpl never.
#[local] Arguments clearTimers : simpl never.
#[local] Arguments Js.add : simpl never.
#[local] Arguments isSafePath : simpl never.
#[local] Arguments show : simpl never.
#[local] Arguments api : simpl never.
#[local] Arguments String.append : simpl never.

Lemma add_effects_nil w : add_effects w [] = w.
Proof.
  destruct w as [p h]; destruct h; unfold add_effects; cbn.
  now rewrite app_nil_r.
Qed.

Lemma add_effects_app w e1 e2 :
  add_effects (add_effects w e1) e2 = add_effects w (e1 ++ e2).
Proof. unfold add_effects; cbn. now rewrite app_assoc. Qed.

Lemma quiet_refl w : quiet w w.
Proof. exists []. now rewrite add_effects_nil. Qed.

Lemma quiet_trans w1 w2 w3 : quiet w1 w2 -> quiet w2 w3 -> quiet w1 w3.
Proof.
  intros [e1 ->] [e2 ->]. exists (e1 ++ e2)%list. apply add_effects_app.
Qed.

Lemma quiet_emit w e : quiet w (emit w e).
Proof. now exists [e]. Qed.

Lemma quiet_log w msg meta lvl : quiet w (log msg meta lvl w).
Proof. apply quiet_emit. Qed.

Lemma quiet_notice w t : quiet w (notice t w).
Proof. apply quiet_emit. Qed.

Create HintDb frames.
#[local] Hint Resolve quiet_refl quiet_emit quiet_log quiet_notice : frames.

Lemma quiet_pending w w' : quiet w w' -> pending w' = pending w.
Proof. now intros [e ->]. Qed.

Lemma quiet_with_pending w w' m :
  quiet w w' -> quiet (with_pending w m) (with_pending w' m).
Proof. intros [e ->]. now exists e. Qed.

Lemma send_quiet m u d k w : quiet w (world_of (send m u d k w)).
Proof. unfold send; cbn. auto with frames. Qed.

Lemma read_next_quiet owner repo baseSha rest :
  forall blobs w, quiet w (world_of (read_next owner repo baseSha blobs rest w)).
Proof.
  induction rest as [|p rest IH]; intros blobs w; cbn.
  - destruct blobs; cbn; auto with frames.
  - destruct (getAbstractFileByPath p w); cbn; auto with frames.
    eapply quiet_trans; [|apply IH]. auto with frames.
Qed.

Lemma publishBatch_quiet paths w : quiet w (world_of (publishBatch paths w)).
Proof.
  unfold publishBatch.
  destruct (parseRepo _) as [[owner repo]|]; cbn.
  - eapply quiet_trans; [apply quiet_log|apply quiet_emit].
  - eapply quiet_trans; apply quiet_log.
Qed.

Lemma githubReq_settle_quiet req r w : quiet w (snd (githubReq_settle req r w)).
Proof.
  destruct r; cbn; auto with frames.
  eapply quiet_trans; [apply quiet_log|apply quiet_notice].
Qed.

Lemma githubReq_settle_answer req r w : fst (githubReq_settle req r w) = answer r.
Proof. now destruct r. Qed.

Lemma on_response_quiet paths k res w :
  is_patch k && truthy res = false ->
  quiet w (world_of (on_response paths k res w)).
Proof.
  destruct k; cbn; intros H;
    repeat match goal with
    | |- context [if truthy ?x then _ else _] => destruct (truthy x)
    end; cbn;
    try discriminate;
    auto using read_next_quiet, send_quiet with frames;
    try (eapply quiet_trans; [|apply read_next_quiet]; auto with frames).
Qed.

Lemma on_response_patch paths sha res w :
  truthy res = true ->
  on_response paths (KPatch sha) res w =
  Wait (emit (with_pending w (mark_clean paths (pending w))) SaveData)
    (AwaitSave sha).
Proof. cbn. now intros ->. Qed.

Lemma publishBatch_resume_frame paths pc i w :
  quiet (cleaned paths pc i w) (world_of (publishBatch_resume paths pc i w)).
Proof.
  unfold cleaned, publishBatch_resume.
  destruct pc as [req k|owner repo baseSha blobs p rest|sha]; destruct i as [r|ok|ok];
    cbn [clears]; try apply quiet_refl;
    try (destruct k; apply quiet_refl).
  - pose proof (githubReq_settle_quiet req r w) as Hq.
    pose proof (githubReq_settle_answer req r w) as Ha.
    destruct (githubReq_settle req r w) as [res w1]; cbn [fst snd] in *.
    subst res.
    destruct (is_patch k && truthy (answer r)) eqn:E.
    + destruct k; try discriminate. cbn in E. rewrite E.
      rewrite on_response_patch by exact E. cbn [world_of].
      rewrite (quiet_pending _ _ Hq).
      eapply quiet_trans; [|apply quiet_emit].
      now apply quiet_with_pending.
    + assert (Hk : (match k with
                    | KPatch _ => truthy (answer r)
                    | _ => false
                    end) = false) by (destruct k; cbn in E; auto).
      rewrite Hk.
      eapply quiet_trans; [exact Hq|]. now apply on_response_quiet.
  - destruct ok; cbn; try apply quiet_refl.
    destruct (getAbstractFileByPath p w); cbn; auto with frames.
  - destruct ok; cbn; try apply quiet_refl.
    eapply quiet_trans; [apply quiet_log|apply quiet_notice].
Qed.

Lemma timer_view_clearTimers w :
  timer_view (clearTimers w) = clear_view (timer_view w).
Proof.
  destruct w as [p h]. destruct p, h.
  unfold clearTimers, timer_view, clear_view, clearTimeout; cbn.
  destruct inactivityHandle0, sessionHandle0, debounceHandle0; reflexivity.
Qed.

Lemma clear_view_idem v : clear_view (clear_view v) = clear_view v.
Proof. destruct v as [[[[[ih sh] ss] dh] tm] nx]. reflexivity. Qed.

(** ** Sets and maps *)

Lemma has_In k s : has k s = true <-> In k s.
Proof.
  unfold has. rewrite existsb_exists. split.
  - intros (x & Hx & E). apply String.eqb_eq in E. now subst.
  - intros H. exists k. split; [exact H|apply String.eqb_refl].
Qed.

Lemma add_In p k s : In p (add k s) <-> p = k \/ In p s.
Proof.
  unfold add. destruct (has k s) eqn:E.
  - apply has_In in E. split; [auto|]. intros [->|H]; auto.
  - rewrite in_app_iff. cbn. intuition (subst; auto).
Qed.

Lemma add_NoDup k s : NoDup s -> NoDup (add k s).
Proof.
  intros H. unfold add. destruct (has k s) eqn:E; [exact H|].
  assert (~ In k s) by (rewrite <- has_In; congruence).
  apply NoDup_app; [exact H|repeat constructor; intros []|].
  intros x Hx [<-|[]]. contradiction.
Qed.

Lemma delete_In p k s : In p (Js.delete k s) <-> In p s /\ p <> k.
Proof.
  unfold Js.delete. rewrite filter_In, negb_true_iff, String.eqb_neq.
  intuition congruence.
Qed.

Lemma delete_all_In paths : forall q p,
  In p (delete_all paths q) <-> In p q /\ ~ In p paths.
Proof.
  unfold delete_all.
  induction paths as [|k paths IH]; intros q p; cbn.
  - tauto.
  - rewrite IH, delete_In. intuition congruence.
Qed.

Lemma delete_all_NoDup paths : forall q, NoDup q -> NoDup (delete_all paths q).
Proof.
  unfold delete_all.
  induction paths as [|k paths IH]; intros q H; cbn; [exact H|].
  apply IH. now apply NoDup_filter.
Qed.

Lemma map_get_set_same k v m : map_get k (map_set k v m) = Some v.
Proof.
  induction m as [|[k' v'] m IH]; cbn.
  - now rewrite String.eqb_refl.
  - destruct (String.eqb k k') eqn:E; cbn; rewrite E; auto.
Qed.

Lemma map_get_set_other k k' v m :
  k <> k' -> map_get k (map_set k' v m) = map_get k m.
Proof.
  intros N. induction m as [|[q v'] m IH]; cbn.
  - apply String.eqb_neq in N. now rewrite N.
  - destruct (String.eqb k' q) eqn:E; cbn.
    + apply String.eqb_eq in E; subst q.
      apply String.eqb_neq in N. now rewrite N.
    + destruct (String.eqb k q); auto.
Qed.

Lemma mark_clean_other paths : forall m p,
  ~ In p paths -> map_get p (mark_clean paths m) = map_get p m.
Proof.
  unfold mark_clean.
  induction paths as [|k paths IH]; intros m p N; cbn; [reflexivity|].
  rewrite IH by (cbn in N; tauto).
  apply map_get_set_other. cbn in N. intros ->. tauto.
Qed.

Lemma mark_clean_in paths : forall m p,
  In p paths -> map_get p (mark_clean paths m) = Some false.
Proof.
  unfold mark_clean.
  induction paths as [|k paths IH]; intros m p H; [destruct H|]. cbn.
  destruct (in_dec string_dec p paths) as [Hin|Hout].
  - now apply IH.
  - destruct H as [->|H]; [|contradiction].
    fold (mark_clean paths (map_set p false m)).
    rewrite mark_clean_other by exact Hout. apply map_get_set_same.
Qed.

(** ** The queue functions *)

Lemma fits_same p w w' :
  vault (host w') = vault (host w) ->
  settings (plugin w') = settings (plugin w) ->
  fits p w -> fits p w'.
Proof.
  unfold fits, stat_size, getAbstractFileByPath, size_limit.
  intros -> ->. auto.
Qed.

Lemma queue_spec_same w : queue_spec w (Done w).
Proof.
  constructor; cbn; auto; try discriminate; try lia.
  exists []. now rewrite app_nil_r.
Qed.

Lemma queue_spec_trans w w1 o :
  queue_spec w (Done w1) -> queue_spec w1 o -> queue_spec w o.
Proof.
  intros [S1 P1 V1 T1 G1 C1 N1 F1 K1 M1] [S2 P2 V2 T2 G2 C2 N2 F2 K2 M2].
  cbn [world_of runs_made] in *.
  constructor.
  - congruence.
  - congruence.
  - congruence.
  - destruct T1 as [e1 E1], T2 as [e2 E2]. exists (e1 ++ e2)%list.
    now rewrite E2, E1, app_assoc.
  - lia.
  - intros Hg. rewrite C2, C1; auto.
    rewrite Hg in G1. destruct (busy w1); cbn in G1; [reflexivity|lia].
  - auto.
  - intros p Hp. destruct (F2 p Hp) as [H|[Hs Hf]].
    + auto.
    + right. split; [exact Hs|]. eapply fits_same; [| |exact Hf]; congruence.
  - exact K2.
  - destruct M1 as [M1|M1], M2 as [M2|M2]; rewrite M2, M1;
      rewrite ?clear_view_idem; auto.
Qed.

Lemma queue_spec_and_then w o f :
  queue_spec w o -> (forall w1, queue_spec w1 (f w1)) ->
  queue_spec w (and_then o f).
Proof.
  intros H Hf. destruct o; cbn; auto.
  eapply queue_spec_trans; [exact H|apply Hf].
Qed.

Lemma https_add_effects w eff :
  https (add_effects w eff) = (https w ++ filter is_http eff)%list.
Proof. unfold https, trace; cbn. apply filter_app. Qed.

Lemma queue_spec_silent w eff :
  filter is_http eff = [] -> queue_spec w (Done (add_effects w eff)).
Proof.
  intros H. constructor; cbn [world_of]; auto; try discriminate.
  - now exists eff.
  - intros _. now rewrite https_add_effects, H, app_nil_r.
Qed.

Lemma queue_spec_log w msg meta lvl : queue_spec w (Done (log msg meta lvl w)).
Proof. now apply (queue_spec_silent w [Log msg meta lvl]). Qed.

Lemma processPublishQueue_spec c w : queue_spec w (processPublishQueue c w).
Proof.
  unfold processPublishQueue.
  destruct (publishingInProgress (plugin w)) eqn:G; [apply queue_spec_same|].
  destruct (negb (ensureGitHubConfig _)); [apply queue_spec_same|].
  destruct (publishQueue (plugin (with_inProgress w true))) as [|p0 q0] eqn:Q.
  - constructor; cbn; auto; try discriminate.
    + exists []. now rewrite app_nil_r.
    + unfold busy. now rewrite G.
  - set (paths := p0 :: q0) in *. cbn in Q.
    pose proof (publishBatch_quiet paths (with_inProgress w true)) as Hq.
    destruct (publishBatch paths (with_inProgress w true)) as [w2|w2 pc|w2];
      cbn [world_of] in Hq; destruct Hq as [eff ->];
      constructor; cbn; auto; try discriminate;
      try (now exists eff); unfold busy, queue; rewrite ?G, ?Q;
      try discriminate; try reflexivity.
    + intros Hn. now apply delete_all_NoDup.
    + intros p Hp. apply delete_all_In in Hp. tauto.
Qed.

Lemma enqueue_spec file c w :
  isSafePath file = true -> fits file w -> queue_spec w (enqueue file c w).
Proof.
  intros Hs Hf. unfold enqueue.
  eapply queue_spec_trans; [|apply processPublishQueue_spec].
  constructor; cbn; auto; try discriminate.
  - exists []. now rewrite app_nil_r.
  - now apply add_NoDup.
  - intros p Hp. apply add_In in Hp. destruct Hp as [->|Hp]; auto.
Qed.

Lemma stat_size_fits file w z :
  stat_size file w = Some z -> (z >? size_limit w) = false -> fits file w.
Proof.
  intros H L. unfold fits. unfold stat_size in H.
  destruct (getAbstractFileByPath file w) as [f|] eqn:E; [|discriminate].
  exists f. split; [reflexivity|]. left. exists z. split.
  - unfold stat_size. now rewrite E.
  - lia.
Qed.

Lemma queueFileForPublish_spec file c w :
  queue_spec w (queueFileForPublish file c w).
Proof.
  unfold queueFileForPublish.
  destruct (isSafePath file) eqn:Hs; cbn [negb]; [|apply queue_spec_same].
  destruct (stat_size file w) as [z|] eqn:Hz.
  - destruct (z >? size_limit w) eqn:L.
    + apply queue_spec_log.
    + apply enqueue_spec; [exact Hs|]. eapply stat_size_fits; eauto.
  - constructor; cbn; auto.
    + exists []. now rewrite app_nil_r.
    + intros ? ? ? [= _ -> _]. exact Hs.
Qed.

Lemma publishAll_from_spec k entries :
  forall i w, queue_spec w (publishAll_from entries i k w).
Proof.
  induction entries as [|[p pen] rest IH]; intros i w; cbn.
  - apply queue_spec_same.
  - destruct pen; cbn [negb]; [|apply IH].
    destruct (getAbstractFileByPath p w); [|apply IH].
    apply queue_spec_and_then; [apply queueFileForPublish_spec|].
    intros w1. apply IH.
Qed.

Lemma clearTimers_spec w : queue_spec w (Done (clearTimers w)).
Proof.
  assert (E : forall h v, plugin (clearTimeout h v) = plugin v /\
                     vault (host (clearTimeout h v)) = vault (host v) /\
                     effects (host (clearTimeout h v)) = effects (host v)).
  { intros [id|] v; cbn; auto. }
  constructor; cbn [world_of runs_made];
    try (right; apply timer_view_clearTimers);
    try discriminate;
    unfold clearTimers, pending, busy, queue, https, trace; cbn;
    repeat match goal with
    | |- context [plugin (clearTimeout ?h ?v)] =>
        rewrite (proj1 (E h v))
    | |- context [vault (host (clearTimeout ?h ?v))] =>
        rewrite (proj1 (proj2 (E h v)))
    | |- context [effects (host (clearTimeout ?h ?v))] =>
        rewrite (proj2 (proj2 (E h v)))
    end; auto; try lia.
  exists []. now rewrite app_nil_r.
Qed.

Lemma finish_all_spec k w : queue_spec w (finish_all k w).
Proof. destruct k; [apply queue_spec_same|apply clearTimers_spec]. Qed.

Lemma publishAllPending_spec k w : queue_spec w (publishAllPending k w).
Proof.
  unfold publishAllPending.
  destruct (negb _); [apply queue_spec_same|apply publishAll_from_spec].
Qed.

Lemma publishFileIfPending_spec file w :
  queue_spec w (publishFileIfPending file w).
Proof.
  unfold publishFileIfPending.
  destruct (negb _); [apply queue_spec_same|].
  destruct (negb _); [apply queue_spec_same|].
  destruct (map_get _ _) as [[|]|];
    auto using queue_spec_same, queueFileForPublish_spec.
Qed.

Lemma return_to_spec c w : queue_spec w (return_to c w).
Proof.
  destruct c; cbn; try apply queue_spec_same.
  apply queue_spec_and_then; [apply publishAll_from_spec|].
  intros; apply finish_all_spec.
Qed.

Lemma fire_spec cb w : queue_spec w (fire cb w).
Proof.
  destruct cb; cbn.
  - apply queue_spec_same.
  - apply publishFileIfPending_spec.
  - apply queue_spec_and_then; [apply publishAllPending_spec|].
    intros; apply finish_all_spec.
Qed.

Lemma queue_spec_raise w : queue_spec w (Raise w).
Proof.
  constructor; cbn; auto; try discriminate.
  exists []. now rewrite app_nil_r.
Qed.

Lemma step_task_size_spec file c i w :
  isSafePath file = true ->
  queue_spec w (step_task (TSizeRead file c) i w).
Proof.
  intros Hs. cbn [step_task].
  assert (Hw : queue_spec w (Wait w (TSizeRead file c))).
  { constructor; cbn; auto.
    - exists []. now rewrite app_nil_r.
    - intros ? ? ? [= _ -> _]. exact Hs. }
  destruct i as [r|ok|ok]; try exact Hw.
  destruct (if ok then getAbstractFileByPath file w else None) as [f|] eqn:E;
    [|apply queue_spec_raise].
  assert (Ef : getAbstractFileByPath file w = Some f)
    by (destruct ok; [exact E|discriminate]).
  destruct (Z.of_nat (String.length (content f)) >? size_limit w) eqn:L.
  - eapply queue_spec_trans; [apply queue_spec_log|apply return_to_spec].
  - apply queue_spec_and_then; [|intros; apply return_to_spec].
    apply enqueue_spec; [exact Hs|].
    exists f. split; [exact Ef|]. right. lia.
Qed.

Lemma cleaned_frame paths pc i w eff :
  let w1 := add_effects (cleaned paths pc i w) eff in
  settings (plugin w1) = settings (plugin w) /\
  pending w1 = pending (cleaned paths pc i w) /\
  vault (host w1) = vault (host w) /\
  trace w1 = (trace w ++ eff)%list /\
  busy w1 = busy w /\
  queue w1 = queue w /\
  timer_view w1 = timer_view w.
Proof.
  unfold cleaned. destruct (clears pc i); repeat split; reflexivity.
Qed.

Lemma step_task_run_spec paths pc c i w :
  run_spec paths pc i w (step_task (TRun paths pc c) i w).
Proof.
  cbn [step_task].
  pose proof (publishBatch_resume_frame paths pc i w) as Hq.
  destruct (publishBatch_resume paths pc i w) as [w1|w1 pc'|w1];
    cbn [world_of close_batch as_run and_then] in *;
    destruct Hq as [eff ->];
    destruct (cleaned_frame paths pc i w eff)
      as (S1 & P1 & V1 & T1 & G1 & Q1 & M1); cbv zeta in *;
    set (w1 := add_effects (cleaned paths pc i w) eff) in *; clearbody w1.
  - set (w2 := finally (with_queue w1 (delete_all paths (publishQueue (plugin w1))))).
    assert (S2 : settings (plugin w2) = settings (plugin w1)) by reflexivity.
    assert (P2 : pending w2 = pending w1) by reflexivity.
    assert (V2 : vault (host w2) = vault (host w1)) by reflexivity.
    assert (T2 : trace w2 = trace w1) by reflexivity.
    assert (G2 : busy w2 = false) by reflexivity.
    assert (Q2 : queue w2 = delete_all paths (queue w1)) by reflexivity.
    assert (M2 : timer_view w2 = timer_view w1) by reflexivity.
    clearbody w2.
    destruct (return_to_spec c w2) as [S P V T G C N F K M].
    constructor; try congruence.
    + destruct T as [e2 T]. exists (eff ++ e2)%list.
      now rewrite T, T2, T1, app_assoc.
    + intros _. rewrite G, G2. reflexivity.
    + intros Hn. apply N. rewrite Q2, Q1. now apply delete_all_NoDup.
    + intros p Hp. destruct (F p Hp) as [H|[H1 H2]].
      * left. rewrite Q2, Q1 in H. apply delete_all_In in H. apply H.
      * right. split; [exact H1|].
        eapply fits_same; [| |exact H2]; congruence.
    + exact K.
  - constructor; cbn [world_of runs_made]; try congruence; try discriminate.
    + now exists eff.
    + intros Hg. rewrite G1, Hg. reflexivity.
    + intros p Hp. left. now rewrite <- Q1.
    + auto.
  - constructor; cbn [world_of runs_made]; try discriminate.
    + exact S1.
    + exact P1.
    + exact V1.
    + now exists eff.
    + intros _. reflexivity.
    + intros Hn. change (NoDup (queue w1)). now rewrite Q1.
    + intros p Hp. left. change (In p (queue w1)) in Hp. now rewrite <- Q1.
    + left. exact M1.
Qed.

(** ** The event loop: one batch run at a time *)

Lemma in_flight_settle s o :
  in_flight (settle s o) = (in_flight s + runs_made o)%nat.
Proof.
  unfold in_flight, runs, settle.
  destruct o as [w|w [file c|paths pc c]|w]; cbn [tasks runs_made];
    rewrite ?filter_app, ?length_app; cbn; lia.
Qed.

Lemma pick_In tid l t others :
  pick tid l = Some (t, others) ->
  In (tid, t) l /\ (forall x, In x others -> In x l).
Proof.
  revert others. induction l as [|[n u] l IH]; intros others; cbn; [discriminate|].
  destruct (Nat.eqb_spec n tid) as [->|N].
  - intros [= -> ->]. auto.
  - destruct (pick tid l) as [[t' r]|]; [|discriminate].
    intros [= -> <-]. destruct (IH r eq_refl) as [H1 H2].
    split; [auto|]. intros x [<-|Hx]; auto.
Qed.

Lemma pick_runs tid l t others :
  pick tid l = Some (t, others) ->
  List.length (filter is_run l) =
  (List.length (filter is_run others) + Nat.b2n (is_run (tid, t)))%nat.
Proof.
  revert others. induction l as [|[n u] l IH]; intros others; cbn [pick];
    [discriminate|].
  destruct (Nat.eqb_spec n tid) as [->|N].
  - intros [= -> ->]. cbn [filter].
    destruct (is_run (tid, t)); cbn; lia.
  - destruct (pick tid l) as [[t' r]|]; [|discriminate].
    intros [= -> <-]. specialize (IH r eq_refl). cbn [filter].
    destruct (is_run (n, u)); cbn [List.length]; lia.
Qed.

Lemma retimed_refl w : retimed w w.
Proof. repeat split. Qed.

Lemma retimed_trans w1 w2 w3 : retimed w1 w2 -> retimed w2 w3 -> retimed w1 w3.
Proof. unfold retimed. intuition congruence. Qed.

Lemma retimed_clearTimeout h w : retimed w (clearTimeout h w).
Proof. destruct h; repeat split. Qed.

Lemma retimed_resetDebounce w : retimed w (resetDebounce w).
Proof.
  unfold resetDebounce, setTimeout.
  eapply retimed_trans; [apply (retimed_clearTimeout (debounceHandle (plugin w)))|].
  repeat split.
Qed.

Lemma retimed_resetInactivityTimer file w :
  retimed w (resetInactivityTimer file w).
Proof.
  unfold resetInactivityTimer, setTimeout.
  eapply retimed_trans; [apply (retimed_clearTimeout (inactivityHandle (plugin w)))|].
  repeat split.
Qed.

Lemma retimed_resetSessionTimer w : retimed w (resetSessionTimer w).
Proof.
  unfold resetSessionTimer, setTimeout.
  eapply retimed_trans; [apply (retimed_clearTimeout (sessionHandle (plugin w)))|].
  repeat split.
Qed.

Lemma retimed_handleEditorActivity file w :
  retimed w (handleEditorActivity file w).
Proof.
  unfold handleEditorActivity.
  destruct (negb _); [apply retimed_refl|].
  eapply retimed_trans; [|apply retimed_resetDebounce].
  eapply retimed_trans; [|apply retimed_resetInactivityTimer].
  destruct (falsy_time _); [|repeat split].
  eapply retimed_trans; [|apply retimed_resetSessionTimer].
  repeat split.
Qed.

Lemma retimed_clearTimers w : retimed w (clearTimers w).
Proof.
  unfold clearTimers.
  eapply retimed_trans; [apply (retimed_clearTimeout (inactivityHandle (plugin w)))|].
  eapply retimed_trans; [apply retimed_clearTimeout|].
  eapply retimed_trans; [apply retimed_clearTimeout|].
  repeat split.
Qed.

(** ** Timers *)

Lemma drop_In h tm t :
  In t (drop h tm) <-> In t tm /\ h <> Some (fst t).
Proof.
  destruct h as [id|]; cbn.
  - rewrite filter_In, negb_true_iff, Pos.eqb_neq. split.
    + intros [H N]. split; [exact H|]. intros [= E]. congruence.
    + intros [H N]. split; [exact H|]. intros E. apply N. now rewrite E.
  - split; [intros H; split; [exact H|discriminate]|tauto].
Qed.

Lemma tracked_same_view w w' :
  timer_view w' = timer_view w -> tracked w -> tracked w'.
Proof.
  unfold timer_view, tracked. intros [= -> -> _ -> -> _] H. exact H.
Qed.

Lemma tracked_cleared w w' :
  timer_view w' = clear_view (timer_view w) -> tracked w ->
  timers (host w') = [].
Proof.
  unfold timer_view, clear_view, tracked. intros [= _ _ _ _ E _] H.
  rewrite E. clear E.
  destruct (drop _ _) as [|t l] eqn:D; [reflexivity|exfalso].
  assert (Ht : In t (drop (debounceHandle (plugin w))
                       (drop (sessionHandle (plugin w))
                          (drop (inactivityHandle (plugin w))
                             (timers (host w))))))
    by (rewrite D; now left).
  rewrite !drop_In in Ht. destruct Ht as [[[Ht N1] N2] N3].
  destruct (H t Ht) as [E|[E|E]]; congruence.
Qed.

Lemma tracked_empty w : timers (host w) = [] -> tracked w.
Proof. unfold tracked. intros -> t []. Qed.

Lemma empty_cleared w w' :
  timer_view w' = timer_view w \/ timer_view w' = clear_view (timer_view w) ->
  timers (host w) = [] -> timers (host w') = [].
Proof.
  unfold timer_view, clear_view. intros [[= _ _ _ _ -> _]|[= _ _ _ _ -> _]] E; auto.
  rewrite E. now destruct (debounceHandle _), (sessionHandle _), (inactivityHandle _).
Qed.

Lemma tracked_settled w w' :
  timer_view w' = timer_view w \/ timer_view w' = clear_view (timer_view w) ->
  tracked w -> tracked w'.
Proof.
  intros [E|E] H; [eapply tracked_same_view; eauto|].
  apply tracked_empty. eapply tracked_cleared; eauto.
Qed.

Lemma tracked_clearTimers w : tracked w -> timers (host (clearTimers w)) = [].
Proof. apply tracked_cleared, timer_view_clearTimers. Qed.

Lemma tracked_resetDebounce w : tracked w -> tracked (resetDebounce w).
Proof.
  unfold resetDebounce, setTimeout, tracked. intros H t.
  destruct w as [p h]; destruct p, h; cbn in *.
  destruct debounceHandle0 as [id|]; cbn;
    rewrite in_app_iff; cbn; intros [Ht|[<-|[]]]; auto;
    try (apply filter_In in Ht; destruct Ht as [Ht N];
         apply negb_true_iff, Pos.eqb_neq in N);
    destruct (H t Ht) as [E|[E|E]]; auto; congruence.
Qed.

Lemma tracked_resetInactivityTimer file w :
  tracked w -> tracked (resetInactivityTimer file w).
Proof.
  unfold resetInactivityTimer, setTimeout, tracked. intros H t.
  destruct w as [p h]; destruct p, h; cbn in *.
  destruct inactivityHandle0 as [id|]; cbn;
    rewrite in_app_iff; cbn; intros [Ht|[<-|[]]]; auto;
    try (apply filter_In in Ht; destruct Ht as [Ht N];
         apply negb_true_iff, Pos.eqb_neq in N);
    destruct (H t Ht) as [E|[E|E]]; auto; congruence.
Qed.

Lemma tracked_resetSessionTimer w : tracked w -> tracked (resetSessionTimer w).
Proof.
  unfold resetSessionTimer, setTimeout, tracked. intros H t.
  destruct w as [p h]; destruct p, h; cbn in *.
  destruct sessionHandle0 as [id|]; cbn;
    rewrite in_app_iff; cbn; intros [Ht|[<-|[]]]; auto;
    try (apply filter_In in Ht; destruct Ht as [Ht N];
         apply negb_true_iff, Pos.eqb_neq in N);
    destruct (H t Ht) as [E|[E|E]]; auto; congruence.
Qed.

Lemma tracked_handleEditorActivity file w :
  tracked w -> tracked (handleEditorActivity file w).
Proof.
  intros H. unfold handleEditorActivity.
  destruct (negb _); [exact H|].
  apply tracked_resetDebounce, tracked_resetInactivityTimer.
  destruct (falsy_time _); [apply tracked_resetSessionTimer|]; exact H.
Qed.

Lemma tracked_fired id w :
  tracked w ->
  tracked (with_timers w
             (filter (fun t => negb (Pos.eqb (fst t) id)) (timers (host w)))
             (nextTimer (host w))).
Proof.
  unfold tracked; cbn. intros H t Ht. apply filter_In in Ht. now apply H.
Qed.

(** ** The invariants hold in every reachable state *)

Lemma world_settle s o : world (settle s o) = world_of o.
Proof. now destruct o. Qed.

Lemma loaded_settle s o : loaded (settle s o) = loaded s.
Proof. now destruct o. Qed.

Lemma tasks_settle s o x :
  In x (tasks (settle s o)) ->
  In x (tasks s) \/ exists w t, o = Wait w t /\ snd x = t.
Proof.
  destruct o as [w|w t|w]; cbn; auto.
  rewrite in_app_iff; cbn. intros [H|[<-|[]]]; eauto.
Qed.

Lemma inv_settle s w0 o :
  in_flight s = Nat.b2n (busy w0) ->
  NoDup (queue w0) ->
  (forall p, In p (queue w0) -> isSafePath p = true) ->
  (forall tid file c, In (tid, TSizeRead file c) (tasks s) ->
     isSafePath file = true) ->
  tracked w0 ->
  (loaded s = false -> timers (host w0) = []) ->
  queue_spec w0 o ->
  inv (settle s o).
Proof.
  intros Hg Hn Hs Ht Hk Hl [S P V T G C N F K M].
  repeat split.
  - unfold busy_inv. rewrite in_flight_settle, world_settle. lia.
  - rewrite world_settle. auto.
  - rewrite world_settle. intros p Hp.
    destruct (F p Hp) as [H|[H _]]; auto.
  - intros tid file c Hin. apply tasks_settle in Hin.
    destruct Hin as [Hin|(w & t & -> & E)]; [eauto|].
    cbn in E; subst t. eapply K. reflexivity.
  - rewrite world_settle. eapply tracked_settled; eauto.
  - rewrite world_settle, loaded_settle. intros L.
    eapply empty_cleared; eauto.
Qed.

Lemma inv_plain s w' l' :
  inv s ->
  busy w' = busy (world s) -> queue w' = queue (world s) ->
  tracked w' ->
  (l' = false -> timers (host w') = []) ->
  inv (mkSys w' (tasks s) (nextTask s) l').
Proof.
  intros (Hg & (Hn & Hs & Ht) & Hk & Hl) G Q Hk' Hl'.
  unfold inv, busy_inv, queue_inv, timer_inv, in_flight, runs in *; cbn.
  rewrite G, Q. auto 10.
Qed.

Lemma retimed_on_modify p w : busy (on_modify p w) = busy w /\
  queue (on_modify p w) = queue w /\
  timer_view (on_modify p w) = timer_view w.
Proof.
  unfold on_modify. destruct (getAbstractFileByPath p w); auto.
  destruct (negb _); auto. destruct (isPublished p w); auto.
Qed.

Lemma inv_resume s tid t others i :
  inv s -> pick tid (tasks s) = Some (t, others) ->
  inv (match step_task t i (world s) with
       | Done w' | Raise w' => mkSys w' others (nextTask s) (loaded s)
       | Wait w' t' =>
           mkSys w' (others ++ [(tid, t')])%list (nextTask s) (loaded s)
       end).
Proof.
  intros (Hg & (Hn & Hs & Ht) & Hk & Hl) Hp.
  pose proof (pick_runs _ _ _ _ Hp) as Hr.
  destruct (pick_In _ _ _ _ Hp) as [Hin Hsub].
  unfold busy_inv, in_flight, runs in Hg.
  set (s0 := mkSys (world s) others tid (loaded s)).
  assert (E : forall o, settle s0 o =
    match o with
    | Done w' | Raise w' => mkSys w' others tid (loaded s)
    | Wait w' t' => mkSys w' (others ++ [(tid, t')])%list (S tid) (loaded s)
    end) by (intros []; reflexivity).
  assert (Hfin : forall o, inv (settle s0 o) ->
    inv (match o with
         | Done w' | Raise w' => mkSys w' others (nextTask s) (loaded s)
         | Wait w' t' =>
             mkSys w' (others ++ [(tid, t')])%list (nextTask s) (loaded s)
         end)).
  { intros o. rewrite E. destruct o; exact (fun H => H). }
  apply Hfin.
  assert (Ht0 : forall n file c, In (n, TSizeRead file c) others ->
                  isSafePath file = true) by (intros; eapply Ht; eauto).
  destruct t as [file c|paths pc c].
  - apply inv_settle with (w0 := world s); auto.
    + unfold in_flight, runs; cbn [tasks s0]. rewrite <- Hg, Hr. cbn. lia.
    + apply step_task_size_spec. eapply Ht; eauto.
  - assert (Hopen : busy (world s) = true).
    { rewrite Hr in Hg. cbn in Hg. destruct (busy (world s)); [reflexivity|].
      cbn in Hg; lia. }
    assert (H0 : List.length (filter is_run others) = 0%nat).
    { rewrite Hr, Hopen in Hg. cbn in Hg. lia. }
    destruct (step_task_run_spec paths pc c i (world s))
      as [S P V T G N F K M].
    repeat split.
    + unfold busy_inv. rewrite in_flight_settle, world_settle.
      unfold in_flight, runs; cbn [tasks s0]. rewrite H0, G by exact Hopen.
      reflexivity.
    + rewrite world_settle. auto.
    + rewrite world_settle. intros p Hp'.
      destruct (F p Hp') as [H|[H _]]; auto.
    + intros n file c' Hin'. apply tasks_settle in Hin'.
      destruct Hin' as [Hin'|(w & t & E' & E2)]; [eauto|].
      cbn in E2; subst t. eapply K. exact E'.
    + rewrite world_settle. eapply tracked_settled; eauto.
    + rewrite world_settle, loaded_settle. intros L.
      eapply empty_cleared; eauto.
Qed.

Lemma step_inv s e : inv s -> inv (step s e).
Proof.
  intros H. pose proof H as (Hg & (Hn & Hs & Ht) & Hk & Hl).
  assert (Hcall : forall o, queue_spec (world s) o -> inv (settle s o))
    by (intros; eapply inv_settle; eauto).
  destruct e as [p f| | | |p|id|v| |a|tm iso|tid i]; cbn [step].
  - destruct (lookup p (vault (host (world s)))); [|exact H].
    set (w1 := with_vault (world s) _).
    destruct (retimed_on_modify p w1) as (G & Q & M).
    unfold with_world.
    destruct (loaded s) eqn:L; apply inv_plain; auto.
    + eapply tracked_same_view; [exact M|exact Hk].
    + discriminate.
  - destruct (loaded s) eqn:L; [|exact H].
    destruct (activeFile (host (world s))) as [f|]; [|exact H].
    destruct (retimed_handleEditorActivity f (world s)) as (G & Q & _).
    unfold with_world. apply inv_plain; auto.
    + now apply tracked_handleEditorActivity.
    + congruence.
  - destruct (loaded s); [|exact H].
    destruct (activeFile (host (world s))) as [f|]; [|exact H].
    apply Hcall, queueFileForPublish_spec.
  - destruct (loaded s); [|exact H].
    apply Hcall, queue_spec_and_then;
      [apply publishAllPending_spec|intros; apply finish_all_spec].
  - destruct (loaded s); [|exact H].
    destruct (getAbstractFileByPath p (world s)); [|exact H].
    apply Hcall, queueFileForPublish_spec.
  - destruct (find_timer id _) as [cb|]; [|exact H].
    eapply inv_settle; [..|apply fire_spec]; auto.
    + now apply tracked_fired.
    + intros L. cbn. now rewrite (Hl L).
  - destruct (loaded s) eqn:L; [|exact H].
    unfold with_world. apply inv_plain; auto. congruence.
  - destruct (loaded s) eqn:L; [|exact H].
    destruct (retimed_clearTimers (world s)) as (G & Q & _).
    apply inv_plain; auto.
    + apply tracked_empty. now apply tracked_clearTimers.
    + intros _. now apply tracked_clearTimers.
  - unfold with_world. apply inv_plain; auto.
  - unfold with_world. apply inv_plain; auto.
  - destruct (pick tid (tasks s)) as [[t others]|] eqn:P; [|exact H].
    now apply inv_resume.
Qed.

Lemma initial_inv st scan v a first t iso :
  inv (initial st scan v a first t iso).
Proof.
  repeat split; cbn; try constructor; try tauto.
  match goal with H : In _ _ |- _ => destruct H end.
Qed.

Lemma reachable_inv s : reachable s -> inv s.
Proof.
  induction 1; [apply initial_inv|now apply step_inv].
Qed.

Lemma run_inv es : forall s, inv s -> inv (run s es).
Proof.
  induction es as [|e es IH]; intros s H; cbn; [exact H|].
  apply IH. now apply step_inv.
Qed.

Lemma run_reachable es : forall s, reachable s -> reachable (run s es).
Proof.
  induction es as [|e es IH]; intros s H; cbn; [exact H|].
  apply IH. now constructor.
Qed.

Lemma settle_dropped s w0 o :
  busy w0 = true -> queue_spec w0 o ->
  runs (settle s o) = runs s /\
  pending (world (settle s o)) = pending w0 /\
  https (world (settle s o)) = https w0.
Proof.
  intros Hg [S P V T G C N F K M]. rewrite world_settle.
  repeat split; auto.
  rewrite Hg in G. unfold runs.
  destruct o as [w|w [file c|paths pc c]|w]; cbn [settle tasks]; auto.
  - rewrite filter_app. cbn. now rewrite app_nil_r.
  - cbn in G. destruct (busy w); cbn in G; lia.
Qed.

Lemma step_dropped s e :
  is_request e = true -> busy (world s) = true ->
  runs (step s e) = runs s /\
  pending (world (step s e)) = pending (world s) /\
  https (world (step s e)) = https (world s).
Proof.
  intros He Hg.
  assert (Hcall : forall o, queue_spec (world s) o ->
            runs (settle s o) = runs s /\
            pending (world (settle s o)) = pending (world s) /\
            https (world (settle s o)) = https (world s))
    by (intros; now apply settle_dropped).
  destruct e; try discriminate; cbn [step].
  - destruct (loaded s); [|auto].
    destruct (activeFile _); [|auto].
    apply Hcall, queueFileForPublish_spec.
  - destruct (loaded s); [|auto].
    apply Hcall, queue_spec_and_then;
      [apply publishAllPending_spec|intros; apply finish_all_spec].
  - destruct (loaded s); [|auto].
    destruct (getAbstractFileByPath p (world s)); auto.
    apply Hcall, queueFileForPublish_spec.
  - destruct (find_timer id _) as [cb|]; [|auto].
    set (w0 := with_timers (world s) _ _).
    change (pending (world s)) with (pending w0).
    change (https (world s)) with (https w0).
    apply settle_dropped; [exact Hg|apply fire_spec].
Qed.

(** C5.  In every reachable state at most one batch run is in flight, and
    [publishingInProgress] is set exactly while one is.  A request for a
    publication that arrives meanwhile (a command, a button of the view, a
    timer) starts no run: the runs in flight stay as they are, no request
    is sent, and the dirty flags are left for the next trigger. *)
Theorem one_batch_run_at_a_time (s : Sys) :
  reachable s ->
  (in_flight s <= 1)%nat /\
  (busy (world s) = true <-> in_flight s = 1%nat) /\
  forall e, is_request e = true -> in_flight s = 1%nat ->
    runs (step s e) = runs s /\
    in_flight (step s e) = 1%nat /\
    pending (world (step s e)) = pending (world s) /\
    https (world (step s e)) = https (world s).
Proof.
  intros R. destruct (reachable_inv s R) as (Hg & _).
  unfold busy_inv in Hg.
  assert (Hiff : busy (world s) = true <-> in_flight s = 1%nat).
  { rewrite Hg. destruct (busy (world s)); cbn; split; auto; discriminate. }
  split; [|split; [exact Hiff|]].
  - rewrite Hg. destruct (busy (world s)); cbn; lia.
  - intros e He Hone.
    destruct (step_dropped s e He (proj2 Hiff Hone)) as (Hr & Hp & Hh).
    repeat split; auto.
    unfold in_flight in *. now rewrite Hr.
Qed.

Lemma one_batch_run_at_a_time_witness :
  let s := run (start "a.md") [PublishCurrent] in
  reachable s /\
  in_flight s = 1%nat /\
  runs (step s PublishAll) = runs s /\
  https (world (step s PublishAll)) = https (world s).
Proof.
  cbv zeta.
  assert (R : reachable (run (start "a.md") [PublishCurrent]))
    by (apply run_reachable; constructor).
  pose proof (one_batch_run_at_a_time _ R) as (_ & _ & H).
  specialize (H PublishAll eq_refl eq_refl).
  split; [exact R|]. split; [reflexivity|]. split; apply H.
Defined.

(** ** The batch run and the dirty flags *)

Lemma resume_unfold s tid t others i :
  pick tid (tasks s) = Some (t, others) ->
  world (step s (Resume tid i)) = world_of (step_task t i (world s)).
Proof.
  intros P. cbn [step]. rewrite P. now destruct (step_task t i (world s)).
Qed.

Lemma resume_run_pending s tid paths pc c others i :
  pick tid (tasks s) = Some (TRun paths pc c, others) ->
  pending (world (step s (Resume tid i))) =
  pending (cleaned paths pc i (world s)).
Proof.
  intros P. rewrite (resume_unfold _ _ _ _ i P).
  apply step_task_run_spec.
Qed.

Lemma pending_cleaned_other paths pc i w p :
  ~ In p paths ->
  map_get p (pending (cleaned paths pc i w)) = map_get p (pending w).
Proof.
  intros N. unfold cleaned. destruct (clears pc i); [|reflexivity].
  now apply mark_clean_other.
Qed.

(** C6.  Resuming a batch run never touches the dirty flag of a path outside
    its snapshot; and the resumption that makes it a success, a truthy
    answer to the ref update, leaves every path of the snapshot clean. *)
Theorem successful_batch_clears_exactly_its_snapshot
    s tid paths pc c others i :
  pick tid (tasks s) = Some (TRun paths pc c, others) ->
  let s' := step s (Resume tid i) in
  (forall p, ~ In p paths ->
     map_get p (pending (world s')) = map_get p (pending (world s))) /\
  (forall req sha status body,
     pc = AwaitHttp req (KPatch sha) -> i = InHttp (Resolved status body) ->
     truthy body = true ->
     forall p, In p paths -> map_get p (pending (world s')) = Some false).
Proof.
  intros P s'. subst s'. rewrite (resume_run_pending _ _ _ _ _ _ i P).
  split.
  - intros p N. now apply pending_cleaned_other.
  - intros req sha status body -> -> T p Hp.
    unfold cleaned. cbn [clears answer]. rewrite T.
    now apply mark_clean_in.
Qed.

Lemma successful_batch_clears_exactly_its_snapshot_witness :
  let s := run (start "a.md")
             (PublishCurrent ::
              [Resume 0 (ok_ref "h"); Resume 0 (InRead true);
               Resume 0 (ok_sha "b"); Resume 0 (ok_sha "t");
               Resume 0 (ok_sha "c")]) in
  let s' := step s (Resume 0 (ok_sha "c")) in
  map_get "b.md" (pending (world s')) = map_get "b.md" (pending (world s)) /\
  map_get "a.md" (pending (world s')) = Some false.
Proof.
  cbv zeta.
  match goal with
  | |- map_get _ (pending (world (step ?s ?e))) = _ /\ _ =>
      assert (P : exists req sha c others,
                pick 0 (tasks s) =
                Some (TRun ["a.md"] (AwaitHttp req (KPatch sha)) c, others))
        by (vm_compute; eauto)
  end.
  destruct P as (req & sha & c & others & P).
  destruct (successful_batch_clears_exactly_its_snapshot _ _ _ _ _ _
              (ok_sha "c") P) as [H1 H2].
  split.
  - apply H1. cbn. intros [E|[]]. discriminate.
  - eapply H2; try reflexivity. now left.
Defined.

(** C3.  When the request that moves the branch ref is rejected, the batch
    run marks no path clean: the pending map is what it was, so every
    batched path that was dirty still is; and the user is told, with the
    conflict notice when the status is 409.  No earlier resumption of the
    run touches the pending map either. *)
Theorem ref_update_failure_keeps_every_path_dirty
    s tid paths req sha c others status body :
  pick tid (tasks s) =
    Some (TRun paths (AwaitHttp req (KPatch sha)) c, others) ->
  let s' := step s (Resume tid (InHttp (Rejected status body))) in
  pending (world s') = pending (world s) /\
  (forall p, In p paths -> dirty p s -> dirty p s') /\
  (exists more,
     trace (world s') =
     (trace (world s) ++
      [Log "github_err"
         (JObj [("method", JStr (method_name (method req)));
                ("url", JStr (url req)); ("status", status_json status);
                ("body", body)])
         (if is_409 status then WARN else ERROR);
       Notice (if is_409 status then "GitHub 409 Konflikt"
               else failure_text status);
       Log "ref_fail" (JObj []) INFO] ++ more)%list) /\
  (forall s0 pc0 c0 others0 i0,
     pick tid (tasks s0) = Some (TRun paths pc0 c0, others0) ->
     clears pc0 i0 = false ->
     pending (world (step s0 (Resume tid i0))) = pending (world s0)).
Proof.
  intros P s'. subst s'.
  assert (E : pending (world (step s (Resume tid (InHttp (Rejected status body)))))
              = pending (world s))
    by (now rewrite (resume_run_pending _ _ _ _ _ _ _ P)).
  repeat split.
  - exact E.
  - unfold dirty. intros p _ D. now rewrite E.
  - rewrite (resume_unfold _ _ _ _ _ P).
    cbn [step_task publishBatch_resume githubReq_settle on_response truthy
         close_batch as_run and_then].
    match goal with
    | |- context [return_to c ?w2] =>
        destruct (return_to_spec c w2) as [_ _ _ [more T] _ _ _ _ _ _];
        exists more; rewrite T
    end.
    unfold trace, log, notice; cbn. now rewrite <- !app_assoc.
  - intros s0 pc0 c0 others0 i0 P0 C0.
    rewrite (resume_run_pending _ _ _ _ _ _ _ P0).
    unfold cleaned. now rewrite C0.
Qed.

Lemma ref_update_failure_keeps_every_path_dirty_witness :
  let s := run (start "a.md")
             (PublishCurrent ::
              [Resume 0 (ok_ref "h"); Resume 0 (InRead true);
               Resume 0 (ok_sha "b"); Resume 0 (ok_sha "t");
               Resume 0 (ok_sha "c")]) in
  let s' := step s (Resume 0 (failed 409)) in
  dirty "a.md" s' /\ In (Notice "GitHub 409 Konflikt") (trace (world s')).
Proof.
  cbv zeta.
  match goal with
  | |- dirty _ (step ?s ?e) /\ _ =>
      assert (P : exists req sha c others,
                pick 0 (tasks s) =
                Some (TRun ["a.md"] (AwaitHttp req (KPatch sha)) c, others))
        by (vm_compute; eauto)
  end.
  destruct P as (req & sha & c & others & P).
  destruct (ref_update_failure_keeps_every_path_dirty _ _ _ _ _ _ _
              (Some 409) JNull P) as (_ & H & (more & T) & _).
  split.
  - apply H; [now left|reflexivity].
  - unfold failed. rewrite T.
    apply in_or_app. right. apply in_or_app. left.
    right. left. reflexivity.
Defined.

(** ** The drain and the queue *)





(** ** Two defects, on concrete runs *)

(** C4 fails on the code.  [publishAllPending] awaits the drain of each path
    it queues, so with two dirty notes the first drain has [a.md] alone in
    its snapshot, the second [b.md] alone, and the branch gets two commits
    and two ref updates. *)
Theorem publish_all_commits_once_per_path :
  let s1 := step (start "a.md") PublishAll in
  let s2 := run s1 (good_run 0 "1") in
  let s3 := run s2 (good_run 0 "2") in
  snapshots s1 = [["a.md"]] /\ queue (world s1) = ["a.md"] /\
  snapshots s2 = [["b.md"]] /\
  tasks s3 = [] /\
  pending (world s3) = [("a.md", false); ("b.md", false)] /\
  List.length (filter is_commit (trace (world s3))) = 2%nat /\
  List.length (filter is_ref_update (trace (world s3))) = 2%nat.
Proof. vm_compute. repeat split; reflexivity. Qed.

(** C1 fails on the code.  The upload of [b.md] fails, [blob_fail] is
    logged and the tree is built from [a.md] alone; the ref update succeeds
    and [publishBatch] marks every path of its snapshot clean, [b.md]
    included, so nothing retries it. *)
Theorem failed_upload_is_marked_clean :
  let s := run (start "a.md") upload_of_b_fails in
  In (Log "blob_fail" (JObj [("path", JStr "b.md")]) INFO) (trace (world s)) /\
  In (Http (mkRequest post "https://api.github.com/repos/user/repo/git/trees"
              (JObj [("base_tree", JStr "head");
                     ("tree",
                      JArr [JObj [("path", JStr "a.md");
                                  ("mode", JStr "100644");
                                  ("type", JStr "blob");
                                  ("sha", JStr "blobA")]])])))
     (trace (world s)) /\
  In (Notice "Published 2 Dateien") (trace (world s)) /\
  map_get "b.md" (pending (world s)) = Some false /\
  tasks s = [] /\ queue (world s) = [].
Proof. vm_compute. intuition. Qed.

(** A read that is rejected is not skipped either: the exception ends the
    run, the in-flight flag falls, and the snapshot stays queued and dirty. *)
Example rejected_read_ends_the_run :
  let s := run (start "a.md")
             [PublishCurrent; Resume 0 (ok_ref "head"); Resume 0 (InRead false)] in
  tasks s = [] /\ busy (world s) = false /\ queue (world s) = ["a.md"] /\
  dirty "a.md" s.
Proof. vm_compute. intuition. Qed.

(** ** What gets into the queue *)

Lemma settle_fits s w0 o p :
  queue w0 = queue (world s) ->
  vault (host w0) = vault (host (world s)) ->
  settings (plugin w0) = settings (plugin (world s)) ->
  queue_spec w0 o ->
  In p (queue (world (settle s o))) ->
  In p (queue (world s)) \/ fits p (world s).
Proof.
  intros Q V S [_ _ _ _ _ _ _ F _ _]. rewrite world_settle. intros Hp.
  destruct (F p Hp) as [H|[_ H]].
  - left. now rewrite <- Q.
  - right. eapply fits_same; [| |exact H]; congruence.
Qed.

Lemma step_fits s e p :
  inv s ->
  In p (queue (world (step s e))) ->
  In p (queue (world s)) \/ fits p (world s).
Proof.
  intros (_ & (_ & _ & Ht) & _).
  assert (Hcall : forall o, queue_spec (world s) o ->
            In p (queue (world (settle s o))) ->
            In p (queue (world s)) \/ fits p (world s))
    by (intros o; now apply settle_fits).
  destruct e as [q f| | | |q|id|v| |a|tm iso|tid i]; cbn [step]; auto.
  - destruct (lookup q _); auto.
    destruct (loaded s); cbn [world with_world]; auto.
    intros H. left. revert H.
    match goal with
    | |- In p (queue (on_modify q ?w1)) -> _ =>
        now rewrite (proj1 (proj2 (retimed_on_modify q w1)))
    end.
  - destruct (loaded s); auto. destruct (activeFile _) as [f|]; auto.
    cbn [world with_world].
    destruct (retimed_handleEditorActivity f (world s)) as (_ & -> & _). auto.
  - destruct (loaded s); auto. destruct (activeFile _); auto.
    apply Hcall, queueFileForPublish_spec.
  - destruct (loaded s); auto.
    apply Hcall, queue_spec_and_then;
      [apply publishAllPending_spec|intros; apply finish_all_spec].
  - destruct (loaded s); auto.
    destruct (getAbstractFileByPath q (world s)); auto.
    apply Hcall, queueFileForPublish_spec.
  - destruct (find_timer id _) as [cb|]; auto.
    eapply settle_fits; [..|apply fire_spec]; reflexivity.
  - destruct (loaded s); auto.
  - destruct (loaded s); auto. cbn [world].
    destruct (retimed_clearTimers (world s)) as (_ & -> & _). auto.
  - destruct (pick tid (tasks s)) as [[t others]|] eqn:P; auto.
    destruct (pick_In _ _ _ _ P) as [Hin _].
    assert (E : forall o : Outcome Task,
              world (match o with
                     | Done w' | Raise w' =>
                         mkSys w' others (nextTask s) (loaded s)
                     | Wait w' t' =>
                         mkSys w' (others ++ [(tid, t')])%list (nextTask s)
                           (loaded s)
                     end) = world_of o) by (intros []; reflexivity).
    rewrite E. intros Hp.
    destruct t as [file c|paths pc c].
    + destruct (step_task_size_spec file c i (world s) (Ht _ _ _ Hin))
        as [_ _ _ _ _ _ _ F _ _].
      destruct (F p Hp) as [H|[_ H]]; auto.
    + destruct (step_task_run_spec paths pc c i (world s))
        as [_ _ _ _ _ _ F _ _].
      destruct (F p Hp) as [H|[_ H]]; auto.
Qed.

(** C7, as the code has it.  In every reachable state the queue has no
    duplicates and every path in it is safe: it does not begin with a dot
    and has no two dots in a row.  A path enters the queue only when it
    passed the size test then, on the adapter's size or on the length of its
    content.  Queueing an unsafe path does nothing at all, and queueing an
    oversized one logs [skip_large] and nothing else: the plugin's state is
    as before and no request is sent.  The [published] flag is not looked
    at. *)
Theorem queue_holds_distinct_safe_paths_that_fit (s : Sys) :
  reachable s ->
  NoDup (queue (world s)) /\
  (forall p, In p (queue (world s)) ->
     startsWith p "." = false /\ includes p ".." = false) /\
  (forall e p, In p (queue (world (step s e))) ->
     In p (queue (world s)) \/ fits p (world s)) /\
  (forall file c, isSafePath file = false ->
     queueFileForPublish file c (world s) = Done (world s)) /\
  (forall file c z,
     isSafePath file = true -> stat_size file (world s) = Some z ->
     size_limit (world s) < z ->
     queueFileForPublish file c (world s) = Done (skip_large file (world s))) /\
  (forall file c f,
     getAbstractFileByPath file (world s) = Some f ->
     size_limit (world s) < Z.of_nat (String.length (content f)) ->
     step_task (TSizeRead file c) (InRead true) (world s) =
     return_to c (skip_large file (world s))).
Proof.
  intros R. pose proof (reachable_inv s R) as I.
  destruct I as (Hg & (Hn & Hs & Ht) & Hk).
  split; [exact Hn|]. split; [|split; [|split; [|split]]].
  - intros p Hp. specialize (Hs p Hp). unfold isSafePath in Hs.
    apply andb_true_iff in Hs. destruct Hs as [A B].
    now apply negb_true_iff in A, B.
  - intros e p. apply step_fits. now apply reachable_inv.
  - intros file c U. unfold queueFileForPublish. now rewrite U.
  - intros file c z S Z L. unfold queueFileForPublish. rewrite S, Z. cbn.
    destruct (Z.gtb_spec z (size_limit (world s))); [reflexivity|lia].
  - intros file c f F L. cbn [step_task]. rewrite F.
    destruct (Z.gtb_spec (Z.of_nat (String.length (content f)))
                (size_limit (world s))); [reflexivity|lia].
Qed.

Lemma queue_holds_distinct_safe_paths_that_fit_witness :
  let s := run (start "a.md") [PublishCurrent; PublishAll] in
  reachable s /\ queue (world s) = ["a.md"; "b.md"] /\
  NoDup (queue (world s)) /\
  queueFileForPublish ".obsidian/app.json" FromCommand (world s) =
  Done (world s).
Proof.
  cbv zeta.
  assert (R : reachable (run (start "a.md") [PublishCurrent; PublishAll]))
    by (apply run_reachable; constructor).
  destruct (queue_holds_distinct_safe_paths_that_fit _ R)
    as (N & _ & _ & U & _).
  split; [exact R|]. split; [reflexivity|]. split; [exact N|].
  apply U. reflexivity.
Defined.

(** C7 as stated fails: the command that publishes the current file queues
    a file whose [published] flag is absent, and a request goes out. *)
Lemma unpublished_file_is_queued :
  let s := run (start "draft.md") [PublishCurrent] in
  reachable s /\
  queue (world s) = ["draft.md"] /\
  isPublished "draft.md" (world s) = false /\
  https (world s) =
    [Http (mkRequest get
             "https://api.github.com/repos/user/repo/git/ref/heads/main"
             JNull)].
Proof.
  cbv zeta. split; [apply run_reachable; constructor|].
  vm_compute. repeat split; reflexivity.
Qed.

(** ** Cancelling the timers *)

Lemma clearTimers_idem w : clearTimers (clearTimers w) = clearTimers w.
Proof.
  destruct w as [p h]; destruct p, h. unfold clearTimers, clearTimeout; cbn.
  destruct inactivityHandle0, sessionHandle0, debounceHandle0; reflexivity.
Qed.

Lemma loaded_step s e : loaded s = false -> loaded (step s e) = false.
Proof.
  intros L.
  destruct e; cbn [step]; rewrite ?L; auto;
    repeat match goal with
    | |- loaded (match ?x with _ => _ end) = false => destruct x
    | |- loaded (settle _ _) = false => rewrite loaded_settle
    end; auto.
Qed.

Lemma loaded_run es : forall s, loaded s = false -> loaded (run s es) = false.
Proof.
  induction es as [|e es IH]; intros s L; cbn; [exact L|].
  apply IH. now apply loaded_step.
Qed.

Lemma fire_muted cb w :
  autoPublishEnabled (settings (plugin w)) = false ->
  fire cb w = Done w \/ fire cb w = Done (clearTimers w).
Proof.
  intros A. destruct cb; cbn; auto.
  - unfold publishFileIfPending. rewrite A. auto.
  - unfold publishAllPending. rewrite A. auto.
Qed.

(** C8, as the code has it.  Unloading cancels the inactivity timer, the
    session timer and the debounce gate and clears their handles, whatever
    the state, and no timeout of the plugin is pending from then on;
    cancelling twice is cancelling once.  Switching auto-publish off cancels
    nothing: the timeouts stay pending and fire, but while auto-publish is
    off a firing callback queues nothing, sends nothing and starts no call,
    and an edit arms no timer. *)
Theorem unload_cancels_timers_and_disabling_mutes_them (s : Sys) :
  reachable s ->
  (loaded s = true ->
   let u := step s Unload in
   inactivityHandle (plugin (world u)) = None /\
   sessionHandle (plugin (world u)) = None /\
   debounceHandle (plugin (world u)) = None /\
   forall es, timers (host (world (run u es))) = []) /\
  clearTimers (clearTimers (world s)) = clearTimers (world s) /\
  timers (host (world (step s (SetAutoPublish false)))) =
    timers (host (world s)) /\
  (autoPublishEnabled (settings (plugin (world s))) = false ->
   step s EditorChange = s /\
   forall id,
     let s' := step s (TimerFire id) in
     tasks s' = tasks s /\ queue (world s') = queue (world s) /\
     pending (world s') = pending (world s) /\
     trace (world s') = trace (world s)).
Proof.
  intros R. pose proof (reachable_inv s R) as I.
  split; [|split; [|split]].
  - intros L u. subst u. cbn [step]. rewrite L. cbn [world].
    repeat split.
    intros es.
    assert (I' : inv (run (mkSys (clearTimers (world s)) (tasks s)
                             (nextTask s) false) es)).
    { apply run_inv. generalize (step_inv s Unload I). cbn [step].
      now rewrite L. }
    destruct I' as (_ & _ & _ & E). apply E. now apply loaded_run.
  - apply clearTimers_idem.
  - cbn [step]. now destruct (loaded s).
  - intros A. split.
    + cbn [step]. destruct (loaded s); [|reflexivity].
      destruct (activeFile _); [|reflexivity].
      unfold handleEditorActivity. rewrite A. now destruct s.
    + intros id s'. subst s'. cbn [step].
      destruct (find_timer id _) as [cb|]; [|auto].
      match goal with
      | |- context [fire cb ?w0] =>
          destruct (fire_muted cb w0 A) as [-> | ->]; cbn; auto
      end.
      destruct (retimed_clearTimers
                  (with_timers (world s)
                     (filter (fun t => negb (Pos.eqb (fst t) id))
                        (timers (host (world s))))
                     (nextTimer (host (world s)))))
        as (_ & Q & P & _ & T & _).
      repeat split; [exact Q|exact P|exact T].
Qed.

Lemma unload_cancels_timers_and_disabling_mutes_them_witness :
  let s := run (start "a.md") [EditorChange] in
  reachable s /\
  map fst (timers (host (world s))) = [1%positive; 2%positive; 3%positive] /\
  timers (host (world (step s Unload))) = [] /\
  timers (host (world (run (step s Unload) [TimerFire 2; EditorChange]))) = [].
Proof.
  cbv zeta.
  assert (R : reachable (run (start "a.md") [EditorChange]))
    by (apply run_reachable; constructor).
  destruct (unload_cancels_timers_and_disabling_mutes_them _ R) as (U & _).
  destruct (U eq_refl) as (_ & _ & _ & E).
  split; [exact R|]. split; [reflexivity|]. split.
  - exact (E []).
  - apply E.
Defined.

(** C8 as stated fails: after an edit has armed the three timeouts,
    switching auto-publish off leaves all three pending, and the inactivity
    callback is still called when its time comes. *)
Lemma disabling_leaves_timers_pending :
  let s := run (start "a.md") [EditorChange; SetAutoPublish false] in
  reachable s /\
  autoPublishEnabled (settings (plugin (world s))) = false /\
  map fst (timers (host (world s))) = [1%positive; 2%positive; 3%positive] /\
  inactivityHandle (plugin (world s)) = Some 2%positive /\
  find_timer 2 (timers (host (world s))) = Some (CbInactivity "a.md") /\
  find_timer 1 (timers (host (world s))) = Some CbSession.
Proof.
  cbv zeta. split; [apply run_reachable; constructor|].
  vm_compute. repeat split; reflexivity.
Qed.

(** ** Dirty marks that arrive during a batch run *)

Lemma map_get_set_true p q m :
  map_get p m = Some true -> map_get p (map_set q true m) = Some true.
Proof.
  intros H. destruct (string_dec p q) as [->|N].
  - apply map_get_set_same.
  - now rewrite map_get_set_other.
Qed.

Lemma on_modify_keeps_dirty p q w :
  map_get p (pending w) = Some true ->
  map_get p (pending (on_modify q w)) = Some true.
Proof.
  intros H. unfold on_modify.
  destruct (getAbstractFileByPath q w); auto.
  destruct (negb _); auto. destruct (isPublished q w); auto.
  now apply map_get_set_true.
Qed.

(** The one event that takes a dirty flag away is the accepted ref update
    of a run over the path. *)
Lemma step_keeps_dirty s e p :
  inv s -> dirty p s -> accepts p s e = false -> dirty p (step s e).
Proof.
  intros (_ & (_ & _ & Ht) & _) D.
  unfold dirty in *.
  assert (Hcall : forall w0 o, pending w0 = pending (world s) ->
            queue_spec w0 o ->
            map_get p (pending (world (settle s o))) = Some true).
  { intros w0 o E [_ P _ _ _ _ _ _ _ _]. rewrite world_settle. congruence. }
  destruct e as [q f| | | |q|id|v| |a|tm iso|tid i]; cbn [step accepts]; auto.
  - destruct (lookup q _); auto.
    destruct (loaded s); cbn [world with_world]; auto.
    intros _. now apply on_modify_keeps_dirty.
  - destruct (loaded s); auto. destruct (activeFile _) as [f|]; auto.
    cbn [world with_world].
    destruct (retimed_handleEditorActivity f (world s)) as (_ & _ & -> & _).
    auto.
  - destruct (loaded s); auto. destruct (activeFile _); auto.
    intros _. eapply Hcall; [reflexivity|apply queueFileForPublish_spec].
  - destruct (loaded s); auto.
    intros _. eapply Hcall; [reflexivity|].
    apply queue_spec_and_then;
      [apply publishAllPending_spec|intros; apply finish_all_spec].
  - destruct (loaded s); auto.
    destruct (getAbstractFileByPath q (world s)); auto.
    intros _. eapply Hcall; [reflexivity|apply queueFileForPublish_spec].
  - destruct (find_timer id _) as [cb|]; auto.
    intros _. eapply Hcall; [|apply fire_spec]. reflexivity.
  - destruct (loaded s); auto.
  - destruct (loaded s); auto. cbn [world].
    destruct (retimed_clearTimers (world s)) as (_ & _ & -> & _). auto.
  - destruct (pick tid (tasks s)) as [[t others]|] eqn:P; auto.
    destruct (pick_In _ _ _ _ P) as [Hin _].
    destruct t as [file c|paths pc c].
    + intros _.
      destruct (step_task_size_spec file c i (world s) (Ht _ _ _ Hin))
        as [_ E _ _ _ _ _ _ _ _].
      destruct (step_task (TSizeRead file c) i (world s));
        cbn [world world_of] in *; congruence.
    + intros NA.
      destruct (step_task_run_spec paths pc c i (world s))
        as [_ E _ _ _ _ _ _ _].
      assert (Hp : map_get p (pending (cleaned paths pc i (world s)))
                   = Some true).
      { unfold cleaned. destruct (clears pc i) eqn:C; [|exact D].
        change (map_get p (mark_clean paths (pending (world s))) = Some true).
        rewrite mark_clean_other; [exact D|].
        rewrite <- has_In. cbn in NA. congruence. }
      destruct (step_task (TRun paths pc c) i (world s));
        cbn [world world_of] in *; congruence.
Qed.

Lemma run_keeps_dirty p es :
  forall s, inv s -> dirty p s -> unaccepted p s es = true ->
            dirty p (run s es).
Proof.
  induction es as [|e es IH]; intros s I D N; cbn; [exact D|].
  cbn in N. apply andb_true_iff in N. destruct N as [N1 N2].
  apply negb_true_iff in N1. apply IH; auto.
  - now apply step_inv.
  - now apply step_keeps_dirty.
Qed.

Lemma accepts_batched p s e : accepts p s e = true -> batched p s = true.
Proof.
  destruct e as [| | | | | | | | | |tid i]; try discriminate. cbn.
  destruct (pick tid (tasks s)) as [[[file c|paths pc c] others]|] eqn:P;
    try discriminate.
  intros H. apply andb_true_iff in H. destruct H as [_ H].
  destruct (pick_In _ _ _ _ P) as [Hin _].
  unfold batched. apply existsb_exists.
  exists (tid, TRun paths pc c). split; [exact Hin|exact H].
Qed.

Lemma unbatched_unaccepted p es :
  forall s, unbatched p s es = true -> unaccepted p s es = true.
Proof.
  induction es as [|e es IH]; intros s; cbn; [reflexivity|].
  intros H. apply andb_true_iff in H. destruct H as [H1 H2].
  rewrite IH by exact H2. rewrite andb_true_r.
  destruct (accepts p s e) eqn:A; [|reflexivity].
  apply accepts_batched in A. rewrite A in H1. discriminate.
Qed.

(** C2, as the code has it.  A change of a published note marks it dirty,
    and the mark outlives whatever follows unless the ref update of a batch
    run with the note in its snapshot is accepted after it: so it outlives
    every run that fails, and every run, failed or not, whose snapshot does
    not hold the note. *)
Theorem dirty_mark_survives_other_and_failed_runs (s : Sys) p f :
  reachable s -> loaded s = true ->
  lookup p (vault (host (world s))) <> None ->
  extension f = "md" -> fmPublished f = JBool true ->
  let s1 := step s (Modify p f) in
  dirty p s1 /\
  (forall es, unaccepted p s1 es = true -> dirty p (run s1 es)) /\
  (forall es, unbatched p s1 es = true -> dirty p (run s1 es)).
Proof.
  intros R L V X F s1.
  assert (D : dirty p s1).
  { subst s1. unfold dirty. cbn [step].
    destruct (lookup p (vault (host (world s)))) as [f0|] eqn:E;
      [|congruence].
    rewrite L. cbn [world with_world].
    assert (Hl : forall v, lookup p v <> None -> lookup p (store p f v) = Some f).
    { induction v as [|[q g] v IH]; cbn; [congruence|].
      destruct (String.eqb p q) eqn:Q; cbn; rewrite Q; auto. }
    unfold on_modify, isPublished, getAbstractFileByPath. cbn.
    rewrite Hl by congruence. rewrite X, F. cbn.
    apply map_get_set_same. }
  assert (I : inv s1) by (apply step_inv, reachable_inv, R).
  split; [exact D|]. split.
  - intros es N. now apply run_keeps_dirty.
  - intros es N. apply run_keeps_dirty; auto.
    now apply unbatched_unaccepted.
Qed.

Lemma dirty_mark_survives_other_and_failed_runs_witness :
  let s := run (start "a.md")
             [PublishCurrent; Resume 0 (ok_ref "head"); Resume 0 (InRead true)] in
  let es := [Resume 0 (ok_sha "blob"); Resume 0 (ok_sha "tree");
             Resume 0 (ok_sha "commit"); Resume 0 (ok_sha "commit");
             Resume 0 (InSaved true)] in
  reachable s /\ snapshots s = [["a.md"]] /\
  tasks (run (step s (Modify "b.md" (note "B2"))) es) = [] /\
  dirty "b.md" (run (step s (Modify "b.md" (note "B2"))) es).
Proof.
  cbv zeta.
  assert (R : reachable (run (start "a.md")
                [PublishCurrent; Resume 0 (ok_ref "head");
                 Resume 0 (InRead true)]))
    by (apply run_reachable; constructor).
  destruct (dirty_mark_survives_other_and_failed_runs _ "b.md" (note "B2") R)
    as (_ & _ & H); try reflexivity; try discriminate.
  split; [exact R|]. split; [reflexivity|]. split; [reflexivity|].
  apply H. vm_compute. reflexivity.
Defined.

(** A mark on a batched path does outlive a run that fails: [a.md] is
    edited while the run is at its tree, and the ref update is refused. *)
Example mark_survives_a_failed_run :
  let s := run (start "a.md")
             [PublishCurrent; Resume 0 (ok_ref "head"); Resume 0 (InRead true);
              Resume 0 (ok_sha "blob");
              Modify "a.md" (note "A2");
              Resume 0 (ok_sha "tree"); Resume 0 (ok_sha "commit");
              Resume 0 (failed 409)] in
  tasks s = [] /\ queue (world s) = [] /\ dirty "a.md" s.
Proof. vm_compute. repeat split; reflexivity. Qed.

(** C2 as stated fails: [a.md] is read and uploaded, then edited and marked
    dirty while the run is at its tree; the run succeeds and marks it clean,
    although the commit holds the old text. *)
Lemma mark_on_a_batched_path_is_lost :
  let s := run (start "a.md")
             [PublishCurrent; Resume 0 (ok_ref "head"); Resume 0 (InRead true);
              Resume 0 (ok_sha "blob");
              Modify "a.md" (note "A2");
              Resume 0 (ok_sha "tree"); Resume 0 (ok_sha "commit");
              Resume 0 (ok_sha "commit"); Resume 0 (InSaved true)] in
  tasks s = [] /\
  lookup "a.md" (vault (host (world s))) = Some (note "A2") /\
  filter is_blob (trace (world s)) =
    [Http (mkRequest post "https://api.github.com/repos/user/repo/git/blobs"
             (JObj [("content", JStr "A1"); ("encoding", JStr "utf-8")]))] /\
  map_get "a.md" (pending (world s)) = Some false.
Proof. vm_compute. repeat split; reflexivity. Qed.

(** * Further properties *)

(** ** Settings: what sanitization establishes and keeps *)

Lemma substring_0_length n : forall s,
  (String.length (String.substring 0 n s) <= n)%nat.
Proof.
  induction n as [|n IH]; intros [|c s]; cbn; try lia.
  specialize (IH s). lia.
Qed.

Lemma substring_0_short n : forall s,
  (String.length s <= n)%nat -> String.substring 0 n s = s.
Proof.
  induction n as [|n IH]; intros [|c s]; cbn; intros H; try reflexivity;
    try lia.
  f_equal. apply IH. lia.
Qed.

Lemma substring_0_map f n : forall s,
  map_chars f (String.substring 0 n s) = String.substring 0 n (map_chars f s).
Proof.
  induction n as [|n IH]; intros [|c s]; cbn; try reflexivity.
  now rewrite IH.
Qed.

Lemma substring_0_all f n : forall s,
  all_chars f s = true -> all_chars f (String.substring 0 n s) = true.
Proof.
  induction n as [|n IH]; intros [|c s]; cbn; auto.
  intros H. apply andb_true_iff in H. destruct H as [H1 H2].
  rewrite H1. cbn. auto.
Qed.

Lemma unbreak_no_break c : is_break (unbreak c) = false.
Proof.
  unfold unbreak. fold (is_break c).
  destruct (is_break c) eqn:E; [reflexivity|exact E].
Qed.

Lemma map_unbreak_all s :
  all_chars (fun c => negb (is_break c)) (map_chars unbreak s) = true.
Proof.
  induction s as [|c s IH]; cbn; [reflexivity|].
  now rewrite unbreak_no_break, IH.
Qed.

Lemma map_unbreak_fixed s :
  all_chars (fun c => negb (is_break c)) s = true -> map_chars unbreak s = s.
Proof.
  induction s as [|c s IH]; cbn; [reflexivity|].
  intros H. apply andb_true_iff in H. destruct H as [H1 H2].
  rewrite IH by exact H2. f_equal.
  unfold unbreak. fold (is_break c).
  apply negb_true_iff in H1. now rewrite H1.
Qed.

(** X1.  Whatever the stored or typed commit message, the prefix that
    [sanitizeSettings] leaves is not empty, has at most 100 code units and
    no carriage return or line feed in it. *)
Theorem clean_message_is_one_short_line (m : string) :
  nonempty (clean_message m) = true /\
  (String.length (clean_message m) <= 100)%nat /\
  all_chars (fun c => negb (is_break c)) (clean_message m) = true.
Proof.
  unfold clean_message. cbv zeta.
  destruct (nonempty (String.substring 0 100 (map_chars unbreak m))) eqn:E.
  - split; [exact E|]. split; [apply substring_0_length|].
    apply substring_0_all, map_unbreak_all.
  - repeat split. cbn. lia.
Qed.

Lemma clean_message_fixed m :
  nonempty m = true -> (String.length m <= 100)%nat ->
  all_chars (fun c => negb (is_break c)) m = true ->
  clean_message m = m.
Proof.
  intros N L A. unfold clean_message. cbv zeta.
  rewrite map_unbreak_fixed by exact A.
  rewrite substring_0_short by exact L. now rewrite N.
Qed.

Lemma sanitizeSettings_tidy s : tidy (sanitizeSettings s).
Proof.
  assert (M : nonempty (clean_message (batchCommitMessage s)) = true /\
              (String.length (clean_message (batchCommitMessage s)) <= 100)%nat /\
              all_chars (fun c => negb (is_break c))
                (clean_message (batchCommitMessage s)) = true).
  { unfold clean_message. cbv zeta.
    destruct (nonempty (String.substring 0 100
                (map_chars unbreak (batchCommitMessage s)))) eqn:E.
    - split; [exact E|]. split; [apply substring_0_length|].
      apply substring_0_all, map_unbreak_all.
    - repeat split. cbn. lia. }
  destruct M as (M1 & M2 & M3).
  unfold tidy, sanitizeSettings; cbn.
  repeat split; try apply clamp_lower; auto.
  - destruct (repo_ok (repoUri s)) eqn:E; cbn; auto.
  - destruct (branch_ok (defaultBranch s)) eqn:E; [exact E|reflexivity].
Qed.

Lemma sanitizeSettings_sane s : sane (sanitizeSettings s).
Proof.
  split; [apply sanitizeSettings_tidy|].
  unfold sanitizeSettings; cbn.
  destruct (repo_ok (repoUri s)) eqn:E; cbn; auto.
  intros U. rewrite U in E. discriminate.
Qed.

Lemma clamp_fixed lo x : lo <= x -> clamp lo x = x.
Proof. unfold clamp. destruct (Z.ltb_spec x lo); lia. Qed.

Lemma sanitizeSettings_fixed s : sane s -> sanitizeSettings s = s.
Proof.
  intros ((F1 & F2 & F3 & F4 & R & B & M1 & M2 & M3) & A).
  destruct s as [uri tok auto ina ses br deb msg siz]; cbn in *.
  unfold sanitizeSettings; cbn.
  rewrite !clamp_fixed by assumption.
  rewrite B, (clean_message_fixed msg M1 M2 M3).
  destruct R as [->|R].
  - cbn. now rewrite (A eq_refl).
  - now rewrite R.
Qed.

(** X2.  Sanitizing twice is sanitizing once: every call of
    [sanitizeSettings] after the first one, as the settings tab makes on
    each change of the URL, the branch or the message, changes nothing by
    itself. *)
Theorem sanitizeSettings_idempotent (s : GitPublisherSettings) :
  sanitizeSettings (sanitizeSettings s) = sanitizeSettings s.
Proof. apply sanitizeSettings_fixed, sanitizeSettings_sane. Qed.

(** ** The repository URL and its two groups *)

Lemma append_cons c a b : (String c a ++ b)%string = String c (a ++ b).
Proof. reflexivity. Qed.

Lemma length_append a b :
  String.length (a ++ b) = (String.length a + String.length b)%nat.
Proof.
  induction a as [|c a IH]; [reflexivity|].
  rewrite append_cons. cbn [String.length]. now rewrite IH.
Qed.

Lemma all_chars_append f a b :
  all_chars f (a ++ b) = all_chars f a && all_chars f b.
Proof.
  induction a as [|c a IH]; [reflexivity|].
  rewrite append_cons. cbn [all_chars]. now rewrite IH, andb_assoc.
Qed.

Lemma prefix_split a : forall b,
  String.prefix a b = true ->
  b = (a ++ String.substring (String.length a)
              (String.length b - String.length a) b)%string.
Proof.
  induction a as [|c a IH]; intros b H.
  - cbn [String.length]. rewrite Nat.sub_0_r.
    now rewrite substring_0_short by lia.
  - destruct b as [|d b]; [discriminate|]. cbn in H.
    destruct (ascii_dec c d) as [->|]; [|discriminate].
    rewrite append_cons. cbn [String.length String.substring Nat.sub].
    f_equal. now apply IH.
Qed.

Lemma prefix_append a b : String.prefix a (a ++ b) = true.
Proof.
  induction a as [|c a IH]; [now destruct b|].
  rewrite append_cons. cbn. destruct (ascii_dec c c); [exact IH|congruence].
Qed.

Lemma substring_skip a b :
  String.substring (String.length a)
    (String.length (a ++ b) - String.length a) (a ++ b) = b.
Proof.
  rewrite length_append.
  replace (String.length a + String.length b - String.length a)%nat
    with (String.length b) by lia.
  induction a as [|c a IH].
  - cbn [String.length]. change ("" ++ b)%string with b.
    now apply substring_0_short.
  - rewrite append_cons. cbn [String.length String.substring]. exact IH.
Qed.

Lemma substring_cut k : forall s, (k <= String.length s)%nat ->
  s = (String.substring 0 k s ++
       String.substring k (String.length s - k) s)%string.
Proof.
  induction k as [|k IH]; intros s H.
  - rewrite Nat.sub_0_r. rewrite (substring_0_short (String.length s)) by lia.
    now destruct s.
  - destruct s as [|c s]; [cbn in H; lia|].
    cbn [String.length String.substring Nat.sub]. rewrite append_cons.
    f_equal. apply IH. cbn in H. lia.
Qed.

Lemma endsWith_split s q :
  endsWith s q = true ->
  s = (String.substring 0 (String.length s - String.length q) s ++ q)%string.
Proof.
  unfold endsWith. cbv zeta. intros H.
  apply andb_true_iff in H. destruct H as [L E].
  apply Nat.leb_le in L. apply String.eqb_eq in E.
  rewrite (substring_cut (String.length s - String.length q) s) at 1 by lia.
  replace (String.length s - (String.length s - String.length q))%nat
    with (String.length q) by lia.
  now rewrite E.
Qed.

Lemma split_at_spec f : forall s a b,
  split_at f s = Some (a, b) ->
  exists c, f c = true /\ s = (a ++ String c b)%string /\
            all_chars (fun x => negb (f x)) a = true.
Proof.
  induction s as [|c s IH]; intros a b; cbn; [discriminate|].
  destruct (f c) eqn:F.
  - intros [= <- <-]. exists c. auto.
  - destruct (split_at f s) as [[a' b']|]; [|discriminate].
    intros [= <- <-]. destruct (IH a' b' eq_refl) as (d & Hd & -> & Ha).
    exists d. repeat split; auto. cbn. now rewrite F.
Qed.

Lemma split_at_append f a c b :
  all_chars (fun x => negb (f x)) a = true -> f c = true ->
  split_at f (a ++ String c b) = Some (a, b).
Proof.
  intros Ha Hc. induction a as [|d a IH].
  - change ("" ++ String c b)%string with (String c b). cbn. now rewrite Hc.
  - rewrite append_cons. cbn in Ha |- *.
    apply andb_true_iff in Ha. destruct Ha as [H1 H2].
    apply negb_true_iff in H1. rewrite H1. now rewrite IH.
Qed.

Lemma repo_char_not_slash c : is_repo_char c = true -> Ascii.eqb "/" c = false.
Proof.
  destruct (Ascii.eqb "/" c) eqn:E; [|reflexivity].
  apply Ascii.eqb_eq in E. subst c. discriminate.
Qed.

Lemma all_repo_chars_no_slash s :
  all_chars is_repo_char s = true ->
  all_chars (fun x => negb (Ascii.eqb "/" x)) s = true.
Proof.
  induction s as [|c s IH]; cbn [all_chars]; [reflexivity|].
  intros H. apply andb_true_iff in H. destruct H as [H1 H2].
  now rewrite (repo_char_not_slash c H1), IH.
Qed.

Lemma repo_groups_whole u owner repo :
  repo_groups u = Some (owner, repo) ->
  u = (github_prefix ++ owner ++ "/" ++ repo)%string /\
  plus_of is_repo_char owner = true /\ plus_of is_repo_char repo = true.
Proof.
  unfold repo_groups, startsWith.
  destruct (String.prefix github_prefix u) eqn:P; [|discriminate].
  pose proof (prefix_split _ _ P) as Hu.
  set (rest := String.substring _ _ u) in *.
  destruct (split_at (Ascii.eqb "/") rest) as [[o tail]|] eqn:S;
    [|discriminate].
  destruct (split_at_spec _ _ _ _ S) as (c & Hc & Hr & _).
  apply Ascii.eqb_eq in Hc. subst c.
  destruct (plus_of is_repo_char o) eqn:Po; [|discriminate].
  destruct (plus_of is_repo_char tail) eqn:Pt.
  - intros [= <- <-]. split; [|auto]. rewrite Hu at 1. now rewrite Hr.
  - cbv zeta.
    destruct (endsWith tail ".git") eqn:E; [|discriminate].
    set (stem := String.substring 0 (String.length tail - 4) tail).
    destruct (plus_of is_repo_char stem) eqn:Ps; [|discriminate].
    exfalso. apply endsWith_split in E.
    change (String.length ".git") with 4%nat in E. fold stem in E.
    unfold plus_of in Pt, Ps.
    apply andb_true_iff in Ps. destruct Ps as [_ Ps].
    assert (A : all_chars is_repo_char tail = true)
      by (rewrite E, all_chars_append, Ps; reflexivity).
    rewrite A, andb_true_r in Pt.
    rewrite E in Pt. destruct stem; discriminate.
Qed.

(** X3.  When [parseRepo] answers, the URL is exactly
    [https://github.com/OWNER/REPO] for the owner and the repository it
    returns, both non-empty and made of word characters, dots and hyphens
    only: nothing of the URL is dropped, so a final [.git] stays part of the
    repository name. *)
Theorem parseRepo_answer_spells_the_url (s : GitPublisherSettings) owner repo :
  parseRepo s = Some (owner, repo) ->
  repoUri s = (github_prefix ++ owner ++ "/" ++ repo)%string /\
  plus_of is_repo_char owner = true /\ plus_of is_repo_char repo = true.
Proof.
  unfold parseRepo. destruct (nonempty (repoUri s)); [|discriminate].
  apply repo_groups_whole.
Qed.

Lemma parseRepo_answer_spells_the_url_witness :
  repoUri (mkSettings "https://github.com/user/repo.git" "tok" true 30 5
             "main" 1500 "Publish" 1024) =
  (github_prefix ++ "user" ++ "/" ++ "repo.git")%string.
Proof.
  apply (parseRepo_answer_spells_the_url
           (mkSettings "https://github.com/user/repo.git" "tok" true 30 5
              "main" 1500 "Publish" 1024) "user" "repo.git").
  reflexivity.
Defined.

(** X4.  Conversely every URL [https://github.com/OWNER/REPO] whose owner
    and repository are non-empty and made of word characters, dots and
    hyphens is accepted and parsed back into these two parts. *)
Theorem parseRepo_accepts_every_wellformed_url
    (s : GitPublisherSettings) owner repo :
  plus_of is_repo_char owner = true -> plus_of is_repo_char repo = true ->
  repoUri s = (github_prefix ++ owner ++ "/" ++ repo)%string ->
  parseRepo s = Some (owner, repo).
Proof.
  intros Po Pr U. unfold parseRepo. rewrite U.
  change (nonempty (github_prefix ++ owner ++ "/" ++ repo)) with true.
  cbv iota. unfold repo_groups, startsWith.
  rewrite prefix_append, substring_skip.
  assert (Ho : all_chars (fun x => negb (Ascii.eqb "/" x)) owner = true).
  { apply all_repo_chars_no_slash. unfold plus_of in Po.
    now apply andb_true_iff in Po. }
  change (owner ++ "/" ++ repo)%string
    with (owner ++ String "/" repo)%string.
  rewrite (split_at_append _ owner "/" repo Ho eq_refl).
  now rewrite Po, Pr.
Qed.

Lemma parseRepo_accepts_every_wellformed_url_witness :
  parseRepo (mkSettings "https://github.com/my-org/notes.v2" "tok" true 30 5
               "main" 1500 "Publish" 1024) = Some ("my-org", "notes.v2").
Proof.
  apply parseRepo_accepts_every_wellformed_url; reflexivity.
Defined.

Example parseRepo_keeps_git :
  parseRepo (mkSettings "https://github.com/user/repo.git" "tok" true 30 5
               "main" 1500 "Publish" 1024) = Some ("user", "repo.git").
Proof. reflexivity. Qed.

(** ** The settings tab keeps the settings tidy *)

Lemma typed_number_floor parseInt lo v old :
  lo <= old -> lo <= typed_number parseInt lo v old.
Proof.
  intros H. unfold typed_number. destruct (parseInt v) as [n|]; [|exact H].
  destruct (Z.leb_spec lo n); assumption.
Qed.

(** X5.  No change made in the settings tab, whatever is typed, takes the
    settings out of the shape that sanitization gave them: the four floors,
    the URL empty or well-formed, the branch well-formed, the message one
    short line.  And only the toggle itself switches auto-publish on: a bad
    URL switches it off, and repairing the URL does not bring it back. *)
Theorem settings_tab_keeps_settings_tidy
    (trim : string -> string) (parseInt : string -> option Z)
    (c : Change) (s : GitPublisherSettings) :
  tidy s ->
  tidy (apply_change trim parseInt c s) /\
  (is_toggle c = false ->
   autoPublishEnabled (apply_change trim parseInt c s) = true ->
   autoPublishEnabled s = true).
Proof.
  intros T. pose proof T as (F1 & F2 & F3 & F4 & R & B & M1 & M2 & M3).
  destruct c; cbn [apply_change is_toggle];
    (split; [try apply sanitizeSettings_tidy|]);
    try (unfold tidy; cbn; repeat split; auto using typed_number_floor; fail);
    try discriminate; try (intros _ H; exact H).
  - intros _. unfold sanitizeSettings; cbn. destruct (repo_ok (trim v)); cbn; auto.
    discriminate.
  - intros _. unfold sanitizeSettings; cbn. destruct (repo_ok (repoUri s)); cbn; auto.
    discriminate.
  - intros _. unfold sanitizeSettings; cbn. destruct (repo_ok (repoUri s)); cbn; auto.
    discriminate.
Qed.

Lemma settings_tab_keeps_settings_tidy_witness :
  let s := sanitizeSettings cfg in
  let s' := apply_change (fun v => v) (fun _ => Some 3) (ChInactivity "3") s in
  tidy s /\ inactivityDelaySec s' = 30 /\ tidy s'.
Proof.
  cbv zeta.
  assert (T : tidy (sanitizeSettings cfg)) by apply sanitizeSettings_tidy.
  split; [exact T|]. split; [reflexivity|].
  apply (settings_tab_keeps_settings_tidy (fun v => v) (fun _ => Some 3)
           (ChInactivity "3") _ T).
Defined.

(** ** Timers: one of each kind *)

Lemma handle_of_kind a b w :
  same_kind a b = true -> handle_of a w = handle_of b w.
Proof. now destruct a, b. Qed.

Lemma same_kind_refl a : same_kind a a = true.
Proof. now destruct a. Qed.

Lemma same_kind_trans a b c :
  same_kind a b = true -> same_kind a c = true -> same_kind b c = true.
Proof. now destruct a, b, c. Qed.

Lemma same_kind_sym a b : same_kind a b = same_kind b a.
Proof. now destruct a, b. Qed.

Lemma timers_wf_same w w' :
  (forall cb, handle_of cb w' = handle_of cb w) ->
  timers (host w') = timers (host w) ->
  nextTimer (host w') = nextTimer (host w) ->
  timers_wf w -> timers_wf w'.
Proof.
  unfold timers_wf. intros H E4 E5. rewrite E4, E5.
  intros (A & B & C & D). split; [|split; [|split]].
  - exact A.
  - intros t Ht. rewrite H. auto.
  - intros cb id Hc. rewrite H in Hc. eauto.
  - intros a b id. rewrite !H. apply D.
Qed.

Lemma timers_wf_view w w' :
  timer_view w' = timer_view w -> timers_wf w -> timers_wf w'.
Proof.
  unfold timer_view. intros [= E1 E2 _ E3 E4 E5].
  apply timers_wf_same; auto. intros []; cbn; congruence.
Qed.

Lemma timers_wf_tracked w : timers_wf w -> tracked w.
Proof.
  intros (_ & B & _) t Ht. specialize (B t Ht).
  destruct t as [id [[|g|] d]]; cbn in B; auto.
Qed.

Lemma timers_wf_cleared w w' :
  timer_view w' = clear_view (timer_view w) -> timers_wf w -> timers_wf w'.
Proof.
  intros E W.
  pose proof (tracked_cleared w w' E (timers_wf_tracked w W)) as T.
  unfold timer_view, clear_view in E. injection E as E1 E2 _ E3 _ _.
  unfold timers_wf. rewrite T.
  split; [|split; [|split]].
  - constructor.
  - intros t [].
  - intros [] id; cbn; congruence.
  - intros [] b id; cbn; congruence.
Qed.

Lemma NoDup_fst_filter (l : list (positive * (TimerCb * Z))) f :
  NoDup (map fst l) -> NoDup (map fst (filter f l)).
Proof.
  induction l as [|t l IH]; cbn; [constructor|].
  intros A. inversion A as [|? ? N A']; subst.
  destruct (f t); cbn; auto. constructor; auto.
  intros Hin. apply N. apply in_map_iff in Hin.
  destruct Hin as (x & Hx & Hin). apply filter_In in Hin.
  apply in_map_iff. exists x. tauto.
Qed.

Lemma timers_wf_fired id w : timers_wf w -> timers_wf (fired id w).
Proof.
  intros (A & B & C & D). unfold timers_wf, fired; cbn.
  split; [|split; [|split]].
  - now apply NoDup_fst_filter.
  - intros t Ht. apply filter_In in Ht. destruct Ht as [Ht _].
    specialize (B t Ht). now destruct (fst (snd t)).
  - intros cb id' Hc. apply (C cb). now destruct cb.
  - intros a b id' Ha Hb. apply (D a b id'); [now destruct a|now destruct b].
Qed.

Lemma clearTimeout_In h w t :
  In t (timers (host (clearTimeout h w))) <->
  In t (timers (host w)) /\ h <> Some (fst t).
Proof.
  destruct h as [id|]; cbn.
  - rewrite filter_In, negb_true_iff, Pos.eqb_neq. split.
    + intros [H N]. split; [exact H|congruence].
    + intros [H N]. split; [exact H|congruence].
  - split; [intros H; split; [exact H|discriminate]|tauto].
Qed.

Lemma clearTimeout_NoDup h w :
  NoDup (map fst (timers (host w))) ->
  NoDup (map fst (timers (host (clearTimeout h w)))).
Proof. destruct h; cbn; [apply NoDup_fst_filter|auto]. Qed.

Lemma armed_wf cb d w w' : armed cb d w w' -> timers_wf w -> timers_wf w'.
Proof.
  intros (Ht & Hn & Hh & Ho) (A & B & C & D).
  assert (Hlt : forall t, In t (timers (host w)) ->
                (fst t < nextTimer (host w))%positive).
  { intros t Hin. apply (C (fst (snd t))). auto. }
  unfold timers_wf. rewrite Ht, Hn. split; [|split; [|split]].
  - rewrite map_app. cbn. apply NoDup_app.
    + now apply clearTimeout_NoDup.
    + repeat constructor. intros [].
    + intros x Hx [<-|[]]. apply in_map_iff in Hx.
      destruct Hx as (t & E & Hin). apply clearTimeout_In in Hin.
      destruct Hin as [Hin _]. apply Hlt in Hin. lia.
  - intros t Hin. apply in_app_iff in Hin. destruct Hin as [Hin|[<-|[]]].
    + apply clearTimeout_In in Hin. destruct Hin as [Hin N].
      destruct (same_kind cb (fst (snd t))) eqn:K.
      * exfalso. apply N. rewrite (handle_of_kind _ _ _ K). auto.
      * rewrite (Ho _ K). auto.
    + exact Hh.
  - intros c id Hc. destruct (same_kind cb c) eqn:K.
    + rewrite <- (handle_of_kind _ _ _ K), Hh in Hc. injection Hc as <-. lia.
    + rewrite (Ho _ K) in Hc. apply C in Hc. lia.
  - intros a b id Ha Hb.
    destruct (same_kind cb a) eqn:Ka, (same_kind cb b) eqn:Kb.
    + exact (same_kind_trans _ _ _ Ka Kb).
    + exfalso. rewrite <- (handle_of_kind _ _ _ Ka), Hh in Ha.
      rewrite (Ho _ Kb) in Hb. apply C in Hb. injection Ha as <-. lia.
    + exfalso. rewrite <- (handle_of_kind _ _ _ Kb), Hh in Hb.
      rewrite (Ho _ Ka) in Ha. apply C in Ha. injection Hb as <-. lia.
    + rewrite (Ho _ Ka) in Ha. rewrite (Ho _ Kb) in Hb. eauto.
Qed.

Lemma resetInactivityTimer_armed file w :
  armed (CbInactivity file) (inactivityDelaySec (settings (plugin w)) * 1000)
    w (resetInactivityTimer file w).
Proof.
  unfold armed, resetInactivityTimer, setTimeout.
  destruct (inactivityHandle (plugin w)) eqn:E; cbn; rewrite ?E; cbn;
    (split; [reflexivity|split; [reflexivity|split; [reflexivity|]]]);
    now intros [].
Qed.

Lemma resetSessionTimer_armed w :
  armed CbSession (maxIntervalMin (settings (plugin w)) * 60 * 1000)
    w (resetSessionTimer w).
Proof.
  unfold armed, resetSessionTimer, setTimeout.
  destruct (sessionHandle (plugin w)) eqn:E; cbn; rewrite ?E; cbn;
    (split; [reflexivity|split; [reflexivity|split; [reflexivity|]]]);
    now intros [].
Qed.

Lemma resetDebounce_armed w :
  armed CbDebounce (debounceMs (settings (plugin w))) w (resetDebounce w).
Proof.
  unfold armed, resetDebounce, setTimeout.
  destruct (debounceHandle (plugin w)) eqn:E; cbn; rewrite ?E; cbn;
    (split; [reflexivity|split; [reflexivity|split; [reflexivity|]]]);
    now intros [].
Qed.

Lemma timers_wf_handleEditorActivity file w :
  timers_wf w -> timers_wf (handleEditorActivity file w).
Proof.
  intros W. unfold handleEditorActivity.
  destruct (negb _); [exact W|].
  eapply armed_wf; [apply resetDebounce_armed|].
  eapply armed_wf; [apply resetInactivityTimer_armed|].
  destruct (falsy_time _).
  - eapply armed_wf; [apply resetSessionTimer_armed|].
    eapply timers_wf_same; [| | |exact W]; try reflexivity; now intros [].
  - eapply timers_wf_same; [| | |exact W]; try reflexivity; now intros [].
Qed.

Lemma timers_wf_settled w w' :
  timer_view w' = timer_view w \/ timer_view w' = clear_view (timer_view w) ->
  timers_wf w -> timers_wf w'.
Proof.
  intros [E|E]; [now apply timers_wf_view|now apply timers_wf_cleared].
Qed.

Lemma step_timers_wf s e :
  inv s -> timers_wf (world s) -> timers_wf (world (step s e)).
Proof.
  intros (_ & (_ & _ & Ht) & _) W.
  assert (Hcall : forall o, queue_spec (world s) o ->
                    timers_wf (world (settle s o))).
  { intros o Q. rewrite world_settle.
    eapply timers_wf_settled; [apply (qs_timers _ _ Q)|exact W]. }
  destruct e as [p f| | | |p|id|v| |a|tm iso|tid i]; cbn [step].
  - destruct (lookup p (vault (host (world s)))); [|exact W].
    set (w1 := with_vault (world s) _).
    destruct (retimed_on_modify p w1) as (_ & _ & M).
    unfold with_world. cbn [world].
    destruct (loaded s); eapply timers_wf_view; try exact W; auto.
  - destruct (loaded s); [|exact W].
    destruct (activeFile (host (world s))) as [f|]; [|exact W].
    now apply timers_wf_handleEditorActivity.
  - destruct (loaded s); [|exact W].
    destruct (activeFile (host (world s))) as [f|]; [|exact W].
    apply Hcall, queueFileForPublish_spec.
  - destruct (loaded s); [|exact W].
    apply Hcall, queue_spec_and_then;
      [apply publishAllPending_spec|intros; apply finish_all_spec].
  - destruct (loaded s); [|exact W].
    destruct (getAbstractFileByPath p (world s)); [|exact W].
    apply Hcall, queueFileForPublish_spec.
  - destruct (find_timer id _) as [cb|]; [|exact W].
    rewrite world_settle.
    eapply timers_wf_settled; [apply (qs_timers _ _ (fire_spec cb _))|].
    exact (timers_wf_fired id _ W).
  - destruct (loaded s); [|exact W].
    eapply timers_wf_view; [|exact W]. reflexivity.
  - destruct (loaded s); [|exact W].
    eapply timers_wf_cleared; [|exact W]. apply timer_view_clearTimers.
  - eapply timers_wf_view; [|exact W]. reflexivity.
  - eapply timers_wf_view; [|exact W]. reflexivity.
  - destruct (pick tid (tasks s)) as [[t others]|] eqn:P; [|exact W].
    destruct (pick_In _ _ _ _ P) as [Hin _].
    assert (M : timer_view (world_of (step_task t i (world s))) =
                  timer_view (world s) \/
                timer_view (world_of (step_task t i (world s))) =
                  clear_view (timer_view (world s))).
    { destruct t as [file c|paths pc c].
      - apply qs_timers, step_task_size_spec. eapply Ht; eauto.
      - apply (rs_timers _ _ _ _ _ (step_task_run_spec paths pc c i _)). }
    destruct (step_task t i (world s)); cbn [world world_of] in *;
      eapply timers_wf_settled; eauto.
Qed.

Lemma initial_timers_wf st scan v a first t iso :
  timers_wf (world (initial st scan v a first t iso)).
Proof.
  split; [|split; [|split]]; cbn.
  - constructor.
  - intros ? [].
  - intros [] id; cbn; discriminate.
  - intros [] b id; cbn; discriminate.
Qed.

Lemma reachable_timers_wf s : reachable s -> timers_wf (world s).
Proof.
  induction 1 as [| s e R IH]; [apply initial_timers_wf|].
  apply step_timers_wf; [now apply reachable_inv|exact IH].
Qed.

Lemma timers_wf_In_unique w id x y :
  timers_wf w ->
  In (id, x) (timers (host w)) -> In (id, y) (timers (host w)) -> x = y.
Proof.
  intros (A & _). induction (timers (host w)) as [|t l IH]; cbn; [tauto|].
  cbn in A. inversion A as [|? ? N A']; subst.
  intros [->|Hx] [E|Hy]; auto.
  - congruence.
  - exfalso. apply N. apply in_map_iff. now exists (id, y).
  - subst t. exfalso. apply N. apply in_map_iff. now exists (id, x).
Qed.

Lemma filter_kind_short (f : positive * (TimerCb * Z) -> bool) l :
  NoDup (map fst l) ->
  (forall t u, In t l -> In u l -> f t = true -> f u = true ->
     fst t = fst u) ->
  (List.length (filter f l) <= 1)%nat.
Proof.
  induction l as [|t l IH]; cbn; [lia|].
  intros A H. inversion A as [|? ? N A']; subst.
  destruct (f t) eqn:Ft.
  - assert (E : filter f l = []).
    { destruct (filter f l) as [|u r] eqn:F; [reflexivity|exfalso].
      assert (Hu : In u (filter f l)) by (rewrite F; now left).
      apply filter_In in Hu. destruct Hu as [Hu Fu].
      apply N. rewrite (H t u); auto. now apply in_map. }
    rewrite E. cbn. lia.
  - apply IH; auto.
Qed.

Lemma kinds_partition (l : list (positive * (TimerCb * Z))) :
  List.length l =
  (List.length (filter is_inactivity l) + List.length (filter is_session l) +
   List.length (filter is_debounce l))%nat.
Proof.
  induction l as [|[id [[|g|] d]] l IH]; cbn; lia.
Qed.

Lemma timers_wf_one_of_a_kind w f :
  timers_wf w ->
  (forall t u, f t = true -> f u = true ->
     same_kind (fst (snd t)) (fst (snd u)) = true) ->
  (List.length (filter f (timers (host w))) <= 1)%nat.
Proof.
  intros W K. pose proof W as (A & B & _).
  apply filter_kind_short; [exact A|].
  intros t u Ht Hu Ft Fu.
  pose proof (B t Ht) as Et. pose proof (B u Hu) as Eu.
  rewrite (handle_of_kind _ _ w (K t u Ft Fu)) in Et. congruence.
Qed.

(** X6.  In every reachable state each pending timeout is the one that the
    handle of its kind holds ([inactivityHandle] for an inactivity callback,
    [sessionHandle] for the session callback, [debounceHandle] for the
    debounce callback), so at most one timeout of each kind, and at most
    three in all, are pending: every [reset...] cancels the timeout it
    replaces.  (The repaint timeouts of [setPublished] and
    [ensurePublishedProperty] are held by no handle; they are no events of
    the loop.) *)
Theorem each_timeout_is_held_by_its_handle (s : Sys) :
  reachable s ->
  let tm := timers (host (world s)) in
  (forall id cb d, In (id, (cb, d)) tm -> handle_of cb (world s) = Some id) /\
  (List.length (filter is_inactivity tm) <= 1)%nat /\
  (List.length (filter is_session tm) <= 1)%nat /\
  (List.length (filter is_debounce tm) <= 1)%nat /\
  (List.length tm <= 3)%nat.
Proof.
  intros R tm. pose proof (reachable_timers_wf s R) as W.
  assert (I : (List.length (filter is_inactivity tm) <= 1)%nat).
  { apply timers_wf_one_of_a_kind; [exact W|].
    intros [? [[|?|] ?]] [? [[|?|] ?]]; cbn; congruence. }
  assert (S : (List.length (filter is_session tm) <= 1)%nat).
  { apply timers_wf_one_of_a_kind; [exact W|].
    intros [? [[|?|] ?]] [? [[|?|] ?]]; cbn; congruence. }
  assert (D : (List.length (filter is_debounce tm) <= 1)%nat).
  { apply timers_wf_one_of_a_kind; [exact W|].
    intros [? [[|?|] ?]] [? [[|?|] ?]]; cbn; congruence. }
  split; [|repeat split; auto].
  - intros id cb d Hin. destruct W as (_ & B & _). exact (B _ Hin).
  - rewrite (kinds_partition tm). lia.
Qed.

Lemma each_timeout_is_held_by_its_handle_witness :
  let s := run (start "a.md")
             [EditorChange; Activate (Some "b.md"); EditorChange] in
  reachable s /\
  List.length (timers (host (world s))) = 3%nat /\
  (List.length (filter is_inactivity (timers (host (world s)))) <= 1)%nat.
Proof.
  cbv zeta.
  assert (R : reachable (run (start "a.md")
                [EditorChange; Activate (Some "b.md"); EditorChange]))
    by (apply run_reachable; constructor).
  split; [exact R|]. split; [reflexivity|].
  exact (proj1 (proj2 (each_timeout_is_held_by_its_handle _ R))).
Defined.

(** ** Timers: what an edit arms *)

Lemma armed_new cb d w w' :
  armed cb d w w' -> In (nextTimer (host w), (cb, d)) (timers (host w')).
Proof.
  intros (Ht & _). rewrite Ht. apply in_or_app. right. now left.
Qed.

Lemma armed_others cb d w w' t :
  armed cb d w w' -> timers_wf w ->
  same_kind cb (fst (snd t)) = false ->
  In t (timers (host w')) <-> In t (timers (host w)).
Proof.
  intros (Ht & _) (_ & B & _ & D) K. rewrite Ht, in_app_iff, clearTimeout_In.
  split.
  - intros [[H _]|[<-|[]]]; [exact H|].
    cbn in K. now rewrite same_kind_refl in K.
  - intros H. left. split; [exact H|]. intros E.
    pose proof (D _ _ _ E (B _ H)). congruence.
Qed.

Lemma armed_only cb d w w' id cb' d' :
  armed cb d w w' -> timers_wf w ->
  same_kind cb cb' = true ->
  In (id, (cb', d')) (timers (host w')) <->
  handle_of cb w' = Some id /\ cb' = cb /\ d' = d.
Proof.
  intros Ha W K. pose proof (armed_wf _ _ _ _ Ha W) as W'.
  pose proof (armed_new _ _ _ _ Ha) as Hn.
  destruct Ha as (_ & _ & Hh & _). split.
  - intros Hin. pose proof W' as (_ & B & _).
    pose proof (B _ Hin) as E. cbn in E.
    rewrite <- (handle_of_kind _ _ _ K) in E.
    split; [exact E|]. rewrite Hh in E. injection E as <-.
    pose proof (timers_wf_In_unique _ _ _ _ W' Hin Hn) as [= -> ->]. auto.
  - intros (E & -> & ->). rewrite Hh in E. injection E as <-. exact Hn.
Qed.

Lemma resetSessionTimer_keeps w :
  settings (plugin (resetSessionTimer w)) = settings (plugin w) /\
  lastActivityTime (plugin (resetSessionTimer w)) = lastActivityTime (plugin w) /\
  sessionStart (plugin (resetSessionTimer w)) = sessionStart (plugin w).
Proof.
  unfold resetSessionTimer, setTimeout.
  now destruct (sessionHandle (plugin w)).
Qed.

Lemma resetInactivityTimer_keeps file w :
  settings (plugin (resetInactivityTimer file w)) = settings (plugin w) /\
  lastActivityTime (plugin (resetInactivityTimer file w)) =
    lastActivityTime (plugin w) /\
  sessionStart (plugin (resetInactivityTimer file w)) = sessionStart (plugin w).
Proof.
  unfold resetInactivityTimer, setTimeout.
  now destruct (inactivityHandle (plugin w)).
Qed.

Lemma resetDebounce_keeps w :
  settings (plugin (resetDebounce w)) = settings (plugin w) /\
  lastActivityTime (plugin (resetDebounce w)) = lastActivityTime (plugin w) /\
  sessionStart (plugin (resetDebounce w)) = sessionStart (plugin w) /\
  inactivityHandle (plugin (resetDebounce w)) = inactivityHandle (plugin w) /\
  sessionHandle (plugin (resetDebounce w)) = sessionHandle (plugin w).
Proof.
  unfold resetDebounce, setTimeout.
  now destruct (debounceHandle (plugin w)).
Qed.

(** X7.  An edit of the active file, with auto-publish enabled, replaces the
    inactivity timeout and the debounce timeout: afterwards the one pending
    inactivity timeout is for the file that was active at the edit, with the
    configured delay in milliseconds, and it is the one [inactivityHandle]
    holds; likewise for the debounce timeout; and [lastActivityTime] is the
    time of the edit.  A pending inactivity timeout for another file is
    cancelled by it. *)
Theorem edit_rearms_inactivity_and_debounce (s : Sys) (f : string) :
  reachable s -> loaded s = true ->
  activeFile (host (world s)) = Some f ->
  autoPublishEnabled (settings (plugin (world s))) = true ->
  let st := settings (plugin (world s)) in
  let w' := world (step s EditorChange) in
  (forall id g d, In (id, (CbInactivity g, d)) (timers (host w')) <->
     inactivityHandle (plugin w') = Some id /\ g = f /\
     d = inactivityDelaySec st * 1000) /\
  (forall id d, In (id, (CbDebounce, d)) (timers (host w')) <->
     debounceHandle (plugin w') = Some id /\ d = debounceMs st) /\
  lastActivityTime (plugin w') = Some (now (host (world s))).
Proof.
  intros R L A E st w'. subst w'. cbn [step]. rewrite L, A.
  unfold with_world; cbn [world]. unfold handleEditorActivity. rewrite E.
  cbn [negb].
  pose proof (reachable_timers_wf s R) as W.
  set (w0 := with_lastActivity (world s) (Some (now (host (world s))))).
  set (w1 := if falsy_time (sessionStart (plugin w0))
             then resetSessionTimer (with_sessionStart w0 (Some (now (host w0))))
             else w0).
  assert (W0 : timers_wf w0).
  { eapply timers_wf_same; [| | |exact W]; try reflexivity; now intros []. }
  assert (W1 : timers_wf w1 /\ settings (plugin w1) = st /\
               lastActivityTime (plugin w1) = Some (now (host (world s)))).
  { subst w1. destruct (falsy_time _).
    - destruct (resetSessionTimer_keeps
                  (with_sessionStart w0 (Some (now (host w0)))))
        as (-> & -> & _).
      split; [|split; reflexivity].
      eapply armed_wf; [apply resetSessionTimer_armed|].
      eapply timers_wf_same; [| | |exact W0]; try reflexivity; now intros [].
    - split; [exact W0|split; reflexivity]. }
  destruct W1 as (W1 & S1 & T1). clearbody w1.
  pose proof (resetInactivityTimer_armed f w1) as A2.
  pose proof (armed_wf _ _ _ _ A2 W1) as W2.
  destruct (resetInactivityTimer_keeps f w1) as (S2 & T2 & _).
  set (w2 := resetInactivityTimer f w1) in *.
  pose proof (resetDebounce_armed w2) as A3.
  destruct (resetDebounce_keeps w2) as (S3 & T3 & _ & H3 & _).
  clearbody w2. split; [|split].
  - intros id g d.
    rewrite (armed_others _ _ _ _ (id, (CbInactivity g, d)) A3 W2 eq_refl).
    rewrite (armed_only _ _ _ _ id (CbInactivity g) d A2 W1 eq_refl).
    rewrite H3, S1. cbn [handle_of]. split.
    + intros (H & [= ->] & ->). auto.
    + intros (H & -> & ->). auto.
  - intros id d.
    rewrite (armed_only _ _ _ _ id CbDebounce d A3 W2 eq_refl).
    rewrite S2, S1. cbn [handle_of]. tauto.
  - congruence.
Qed.

Lemma edit_rearms_inactivity_and_debounce_witness :
  let s := run (start "a.md") [EditorChange; Activate (Some "b.md")] in
  reachable s /\
  In (2%positive, (CbInactivity "a.md", 30000)) (timers (host (world s))) /\
  forall id g d,
    In (id, (CbInactivity g, d)) (timers (host (world (step s EditorChange)))) ->
    g = "b.md".
Proof.
  cbv zeta.
  assert (R : reachable (run (start "a.md")
                [EditorChange; Activate (Some "b.md")]))
    by (apply run_reachable; constructor).
  split; [exact R|]. split; [vm_compute; auto 10|].
  intros id g d H.
  apply (proj1 (edit_rearms_inactivity_and_debounce _ "b.md" R
                  eq_refl eq_refl eq_refl)) in H.
  tauto.
Defined.

(** X8.  The session window is opened by the first edit and not extended by
    later ones.  An edit of the active file, with auto-publish enabled, that
    finds no session start ([null] or [0]) records the time of the edit as
    the session start and arms the one session timeout, with the configured
    minutes in milliseconds; an edit that finds a session start leaves the
    session start, the session handle and the pending session timeout as
    they are. *)
Theorem session_window_is_opened_once (s : Sys) (f : string) :
  reachable s -> loaded s = true ->
  activeFile (host (world s)) = Some f ->
  autoPublishEnabled (settings (plugin (world s))) = true ->
  let w := world s in
  let w' := world (step s EditorChange) in
  (falsy_time (sessionStart (plugin w)) = true ->
     sessionStart (plugin w') = Some (now (host w)) /\
     forall id d, In (id, (CbSession, d)) (timers (host w')) <->
       sessionHandle (plugin w') = Some id /\
       d = maxIntervalMin (settings (plugin w)) * 60 * 1000) /\
  (falsy_time (sessionStart (plugin w)) = false ->
     sessionStart (plugin w') = sessionStart (plugin w) /\
     sessionHandle (plugin w') = sessionHandle (plugin w) /\
     forall id d, In (id, (CbSession, d)) (timers (host w')) <->
       In (id, (CbSession, d)) (timers (host w))).
Proof.
  intros R L A E w w'. subst w w'. cbn [step]. rewrite L, A.
  unfold with_world; cbn [world]. unfold handleEditorActivity. rewrite E.
  cbn [negb].
  pose proof (reachable_timers_wf s R) as W.
  set (w0 := with_lastActivity (world s) (Some (now (host (world s))))).
  assert (W0 : timers_wf w0).
  { eapply timers_wf_same; [| | |exact W]; try reflexivity; now intros []. }
  change (sessionStart (plugin w0)) with (sessionStart (plugin (world s))).
  assert (Hrest : forall w1, timers_wf w1 ->
    let w3 := resetDebounce (resetInactivityTimer f w1) in
    sessionStart (plugin w3) = sessionStart (plugin w1) /\
    sessionHandle (plugin w3) = sessionHandle (plugin w1) /\
    forall id d, In (id, (CbSession, d)) (timers (host w3)) <->
                 In (id, (CbSession, d)) (timers (host w1))).
  { intros w1 W1 w3. subst w3.
    pose proof (resetInactivityTimer_armed f w1) as A2.
    pose proof (armed_wf _ _ _ _ A2 W1) as W2.
    destruct (resetInactivityTimer_keeps f w1) as (_ & _ & S2).
    assert (H2 : sessionHandle (plugin (resetInactivityTimer f w1)) =
                 sessionHandle (plugin w1)).
    { destruct A2 as (_ & _ & _ & Ho). exact (Ho CbSession eq_refl). }
    set (w2 := resetInactivityTimer f w1) in *.
    pose proof (resetDebounce_armed w2) as A3.
    destruct (resetDebounce_keeps w2) as (_ & _ & S3 & _ & H3).
    clearbody w2. split; [congruence|]. split; [congruence|].
    intros id d.
    rewrite (armed_others _ _ _ _ (id, (CbSession, d)) A3 W2 eq_refl).
    exact (armed_others _ _ _ _ (id, (CbSession, d)) A2 W1 eq_refl). }
  split; intros F; rewrite F.
  - set (w1 := with_sessionStart w0 (Some (now (host w0)))).
    assert (W1 : timers_wf w1).
    { eapply timers_wf_same; [| | |exact W0]; try reflexivity; now intros []. }
    pose proof (resetSessionTimer_armed w1) as A1.
    destruct (resetSessionTimer_keeps w1) as (_ & _ & S1).
    destruct (Hrest _ (armed_wf _ _ _ _ A1 W1)) as (Hs & Hh & Ht).
    split; [rewrite Hs, S1; reflexivity|].
    intros id d. rewrite Ht, Hh.
    rewrite (armed_only _ _ _ _ id CbSession d A1 W1 eq_refl).
    cbn [handle_of]. tauto.
  - exact (Hrest w0 W0).
Qed.

Lemma session_window_is_opened_once_witness :
  let s := run (start "a.md")
             [EditorChange; Tick 1767225660000 "2026-01-01T00:01:00.000Z"] in
  reachable s /\
  sessionStart (plugin (world (step s EditorChange))) = Some 1767225600000 /\
  sessionHandle (plugin (world (step s EditorChange))) = Some 1%positive.
Proof.
  cbv zeta.
  assert (R : reachable (run (start "a.md")
                [EditorChange; Tick 1767225660000 "2026-01-01T00:01:00.000Z"]))
    by (apply run_reachable; constructor).
  split; [exact R|].
  destruct (proj2 (session_window_is_opened_once _ "a.md" R
                     eq_refl eq_refl eq_refl) eq_refl) as (H1 & H2 & _).
  split; [rewrite H1|rewrite H2]; reflexivity.
Defined.

(** ** Timers: the end of the session callback *)

Lemma and_then_done (o : Outcome Task) f w' :
  and_then o f = Done w' -> exists w1, o = Done w1 /\ f w1 = Done w'.
Proof. destruct o; cbn; try discriminate. eauto. Qed.

Lemma clearTimers_handles w :
  inactivityHandle (plugin (clearTimers w)) = None /\
  sessionHandle (plugin (clearTimers w)) = None /\
  debounceHandle (plugin (clearTimers w)) = None /\
  sessionStart (plugin (clearTimers w)) = None.
Proof.
  pose proof (timer_view_clearTimers w) as E.
  unfold timer_view, clear_view in E. repeat split; congruence.
Qed.

Lemma session_end_clears i w w' :
  tracked w ->
  return_to (FromPublishAll i AllFromSession) w = Done w' ->
  timers (host w') = [] /\
  inactivityHandle (plugin w') = None /\
  sessionHandle (plugin w') = None /\
  debounceHandle (plugin w') = None /\
  sessionStart (plugin w') = None.
Proof.
  intros T H. cbn [return_to] in H.
  apply and_then_done in H. destruct H as (w1 & H1 & [= <-]).
  pose proof (publishAll_from_spec AllFromSession
                (skipn i (pendingChanges (plugin w))) i w) as Q.
  rewrite H1 in Q.
  split; [|apply clearTimers_handles].
  apply tracked_clearTimers.
  exact (tracked_settled _ _ (qs_timers _ _ Q) T).
Qed.

Lemma as_run_done paths c o w1 :
  as_run paths c o = Done w1 -> forall c', as_run paths c' o = Done w1.
Proof. destruct o; cbn; congruence. Qed.

Lemma run_done_timers paths pc c i w w1 :
  as_run paths c (close_batch paths (publishBatch_resume paths pc i w)) =
    Done w1 ->
  timer_view w1 = timer_view w \/ timer_view w1 = clear_view (timer_view w).
Proof.
  intros H.
  pose proof (step_task_run_spec paths pc FromCommand i w) as Q.
  cbn [step_task] in Q. rewrite (as_run_done _ _ _ _ H FromCommand) in Q.
  exact (rs_timers _ _ _ _ _ Q).
Qed.

(** X9.  When the session callback returns, at once or after the batch runs
    and size reads it awaited, no timeout of the plugin is pending, the
    three handles are [null] and the session start is [null]: its last
    statement is [clearTimers].  So the inactivity and debounce timeouts
    armed by edits made while the session's batches were in flight are
    cancelled with it, and the next edit opens a new session. *)
Theorem session_callback_ends_by_clearing_timers (w w' : World) :
  tracked w ->
  (fire CbSession w = Done w' \/
   exists t i, from_session (caller_of t) = true /\
               step_task t i w = Done w') ->
  timers (host w') = [] /\
  inactivityHandle (plugin w') = None /\
  sessionHandle (plugin w') = None /\
  debounceHandle (plugin w') = None /\
  sessionStart (plugin w') = None.
Proof.
  intros T [H|(t & i & F & H)].
  - cbn [fire] in H. apply and_then_done in H.
    destruct H as (w1 & H1 & [= <-]).
    pose proof (publishAllPending_spec AllFromSession w) as Q.
    rewrite H1 in Q.
    split; [|apply clearTimers_handles].
    apply tracked_clearTimers.
    exact (tracked_settled _ _ (qs_timers _ _ Q) T).
  - destruct t as [file c|paths pc c]; cbn [caller_of] in F;
      destruct c as [| |n k]; try discriminate;
      destruct k; try discriminate; cbn [step_task] in H.
    + destruct i as [r|ok|ok]; try discriminate.
      destruct (if ok then getAbstractFileByPath file w else None) as [f|];
        [|discriminate].
      destruct (_ >? _).
      * apply (session_end_clears n (skip_large file w)); [|exact H].
        eapply tracked_same_view; [|exact T]. reflexivity.
      * apply and_then_done in H. destruct H as (w1 & H1 & H2).
        apply (session_end_clears n w1); [|exact H2].
        unfold enqueue in H1.
        pose proof (processPublishQueue_spec (FromPublishAll n AllFromSession)
          (with_queue w (add file (publishQueue (plugin w))))) as Q.
        rewrite H1 in Q.
        apply (tracked_settled _ _ (qs_timers _ _ Q)).
        eapply tracked_same_view; [|exact T]. reflexivity.
    + apply and_then_done in H. destruct H as (w1 & H1 & H2).
      apply (session_end_clears n w1); [|exact H2].
      exact (tracked_settled _ _ (run_done_timers _ _ _ _ _ _ H1) T).
Qed.

Lemma session_callback_ends_by_clearing_timers_witness :
  let w := world (run (initial cfg [] demo_vault (Some "a.md") 1%positive
                         1767225600000 "2026-01-01T00:00:00.000Z")
                    [EditorChange]) in
  tracked w /\
  List.length (timers (host w)) = 3%nat /\
  timers (host (clearTimers w)) = [] /\
  sessionStart (plugin (clearTimers w)) = None.
Proof.
  cbv zeta.
  set (s := run _ _).
  assert (T : tracked (world s)).
  { assert (R : reachable s) by (apply run_reachable; constructor).
    apply reachable_inv in R. apply R. }
  split; [exact T|]. split; [reflexivity|].
  destruct (session_callback_ends_by_clearing_timers (world s)
              (clearTimers (world s)) T (or_introl eq_refl))
    as (H1 & _ & _ & _ & H2).
  split; [exact H1|exact H2].
Defined.

(** ** The queue without a repository or a token *)

Lemma idle_same w : idle w (Done w).
Proof. repeat split. Qed.

Lemma https_log msg meta lvl w : https (log msg meta lvl w) = https w.
Proof.
  destruct w as [p h]. unfold https, trace, log, emit; cbn.
  rewrite filter_app. cbn. apply app_nil_r.
Qed.

Lemma idle_skip_large file w : idle w (Done (skip_large file w)).
Proof. repeat split. apply https_log. Qed.

Lemma idle_and_then w o g :
  configured w = false -> idle w o ->
  (forall w1, configured w1 = false -> idle w1 (g w1)) ->
  idle w (and_then o g).
Proof.
  intros C (S & H & R) G.
  destruct o as [w1|w1 t|w1]; cbn in *; [|now repeat split..].
  assert (C1 : configured w1 = false) by (unfold configured; now rewrite S).
  destruct (G w1 C1) as (S1 & H1 & R1). repeat split; congruence.
Qed.

Lemma processPublishQueue_idle c w :
  configured w = false -> processPublishQueue c w = Done w.
Proof.
  unfold configured, processPublishQueue. intros ->.
  now destruct (publishingInProgress (plugin w)).
Qed.

Lemma enqueue_idle file c w :
  configured w = false -> idle w (enqueue file c w).
Proof.
  intros C. unfold enqueue. rewrite processPublishQueue_idle by exact C.
  repeat split.
Qed.

Lemma queueFileForPublish_idle file c w :
  configured w = false -> idle w (queueFileForPublish file c w).
Proof.
  intros C. unfold queueFileForPublish.
  destruct (negb _); [apply idle_same|].
  destruct (stat_size file w); [|repeat split].
  destruct (_ >? _); [apply idle_skip_large|now apply enqueue_idle].
Qed.

Lemma publishAll_from_idle k entries :
  forall i w, configured w = false -> idle w (publishAll_from entries i k w).
Proof.
  induction entries as [|[p pen] rest IH]; intros i w C; cbn.
  - apply idle_same.
  - destruct pen; cbn [negb]; [|now apply IH].
    destruct (getAbstractFileByPath p w); [|now apply IH].
    apply idle_and_then; auto. now apply queueFileForPublish_idle.
Qed.

Lemma finish_all_idle k w : idle w (finish_all k w).
Proof.
  destruct k; cbn; [apply idle_same|].
  destruct (retimed_clearTimers w) as (_ & _ & _ & S & T & _).
  split; [exact S|]. split; [|reflexivity].
  cbn [world_of]. unfold https. now rewrite T.
Qed.

Lemma return_to_idle c w : configured w = false -> idle w (return_to c w).
Proof.
  intros C. destruct c; cbn; try apply idle_same.
  apply idle_and_then; auto.
  - now apply publishAll_from_idle.
  - intros; apply finish_all_idle.
Qed.

Lemma fire_idle cb w : configured w = false -> idle w (fire cb w).
Proof.
  intros C. destruct cb; cbn.
  - apply idle_same.
  - unfold publishFileIfPending.
    destruct (negb _); [apply idle_same|].
    destruct (negb _); [apply idle_same|].
    destruct (map_get _ _) as [[|]|]; try apply idle_same.
    now apply queueFileForPublish_idle.
  - apply idle_and_then; auto.
    + unfold publishAllPending. destruct (negb _); [apply idle_same|].
      now apply publishAll_from_idle.
    + intros; apply finish_all_idle.
Qed.

Lemma step_task_size_idle file c i w :
  configured w = false -> idle w (step_task (TSizeRead file c) i w).
Proof.
  intros C. cbn [step_task].
  destruct i as [r|ok|ok]; try (now repeat split).
  destruct (if ok then getAbstractFileByPath file w else None) as [f|] eqn:E;
    [|now repeat split].
  destruct (_ >? _) eqn:Z.
  - destruct (return_to_idle c (skip_large file w) C) as (S & H & R).
    repeat split; auto. rewrite H. apply https_log.
  - apply idle_and_then; auto.
    + now apply enqueue_idle.
    + intros; now apply return_to_idle.
Qed.

Lemma settle_idle s w0 o :
  configured w0 = false -> in_flight s = 0%nat -> idle w0 o ->
  configured (world (settle s o)) = false /\
  in_flight (settle s o) = 0%nat /\
  https (world (settle s o)) = https w0.
Proof.
  intros C F (S & H & R). rewrite in_flight_settle, world_settle.
  unfold configured in *. rewrite S. repeat split; auto. lia.
Qed.

Lemma https_on_modify p w :
  https (on_modify p w) = https w /\
  settings (plugin (on_modify p w)) = settings (plugin w).
Proof.
  unfold on_modify. destruct (getAbstractFileByPath p w); auto.
  destruct (negb _); auto. destruct (isPublished p w); auto.
Qed.

Lemma step_unconfigured s e :
  configured (world s) = false -> in_flight s = 0%nat ->
  configured (world (step s e)) = false /\
  in_flight (step s e) = 0%nat /\
  https (world (step s e)) = https (world s).
Proof.
  intros C F.
  assert (Hcall : forall o, idle (world s) o ->
            configured (world (settle s o)) = false /\
            in_flight (settle s o) = 0%nat /\
            https (world (settle s o)) = https (world s))
    by (intros; now apply settle_idle).
  destruct e as [p f| | | |p|id|v| |a|tm iso|tid i]; cbn [step].
  - destruct (lookup p (vault (host (world s)))); [|auto].
    set (w1 := with_vault (world s) _).
    destruct (https_on_modify p w1) as [H S].
    unfold with_world, configured. cbn [world].
    destruct (loaded s); [rewrite H, S|]; auto.
  - destruct (loaded s); [|auto].
    destruct (activeFile (host (world s))) as [f|]; [|auto].
    destruct (retimed_handleEditorActivity f (world s))
      as (_ & _ & _ & S & T & _).
    unfold with_world, configured, https. cbn [world]. rewrite S, T. auto.
  - destruct (loaded s); [|auto].
    destruct (activeFile (host (world s))) as [f|]; [|auto].
    now apply Hcall, queueFileForPublish_idle.
  - destruct (loaded s); [|auto].
    apply Hcall, idle_and_then; auto.
    + unfold publishAllPending. destruct (negb _); [apply idle_same|].
      now apply publishAll_from_idle.
    + intros; apply finish_all_idle.
  - destruct (loaded s); [|auto].
    destruct (getAbstractFileByPath p (world s)); [|auto].
    now apply Hcall, queueFileForPublish_idle.
  - destruct (find_timer id _) as [cb|]; [|auto].
    set (w0 := with_timers (world s) _ _).
    change (https (world s)) with (https w0).
    apply settle_idle; auto. now apply fire_idle.
  - destruct (loaded s); [|auto].
    unfold with_world, configured, https, trace, ensureGitHubConfig in *.
    cbn. rewrite filter_app. cbn. rewrite app_nil_r. auto.
  - destruct (loaded s); [|auto].
    destruct (retimed_clearTimers (world s)) as (_ & _ & _ & S & T & _).
    unfold configured, https. cbn [world]. rewrite S, T. auto.
  - auto.
  - auto.
  - destruct (pick tid (tasks s)) as [[t others]|] eqn:P; [|auto].
    pose proof (pick_runs _ _ _ _ P) as Hr.
    unfold in_flight, runs in F. rewrite F in Hr.
    destruct t as [file c|paths pc c]; [|cbn in Hr; lia].
    destruct (step_task_size_idle file c i (world s) C) as (S & H & R).
    assert (F' : List.length (filter is_run others) = 0%nat) by lia.
    unfold configured, in_flight, runs in *.
    destruct (step_task (TSizeRead file c) i (world s)) as [w1|w1 t1|w1];
      cbn [world tasks world_of] in *; rewrite S; repeat split; auto.
    rewrite filter_app, length_app, F'. destruct t1; [reflexivity|discriminate].
Qed.

(** X10.  Without a repository URL or without a token the publish path
    sends nothing.  From a state with incomplete GitHub configuration and no
    batch run in flight, whatever happens next in the event loop (edits,
    commands, buttons of the view, timers, the auto-publish toggle, answers
    of pending size reads), no request is sent and no batch run starts;
    paths are queued and stay queued. *)
Theorem nothing_is_sent_without_repository_or_token (s : Sys)
    (es : list Event) :
  configured (world s) = false -> in_flight s = 0%nat ->
  https (world (run s es)) = https (world s) /\
  in_flight (run s es) = 0%nat /\
  configured (world (run s es)) = false.
Proof.
  revert s. induction es as [|e es IH]; intros s C F; [cbn; auto|].
  change (run s (e :: es)) with (run (step s e) es).
  destruct (step_unconfigured s e C F) as (C1 & F1 & H1).
  destruct (IH _ C1 F1) as (H2 & F2 & C2).
  rewrite H2, H1. auto.
Qed.

Lemma nothing_is_sent_without_repository_or_token_witness :
  let s := initial (mkSettings "https://github.com/user/repo" "" true 30 5
                      "main" 1500 "Publish" 1024)
             [("a.md", true); ("b.md", true)] demo_vault (Some "a.md")
             1%positive 1767225600000 "2026-01-01T00:00:00.000Z" in
  let s' := run s [EditorChange; PublishCurrent; PublishAll; TimerFire 1] in
  https (world s') = [] /\ queue (world s') = ["a.md"; "b.md"].
Proof.
  cbv zeta. split; [|reflexivity].
  apply (nothing_is_sent_without_repository_or_token
           (initial (mkSettings "https://github.com/user/repo" "" true 30 5
                       "main" 1500 "Publish" 1024)
              [("a.md", true); ("b.md", true)] demo_vault (Some "a.md")
              1%positive 1767225600000 "2026-01-01T00:00:00.000Z")
           [EditorChange; PublishCurrent; PublishAll; TimerFire 1]
           eq_refl eq_refl).
Defined.

(** ** The settings in force *)

Lemma step_settings s e :
  inv s ->
  settings (plugin (world (step s e))) = settings (plugin (world s)) \/
  exists v, settings (plugin (world (step s e))) =
            toggled v (settings (plugin (world s))).
Proof.
  intros (_ & (_ & _ & Ht) & _).
  assert (Hcall : forall o, queue_spec (world s) o ->
            settings (plugin (world (settle s o))) =
            settings (plugin (world s))).
  { intros o Q. rewrite world_settle. apply (qs_settings _ _ Q). }
  destruct e as [p f| | | |p|id|v| |a|tm iso|tid i]; cbn [step].
  - destruct (lookup p (vault (host (world s)))); [|auto].
    set (w1 := with_vault (world s) _).
    destruct (https_on_modify p w1) as [_ S].
    unfold with_world. cbn [world]. destruct (loaded s); auto.
  - destruct (loaded s); [|auto].
    destruct (activeFile (host (world s))) as [f|]; [|auto].
    destruct (retimed_handleEditorActivity f (world s))
      as (_ & _ & _ & S & _). auto.
  - destruct (loaded s); [|auto].
    destruct (activeFile (host (world s))) as [f|]; [|auto].
    left. apply Hcall, queueFileForPublish_spec.
  - destruct (loaded s); [|auto].
    left. apply Hcall, queue_spec_and_then;
      [apply publishAllPending_spec|intros; apply finish_all_spec].
  - destruct (loaded s); [|auto].
    destruct (getAbstractFileByPath p (world s)); [|auto].
    left. apply Hcall, queueFileForPublish_spec.
  - destruct (find_timer id _) as [cb|]; [|auto].
    left. rewrite world_settle.
    exact (qs_settings _ _ (fire_spec cb _)).
  - destruct (loaded s); [|auto]. right. exists v. reflexivity.
  - destruct (loaded s); [|auto].
    destruct (retimed_clearTimers (world s)) as (_ & _ & _ & S & _). auto.
  - auto.
  - auto.
  - destruct (pick tid (tasks s)) as [[t others]|] eqn:P; [|auto].
    destruct (pick_In _ _ _ _ P) as [Hin _]. left.
    assert (S : settings (plugin (world_of (step_task t i (world s)))) =
                settings (plugin (world s))).
    { destruct t as [file c|paths pc c].
      - apply qs_settings, step_task_size_spec. eapply Ht; eauto.
      - apply (rs_settings _ _ _ _ _ (step_task_run_spec paths pc c i _)). }
    now destruct (step_task t i (world s)).
Qed.

Lemma tidy_toggled v st : tidy st -> tidy (toggled v st).
Proof. exact (fun H => H). Qed.

Lemma reachable_tidy s : reachable s -> tidy (settings (plugin (world s))).
Proof.
  induction 1 as [|s e R IH]; [apply sanitizeSettings_tidy|].
  destruct (step_settings s e (reachable_inv s R)) as [->|[v ->]]; auto.
Qed.

Lemma tidy_parseRepo st :
  tidy st -> ensureGitHubConfig st = true ->
  exists owner repo, parseRepo st = Some (owner, repo).
Proof.
  intros (_ & _ & _ & _ & [E|E] & _) C; unfold ensureGitHubConfig in C.
  - rewrite E in C. discriminate.
  - apply andb_true_iff in C. destruct C as [C _].
    unfold parseRepo. rewrite C. unfold repo_ok in E.
    destruct (repo_groups (repoUri st)) as [[owner repo]|]; [eauto|discriminate].
Qed.

Lemma processPublishQueue_starts c w :
  tidy (settings (plugin w)) ->
  configured w = true -> busy w = false -> queue w <> [] ->
  exists owner repo,
    parseRepo (settings (plugin w)) = Some (owner, repo) /\
    let req := mkRequest get
                 (api owner repo ++ "/git/ref/heads/" ++ branch w) JNull in
    processPublishQueue c w =
      Wait (emit (log "batch_start"
                    (JObj [("count", JNum (Z.of_nat (List.length (queue w))))])
                    INFO (with_inProgress w true)) (Http req))
        (TRun (queue w) (AwaitHttp req (KRef owner repo (url req))) c).
Proof.
  intros T C B Q.
  destruct (tidy_parseRepo _ T C) as (owner & repo & P).
  exists owner, repo. split; [exact P|].
  unfold processPublishQueue. unfold busy in B. rewrite B.
  unfold configured in C. rewrite C. cbn [negb].
  unfold queue in *. cbv zeta.
  change (publishQueue (plugin (with_inProgress w true)))
    with (publishQueue (plugin w)).
  destruct (publishQueue (plugin w)) as [|p q] eqn:E; [congruence|].
  unfold publishBatch. cbv zeta.
  change (settings (plugin (log _ _ _ _))) with (settings (plugin w)).
  rewrite P. reflexivity.
Qed.

(** X11.  In a reachable state, once [ensureGitHubConfig] passed,
    [parseRepo] cannot fail, because the stored URL is empty or well-formed.
    So the command that publishes the current file, for a safe path whose
    stat size fits, with complete configuration and no run in flight,
    always starts a batch run: its snapshot is the queue with the file
    added, and it sends exactly one request, the GET for the head of the
    configured branch of the configured repository. *)
Theorem publish_current_starts_a_run (s : Sys) (f : string) (size : Z) :
  reachable s -> loaded s = true ->
  activeFile (host (world s)) = Some f ->
  isSafePath f = true ->
  stat_size f (world s) = Some size -> size <= size_limit (world s) ->
  configured (world s) = true -> busy (world s) = false ->
  exists owner repo k,
    parseRepo (settings (plugin (world s))) = Some (owner, repo) /\
    let req := mkRequest get
                 (api owner repo ++ "/git/ref/heads/" ++ branch (world s))
                 JNull in
    tasks (step s PublishCurrent) =
      (tasks s ++
       [(nextTask s,
         TRun (add f (queue (world s))) (AwaitHttp req k) FromCommand)])%list /\
    https (world (step s PublishCurrent)) =
      (https (world s) ++ [Http req])%list /\
    busy (world (step s PublishCurrent)) = true.
Proof.
  intros R L A Sf Hs Hl C B.
  set (w1 := with_queue (world s) (add f (publishQueue (plugin (world s))))).
  assert (Q : queue w1 <> []).
  { unfold w1, queue. cbn. intros E.
    assert (H : In f (add f (publishQueue (plugin (world s)))))
      by (apply add_In; auto).
    rewrite E in H. exact H. }
  destruct (processPublishQueue_starts FromCommand w1
              (reachable_tidy s R) C B Q) as (owner & repo & P & E).
  exists owner, repo. eexists. split; [exact P|].
  cbn [step]. rewrite L, A. unfold queueFileForPublish.
  rewrite Sf, Hs. cbn [negb].
  destruct (size >? size_limit (world s)) eqn:Z; [lia|].
  unfold enqueue. fold w1. cbv zeta in E. rewrite E.
  cbn [settle tasks world]. split; [reflexivity|]. split; [|reflexivity].
  unfold https, trace. cbn. rewrite !filter_app. cbn.
  now rewrite app_nil_r.
Qed.

Lemma publish_current_starts_a_run_witness :
  let s := run (start "a.md")
             [PublishCurrent; PublishAll; Resume 0 (failed 500);
              Resume 0 (failed 500)] in
  reachable s /\ queue (world s) = ["b.md"] /\
  exists k,
    tasks (step s PublishCurrent) =
      [(1%nat,
        TRun ["b.md"; "a.md"]
          (AwaitHttp
             (mkRequest get
                "https://api.github.com/repos/user/repo/git/ref/heads/main"
                JNull) k)
          FromCommand)].
Proof.
  cbv zeta.
  assert (R : reachable (run (start "a.md")
                [PublishCurrent; PublishAll; Resume 0 (failed 500);
                 Resume 0 (failed 500)]))
    by (apply run_reachable; constructor).
  split; [exact R|]. split; [reflexivity|].
  destruct (publish_current_starts_a_run _ "a.md" 10 R eq_refl eq_refl
              eq_refl eq_refl ltac:(vm_compute; discriminate) eq_refl eq_refl)
    as (owner & repo & k & P & T & _).
  vm_compute in P. injection P as <- <-.
  exists k. exact T.
Defined.

(** ** What the timers queue *)







(** ** The tree of a batch run *)























(** ** Timers: the floors of the delays *)

Lemma delays_ok_sub w w' :
  (forall t, In t (timers (host w')) -> In t (timers (host w))) ->
  delays_ok w -> delays_ok w'.
Proof. intros S H id cb d Hin. apply (H id). now apply S. Qed.

Lemma delays_ok_settled w w' :
  timer_view w' = timer_view w \/ timer_view w' = clear_view (timer_view w) ->
  delays_ok w -> delays_ok w'.
Proof.
  unfold timer_view, clear_view.
  intros [[= _ _ _ _ E _]|[= _ _ _ _ E _]]; apply delays_ok_sub; rewrite E;
    [auto|].
  intros t H. apply drop_In in H. destruct H as [H _].
  apply drop_In in H. destruct H as [H _].
  apply drop_In in H. tauto.
Qed.

Lemma delays_ok_armed cb d w w' :
  armed cb d w w' -> floor_of cb <= d -> delays_ok w -> delays_ok w'.
Proof.
  intros (Ht & _) F H id cb' d' Hin. rewrite Ht in Hin.
  apply in_app_iff in Hin. destruct Hin as [Hin|[[= _ <- <-]|[]]]; [|exact F].
  apply clearTimeout_In in Hin. apply (H id). tauto.
Qed.

Lemma delays_ok_handleEditorActivity file w :
  tidy (settings (plugin w)) -> delays_ok w ->
  delays_ok (handleEditorActivity file w).
Proof.
  intros (T1 & T2 & T3 & _) D. unfold handleEditorActivity.
  destruct (negb _); [exact D|].
  set (w0 := with_lastActivity w (Some (now (host w)))).
  set (w1 := if falsy_time (sessionStart (plugin w0))
             then resetSessionTimer (with_sessionStart w0 (Some (now (host w0))))
             else w0).
  assert (D1 : delays_ok w1 /\ settings (plugin w1) = settings (plugin w)).
  { subst w1. destruct (falsy_time _); [|split; [exact D|reflexivity]].
    split; [|exact (proj1 (resetSessionTimer_keeps _))].
    eapply delays_ok_armed; [apply resetSessionTimer_armed| |exact D].
    cbn. lia. }
  destruct D1 as [D1 S1]. clearbody w1.
  eapply delays_ok_armed; [apply resetDebounce_armed| |].
  - destruct (resetInactivityTimer_keeps file w1) as (-> & _).
    rewrite S1. cbn. lia.
  - eapply delays_ok_armed; [apply resetInactivityTimer_armed| |exact D1].
    rewrite S1. cbn. lia.
Qed.

Lemma step_delays_ok s e :
  inv s -> tidy (settings (plugin (world s))) ->
  delays_ok (world s) -> delays_ok (world (step s e)).
Proof.
  intros (_ & (_ & _ & Ht) & _) T D.
  assert (Hcall : forall o, queue_spec (world s) o ->
                    delays_ok (world (settle s o))).
  { intros o Q. rewrite world_settle.
    eapply delays_ok_settled; [apply (qs_timers _ _ Q)|exact D]. }
  destruct e as [p f| | | |p|id|v| |a|tm iso|tid i]; cbn [step].
  - destruct (lookup p (vault (host (world s)))); [|exact D].
    set (w1 := with_vault (world s) _).
    destruct (retimed_on_modify p w1) as (_ & _ & M).
    unfold with_world. cbn [world].
    destruct (loaded s); [|exact D].
    eapply delays_ok_settled; [left; exact M|exact D].
  - destruct (loaded s); [|exact D].
    destruct (activeFile (host (world s))) as [f|]; [|exact D].
    now apply delays_ok_handleEditorActivity.
  - destruct (loaded s); [|exact D].
    destruct (activeFile (host (world s))) as [f|]; [|exact D].
    apply Hcall, queueFileForPublish_spec.
  - destruct (loaded s); [|exact D].
    apply Hcall, queue_spec_and_then;
      [apply publishAllPending_spec|intros; apply finish_all_spec].
  - destruct (loaded s); [|exact D].
    destruct (getAbstractFileByPath p (world s)); [|exact D].
    apply Hcall, queueFileForPublish_spec.
  - destruct (find_timer id _) as [cb|]; [|exact D].
    rewrite world_settle.
    eapply delays_ok_settled; [exact (qs_timers _ _ (fire_spec cb _))|].
    eapply delays_ok_sub; [|exact D]. cbn. intros t H.
    apply filter_In in H. tauto.
  - destruct (loaded s); exact D.
  - destruct (loaded s); [|exact D].
    eapply delays_ok_settled; [right; apply timer_view_clearTimers|exact D].
  - exact D.
  - exact D.
  - destruct (pick tid (tasks s)) as [[t others]|] eqn:P; [|exact D].
    destruct (pick_In _ _ _ _ P) as [Hin _].
    assert (M : timer_view (world_of (step_task t i (world s))) =
                  timer_view (world s) \/
                timer_view (world_of (step_task t i (world s))) =
                  clear_view (timer_view (world s))).
    { destruct t as [file c|paths pc c].
      - apply qs_timers, step_task_size_spec. eapply Ht; eauto.
      - apply (rs_timers _ _ _ _ _ (step_task_run_spec paths pc c i _)). }
    destruct (step_task t i (world s)); cbn [world world_of] in *;
      eapply delays_ok_settled; eauto.
Qed.

(** X14.  The floors of the settings reach the timers: in every reachable
    state a pending inactivity timeout was armed with at least 5000 ms, a
    pending session timeout with at least 60000 ms and a pending debounce
    timeout with at least 250 ms, whatever settings were stored or
    toggled. *)
Theorem pending_timeouts_respect_the_floors (s : Sys) (id : positive)
    (cb : TimerCb) (d : Z) :
  reachable s ->
  In (id, (cb, d)) (timers (host (world s))) ->
  floor_of cb <= d.
Proof.
  intros R. revert id cb d. change (delays_ok (world s)).
  induction R as [|s e R IH]; [intros id cb d []|].
  apply step_delays_ok; auto using reachable_inv, reachable_tidy.
Qed.

Lemma pending_timeouts_respect_the_floors_witness :
  let s := run (initial (mkSettings "https://github.com/user/repo" "tok" true
                           0 0 "main" 0 "Publish" 0)
                  [] demo_vault (Some "a.md") 1%positive 1767225600000
                  "2026-01-01T00:00:00.000Z")
             [EditorChange] in
  reachable s /\
  In (2%positive, (CbInactivity "a.md", 5000)) (timers (host (world s))) /\
  floor_of (CbInactivity "a.md") <= 5000.
Proof.
  cbv zeta.
  set (s := run _ _).
  assert (R : reachable s) by (apply run_reachable; constructor).
  assert (H : In (2%positive, (CbInactivity "a.md", 5000))
                (timers (host (world s)))) by (vm_compute; auto).
  split; [exact R|]. split; [exact H|].
  exact (pending_timeouts_respect_the_floors s _ _ _ R H).
Defined.

(** ** The unpublish path *)

Lemma https_notice text w : https (notice text w) = https w.
Proof.
  destruct w as [p h]. unfold https, trace, notice, emit; cbn.
  rewrite filter_app. cbn. apply app_nil_r.
Qed.

Lemma https_emit_http w r : https (emit w (Http r)) = (https w ++ [Http r])%list.
Proof.
  destruct w as [p h]. unfold https, trace, emit; cbn.
  now rewrite filter_app.
Qed.

Lemma githubReq_settle_frame req r w :
  plugin (snd (githubReq_settle req r w)) = plugin w /\
  https (snd (githubReq_settle req r w)) = https w.
Proof.
  destruct r; cbn [githubReq_settle snd].
  - split; [reflexivity|apply https_log].
  - split; [reflexivity|]. now rewrite https_notice, https_log.
Qed.

Lemma map_get_delete_same k m : map_get k (map_delete k m) = None.
Proof.
  induction m as [|[k' v] m IH]; cbn; [reflexivity|].
  destruct (String.eqb k k') eqn:E; cbn; [exact IH|]. now rewrite E.
Qed.

Lemma map_get_delete_other p k m :
  p <> k -> map_get p (map_delete k m) = map_get p m.
Proof.
  intros N. induction m as [|[k' v] m IH]; cbn; [reflexivity|].
  destruct (String.eqb_spec k k') as [<-|Nk]; cbn.
  - destruct (String.eqb_spec p k); [contradiction|exact IH].
  - destruct (String.eqb p k'); [reflexivity|exact IH].
Qed.

(** X15.  [setPublished] never sends a DELETE on its own authority.  Each
    resumption sends at most one request, and when that request is a DELETE
    the call was waiting for the contents GET of the file, the answer had a
    truthy [sha], and the DELETE goes to the contents URL of that file with
    exactly that sha, the configured branch and the message
    [Unpublish <path>].  A rejected GET, or an answer without [sha], ends
    the call with no DELETE. *)
Theorem delete_carries_the_sha_of_the_remote_file
    (enc base : string -> string) (pc : FlagPc) (i : FlagInput) (w : World) :
  exists sent,
    https (world_of (setPublished_resume enc base pc i w)) =
      (https w ++ sent)%list /\
    (List.length sent <= 1)%nat /\
    forall req, In (Http req) sent -> method req = delete_ ->
      exists file owner repo req0 r,
        pc = AwaitContentsSha file owner repo req0 /\ i = Answered r /\
        truthy (field "sha" (answer r)) = true /\
        req = mkRequest delete_ (contents_url enc owner repo file)
                (JObj [("message", JStr ("Unpublish " ++ file));
                       ("branch", JStr (branch w));
                       ("sha", field "sha" (answer r))]).
Proof.
  assert (Hnone : forall w', https w' = https w ->
            exists sent, https w' = (https w ++ sent)%list /\
              (List.length sent <= 1)%nat /\
              forall req, In (Http req) sent -> method req = delete_ ->
                exists file owner repo req0 r,
                  pc = AwaitContentsSha file owner repo req0 /\
                  i = Answered r /\
                  truthy (field "sha" (answer r)) = true /\
                  req = mkRequest delete_ (contents_url enc owner repo file)
                          (JObj [("message", JStr ("Unpublish " ++ file));
                                 ("branch", JStr (branch w));
                                 ("sha", field "sha" (answer r))])).
  { intros w' E. exists []. rewrite app_nil_r. split; [exact E|].
    split; [cbn; lia|]. intros req []. }
  destruct pc as [file value|file owner repo req0|file req0];
    destruct i as [[|]|r]; cbn [setPublished_resume world_of];
    try (apply Hnone; reflexivity).
  - destruct value; cbn [world_of].
    + apply Hnone. unfold repaint_later.
      change (https (with_timers ?v _ _)) with (https v).
      rewrite https_log.
      change (https (with_pending ?v _)) with (https v).
      apply https_notice.
    + unfold deleteFileFromRepo.
      change (settings (plugin (notice _ w))) with (settings (plugin w)).
      destruct (parseRepo (settings (plugin w))) as [[owner repo]|];
        cbn [and_then world_of].
      * eexists. split; [rewrite https_emit_http, https_notice; reflexivity|].
        split; [cbn; lia|]. intros req [[= <-]|[]]. discriminate.
      * apply Hnone. unfold flag_off, repaint_later.
        change (https (with_timers ?v _ _)) with (https v).
        now rewrite https_log, https_notice.
  - destruct (githubReq_settle_frame req0 r w) as [P H].
    pose proof (githubReq_settle_answer req0 r w) as A.
    destruct (githubReq_settle req0 r w) as [res w1]. cbn [fst snd] in *.
    subst res. destruct (truthy (field "sha" (answer r))) eqn:T;
      cbn [world_of].
    + eexists. split; [rewrite https_emit_http, H; reflexivity|].
      split; [cbn; lia|]. intros req [[= <-]|[]] _.
      exists file, owner, repo, req0, r. repeat split; auto.
      unfold branch. now rewrite P.
    + apply Hnone. unfold flag_off, repaint_later.
      change (https (with_timers ?v _ _)) with (https v).
      now rewrite !https_log.
  - destruct (githubReq_settle_frame req0 r w) as [P H].
    destruct (githubReq_settle req0 r w) as [res w1]. cbn [fst snd] in *.
    destruct (truthy res); cbn [world_of]; apply Hnone;
      unfold flag_off, repaint_later;
      change (https (with_timers ?v _ _)) with (https v);
      rewrite !https_log; auto.
Qed.

(** X16.  What [setPublished] does to the dirty flags.  A resumption leaves
    the entry of every other path as it is.  The entry of its own file is
    set to [true] when the frontmatter was written with [published: true],
    is deleted when the DELETE was answered with a truthy value, and is
    left as it is in every other case: a missing remote file, a rejected
    GET or DELETE, an unparsable repository URL or a rejected frontmatter
    write leave a dirty file dirty. *)
Theorem unpublish_forgets_the_flag_only_after_the_delete
    (enc base : string -> string) (pc : FlagPc) (i : FlagInput) (w : World) :
  let w' := world_of (setPublished_resume enc base pc i w) in
  (forall p, p <> flag_file pc ->
     map_get p (pending w') = map_get p (pending w)) /\
  map_get (flag_file pc) (pending w') =
    match pc, i with
    | AwaitFrontMatter _ true, FrontMatterDone true => Some true
    | AwaitDelete _ _, Answered r =>
        if truthy (answer r) then None
        else map_get (flag_file pc) (pending w)
    | _, _ => map_get (flag_file pc) (pending w)
    end.
Proof.
  cbv zeta.
  destruct pc as [file [|]|file owner repo req0|file req0];
    destruct i as [[|]|r]; cbn [setPublished_resume world_of flag_file];
    try (split; reflexivity).
  - unfold pending; cbn. split.
    + intros p N. now apply map_get_set_other.
    + apply map_get_set_same.
  - unfold deleteFileFromRepo.
    change (settings (plugin (notice _ w))) with (settings (plugin w)).
    destruct (parseRepo (settings (plugin w))) as [[owner repo]|];
      cbn [and_then world_of]; split; reflexivity.
  - destruct (githubReq_settle_frame req0 r w) as [P _].
    destruct (githubReq_settle req0 r w) as [res w1]. cbn [fst snd] in *.
    unfold pending.
    destruct (truthy (field "sha" res)); cbn [world_of]; cbn; rewrite P;
      split; reflexivity.
  - destruct (githubReq_settle_frame req0 r w) as [P _].
    pose proof (githubReq_settle_answer req0 r w) as A.
    destruct (githubReq_settle req0 r w) as [res w1]. cbn [fst snd] in *.
    subst res. unfold pending.
    destruct (truthy (answer r)); cbn [world_of]; cbn; rewrite P.
    + split; [intros p N; now apply map_get_delete_other|].
      apply map_get_delete_same.
    + split; reflexivity.
Qed.

Lemma run_from_delete enc base file d inputs :
  forall w w',
    setPublished_run enc base (AwaitDelete file d) inputs w = Done w' ->
    https w' = https w /\
    (pending w' = pending w \/ pending w' = map_delete file (pending w)).
Proof.
  induction inputs as [|i inputs IH]; intros w w'; cbn [setPublished_run];
    [discriminate|].
  destruct i as [ok|r]; cbn [setPublished_resume]; [apply IH|].
  destruct (githubReq_settle_frame d r w) as [P H].
  destruct (githubReq_settle d r w) as [res w1]. cbn [fst snd] in *.
  unfold pending.
  destruct (truthy res); intros [= <-]; unfold flag_off, repaint_later;
    change (https (with_timers ?v _ _)) with (https v);
    rewrite !https_log; cbn; rewrite P; auto.
Qed.

Lemma run_from_sha enc base file owner repo g inputs :
  forall w w',
    setPublished_run enc base (AwaitContentsSha file owner repo g) inputs w =
      Done w' ->
    (https w' = https w /\ pending w' = pending w) \/
    exists d,
      https w' = (https w ++ [Http d])%list /\
      method d = delete_ /\ url d = contents_url enc owner repo file /\
      (pending w' = pending w \/ pending w' = map_delete file (pending w)).
Proof.
  induction inputs as [|i inputs IH]; intros w w'; cbn [setPublished_run];
    [discriminate|].
  destruct i as [ok|r]; cbn [setPublished_resume]; [apply IH|].
  destruct (githubReq_settle_frame g r w) as [P H].
  destruct (githubReq_settle g r w) as [res w1]. cbn [fst snd] in *.
  destruct (truthy (field "sha" res)).
  - intros R. apply run_from_delete in R. destruct R as [Hh Hp].
    rewrite https_emit_http, H in Hh. right. eexists. split; [exact Hh|].
    split; [reflexivity|]. split; [reflexivity|].
    unfold pending in *. cbn in Hp. now rewrite P in Hp.
  - intros [= <-]. left. unfold flag_off, repaint_later, pending.
    change (https (with_timers ?v _ _)) with (https v).
    rewrite !https_log. cbn. now rewrite P.
Qed.

(** X17.  A whole unpublish, whatever the answers and however many stray
    inputs arrive: when [setPublished(file, false)] returns it has sent no
    request (the repository URL does not parse), or the one GET for the
    contents of the file on the configured branch, or that GET and then one
    DELETE of the same contents URL; it has marked nothing dirty, and the
    pending map is as it was unless the DELETE was sent, in which case the
    entry of the file may be deleted. *)
Theorem unpublish_sends_get_then_delete
    (enc base : string -> string) (file : string) (inputs : list FlagInput)
    (w w' : World) :
  setPublished_run enc base (AwaitFrontMatter file false) inputs w = Done w' ->
  (https w' = https w /\ pending w' = pending w /\
   parseRepo (settings (plugin w)) = None) \/
  exists owner repo g,
    parseRepo (settings (plugin w)) = Some (owner, repo) /\
    g = mkRequest get (contents_url enc owner repo file ++ "?ref=" ++ branch w)
          JNull /\
    ((https w' = (https w ++ [Http g])%list /\ pending w' = pending w) \/
     exists d,
       https w' = (https w ++ [Http g; Http d])%list /\
       method d = delete_ /\ url d = contents_url enc owner repo file /\
       (pending w' = pending w \/ pending w' = map_delete file (pending w))).
Proof.
  revert w. induction inputs as [|i inputs IH]; intros w;
    cbn [setPublished_run]; [discriminate|].
  destruct i as [[|]|r]; cbn [setPublished_resume];
    [|discriminate|apply IH].
  unfold deleteFileFromRepo.
  change (settings (plugin (notice _ w))) with (settings (plugin w)).
  destruct (parseRepo (settings (plugin w))) as [[owner repo]|];
    cbn [and_then].
  - intros R. apply run_from_sha in R. right. exists owner, repo.
    eexists. split; [reflexivity|]. split; [reflexivity|].
    rewrite https_emit_http, https_notice in R.
    destruct R as [[Hh Hp]|(d & Hh & Hm & Hu & Hp)].
    + left. split; [exact Hh|exact Hp].
    + right. exists d. rewrite <- app_assoc in Hh. cbn in Hh. auto.
  - intros [= <-]. left. unfold flag_off, repaint_later.
    change (https (with_timers ?v _ _)) with (https v).
    rewrite https_log, https_notice. auto.
Qed.

Lemma unpublish_sends_get_then_delete_witness :
  let w := world (start "a.md") in
  let inputs := [FrontMatterDone true;
                 Answered (Resolved 200 (JObj [("sha", JStr "abc")]));
                 Answered (Rejected (Some 409) JNull)] in
  let o := setPublished_run (fun p => p) (fun p => p)
             (AwaitFrontMatter "a.md" false) inputs w in
  o = Done (world_of o) /\
  map_get "a.md" (pending (world_of o)) = Some true /\
  exists d,
    In (Http d) (https (world_of o)) /\ method d = delete_ /\
    url d = "https://api.github.com/repos/user/repo/contents/a.md".
Proof.
  cbv zeta.
  set (o := setPublished_run _ _ _ _ _).
  assert (E : o = Done (world_of o)) by reflexivity.
  split; [exact E|]. split; [reflexivity|].
  destruct (unpublish_sends_get_then_delete _ _ _ _ _ _ E)
    as [(_ & _ & P)|(owner & repo & g & P & _ & [[H _]|(d & H & M & U & _)])].
  - discriminate P.
  - apply (f_equal (@List.length Effect)) in H. discriminate H.
  - injection P as <- <-. exists d. split; [|split; [exact M|exact U]].
    rewrite H. apply in_or_app. right. right. now left.
Defined.

(** ** The scan *)

Lemma scan_from_cases enc k owner repo rest :
  forall c s,
    (exists s',
       scan_from enc k owner repo rest c s = ScanDone s' /\
       scan_https s' = scan_https s /\ scan_pending s' = scan_pending s /\
       shaMap s' = shaMap s /\
       lastScanSummary s' =
         Some (mkSummary (c_total c) (c_out c) (c_missing c)
                 (now (host (scan_world s))))) \/
    (exists s' f rest' req skipped,
       scan_from enc k owner repo rest c s =
         ScanWait s'
           (ScanGet k owner repo f rest'
              (mkCounters (c_total c + 1) (c_out c) (c_missing c)) req) /\
       scan_https s' = (scan_https s ++ [Http req])%list /\
       method req = get /\
       scan_pending s' = scan_pending s /\ shaMap s' = shaMap s /\
       lastScanSummary s' = lastScanSummary s /\
       rest = (skipped ++ f :: rest')%list).
Proof.
  induction rest as [|f rest IH]; intros c s; cbn [scan_from].
  - left. eexists. split; [reflexivity|].
    unfold scan_https, scan_pending.
    destruct k; cbn [scan_return scan_with scan_world shaMap lastScanSummary];
      rewrite ?https_notice, https_log; auto.
  - destruct (negb (isPublished f (scan_world s))).
    + destruct (IH c s) as [H|(s' & f' & rest' & req & sk & E & H)];
        [left; exact H|].
      right. exists s', f', rest', req, (f :: sk).
      split; [exact E|]. destruct H as (H1 & H2 & H3 & H4 & H5 & ->). auto 10.
    + right. eexists. exists f, rest. eexists. exists [].
      split; [reflexivity|]. unfold scan_https, scan_pending.
      cbn [scan_with scan_world shaMap lastScanSummary].
      rewrite https_emit_http. repeat split; reflexivity.
Qed.

Lemma set_flag_frame f v s :
  scan_https (set_flag f v s) = scan_https s /\
  shaMap (set_flag f v s) = shaMap s /\
  lastScanSummary (set_flag f v s) = lastScanSummary s /\
  map_get f (scan_pending (set_flag f v s)) = Some v /\
  forall p, p <> f ->
    map_get p (scan_pending (set_flag f v s)) = map_get p (scan_pending s).
Proof.
  unfold set_flag, scan_https, scan_pending, pending; cbn.
  repeat split; [apply map_get_set_same|].
  intros p N. now apply map_get_set_other.
Qed.

(** The loop of the scan, from any point it is suspended at, over any
    inputs: what it sends, which flags it leaves alone, and what its
    summary says when it returns. *)
Lemma scan_loop enc b64 inputs :
  forall pc s, in_loop pc = true ->
  exists sent,
    scan_https (state_of (scan_run enc b64 pc inputs s)) =
      (scan_https s ++ sent)%list /\
    forallb is_get sent = true /\
    (List.length sent + 1 <= List.length (files_left pc))%nat /\
    (forall p, ~ In p (files_left pc) ->
       map_get p (scan_pending (state_of (scan_run enc b64 pc inputs s))) =
       map_get p (scan_pending s)) /\
    (forall s', scan_run enc b64 pc inputs s = ScanDone s' ->
       exists m,
         lastScanSummary s' = Some m /\
         total m = c_total (counters_of pc) + Z.of_nat (List.length sent) /\
         c_out (counters_of pc) <= outOfSync m /\
         c_missing (counters_of pc) <= missing m /\
         outOfSync m + missing m <=
           c_out (counters_of pc) + c_missing (counters_of pc) + 1 +
           Z.of_nat (List.length sent)).
Proof.
  induction inputs as [|i inputs IH]; intros pc s L.
  { exists []. cbn [scan_run state_of]. rewrite app_nil_r.
    repeat split; auto.
    - destruct pc; try discriminate; cbn; lia.
    - discriminate. }
  assert (Hcont : forall k owner repo rest c s1,
    let o := match scan_from enc k owner repo rest c s1 with
             | ScanWait s' pc' => scan_run enc b64 pc' inputs s'
             | o => o
             end in
    exists sent,
      scan_https (state_of o) = (scan_https s1 ++ sent)%list /\
      forallb is_get sent = true /\
      (List.length sent <= List.length rest)%nat /\
      (forall p, ~ In p rest ->
         map_get p (scan_pending (state_of o)) = map_get p (scan_pending s1)) /\
      (forall s', o = ScanDone s' ->
         exists m,
           lastScanSummary s' = Some m /\
           total m = c_total c + Z.of_nat (List.length sent) /\
           c_out c <= outOfSync m /\ c_missing c <= missing m /\
           outOfSync m + missing m <=
             c_out c + c_missing c + Z.of_nat (List.length sent))).
  { intros k owner repo rest c s1.
    destruct (scan_from_cases enc k owner repo rest c s1)
      as [(s' & E & H1 & H2 & H3 & H4)
         |(s' & f & rest' & req & sk & E & H1 & Hm & H2 & H3 & H4 & Hr)];
      rewrite E; cbv zeta.
    - exists []. cbn [state_of]. rewrite app_nil_r.
      repeat split; auto; try (cbn; lia).
      + intros p _. now rewrite H2.
      + intros s0 [= <-]. eexists. split; [exact H4|]. cbn. lia.
    - destruct (IH (ScanGet k owner repo f rest'
                      (mkCounters (c_total c + 1) (c_out c) (c_missing c)) req)
                  s' eq_refl) as (sent & A1 & A2 & A3 & A4 & A5).
      exists (Http req :: sent). cbn [files_left counters_of] in *.
      split; [rewrite A1, H1, <- app_assoc; reflexivity|].
      split; [cbn; rewrite Hm; exact A2|].
      split; [rewrite Hr, length_app; cbn in *; lia|].
      split.
      + intros p Hp. rewrite A4, H2; [reflexivity|].
        intros Hin. apply Hp. rewrite Hr. apply in_or_app. now right.
      + intros s0 E0. destruct (A5 s0 E0) as (m & M1 & M2 & M3 & M4 & M5).
        exists m. cbn [c_total c_out c_missing List.length] in *.
        repeat split; auto; lia. }
  assert (Hskip : exists sent,
    scan_https (state_of (scan_run enc b64 pc inputs s)) =
      (scan_https s ++ sent)%list /\
    forallb is_get sent = true /\
    (List.length sent + 1 <= List.length (files_left pc))%nat /\
    (forall p, ~ In p (files_left pc) ->
       map_get p (scan_pending (state_of (scan_run enc b64 pc inputs s))) =
       map_get p (scan_pending s)) /\
    (forall s', scan_run enc b64 pc inputs s = ScanDone s' ->
       exists m,
         lastScanSummary s' = Some m /\
         total m = c_total (counters_of pc) + Z.of_nat (List.length sent) /\
         c_out (counters_of pc) <= outOfSync m /\
         c_missing (counters_of pc) <= missing m /\
         outOfSync m + missing m <=
           c_out (counters_of pc) + c_missing (counters_of pc) + 1 +
           Z.of_nat (List.length sent))) by (apply IH; exact L).
  assert (Hraise : exists sent,
    scan_https s = (scan_https s ++ sent)%list /\
    forallb is_get sent = true /\
    (List.length sent + 1 <= List.length (files_left pc))%nat /\
    (forall p, ~ In p (files_left pc) ->
       map_get p (scan_pending s) = map_get p (scan_pending s)) /\
    (forall s', ScanRaise s = ScanDone s' ->
       exists m,
         lastScanSummary s' = Some m /\
         total m = c_total (counters_of pc) + Z.of_nat (List.length sent) /\
         c_out (counters_of pc) <= outOfSync m /\
         c_missing (counters_of pc) <= missing m /\
         outOfSync m + missing m <=
           c_out (counters_of pc) + c_missing (counters_of pc) + 1 +
           Z.of_nat (List.length sent))).
  { exists []. rewrite app_nil_r. repeat split; auto; try discriminate.
    destruct pc; try discriminate; cbn; lia. }
  cbn [scan_run].
  destruct pc as [| | | |k owner repo f rest c req|k owner repo f remote rest c];
    try discriminate.
  - destruct i as [r|ok|ok]; cbn [scan_resume]; try exact Hskip.
    destruct (githubReq_settle_frame req r (scan_world s)) as [P H].
    destruct (githubReq_settle req r (scan_world s)) as [res w1].
    cbn [fst snd] in *.
    set (s1 := scan_with s w1).
    assert (F1 : scan_https s1 = scan_https s /\
                 scan_pending s1 = scan_pending s).
    { unfold s1, scan_https, scan_pending, pending. cbn. now rewrite H, P. }
    destruct F1 as [F1 F2].
    destruct (negb (truthy res) || negb (truthy (field "content" res))).
    + destruct (set_flag_frame f true s1) as (G1 & _ & _ & _ & G2).
      destruct (Hcont k owner repo rest
                  (mkCounters (c_total c) (c_out c) (c_missing c + 1))
                  (set_flag f true s1)) as (sent & A1 & A2 & A3 & A4 & A5).
      cbv zeta in *. exists sent. cbn [files_left counters_of].
      split; [rewrite A1, G1, F1; reflexivity|].
      split; [exact A2|]. split; [cbn; lia|]. split.
      * intros p Hp. rewrite A4 by (intros X; apply Hp; now right).
        rewrite G2, F2; [reflexivity|]. intros ->. apply Hp. now left.
      * intros s0 E0. destruct (A5 s0 E0) as (m & M1 & M2 & M3 & M4 & M5).
        exists m. cbn [c_total c_out c_missing] in *. repeat split; auto; lia.
    + destruct (IH (ScanRead k owner repo f res rest c) s1 eq_refl)
        as (sent & A1 & A2 & A3 & A4 & A5).
      exists sent. cbn [files_left counters_of] in *.
      split; [rewrite A1, F1; reflexivity|]. split; [exact A2|].
      split; [exact A3|]. split; [|exact A5].
      intros p Hp. rewrite A4, F2; auto.
  - destruct i as [r|[|]|ok]; cbn [scan_resume]; try exact Hskip;
      try exact Hraise.
    destruct (getAbstractFileByPath f (scan_world s)) as [file|];
      [|exact Hraise].
    destruct (field "content" remote) as [| | |text| |]; try exact Hraise.
    destruct (negb (String.eqb (b64 (content file)) (strip_newlines text))).
    + destruct (set_flag_frame f true s) as (G1 & _ & _ & _ & G2).
      destruct (Hcont k owner repo rest
                  (mkCounters (c_total c) (c_out c + 1) (c_missing c))
                  (set_flag f true s)) as (sent & A1 & A2 & A3 & A4 & A5).
      cbv zeta in *. exists sent. cbn [files_left counters_of].
      split; [rewrite A1, G1; reflexivity|].
      split; [exact A2|]. split; [cbn; lia|]. split.
      * intros p Hp. rewrite A4 by (intros X; apply Hp; now right).
        apply G2. intros ->. apply Hp. now left.
      * intros s0 E0. destruct (A5 s0 E0) as (m & M1 & M2 & M3 & M4 & M5).
        exists m. cbn [c_total c_out c_missing] in *. repeat split; auto; lia.
    + destruct (set_flag_frame f false s) as (G1 & _ & _ & _ & G2).
      set (s2 := mkScan (scan_world (set_flag f false s))
                   (obj_set f (field "sha" remote) (shaMap (set_flag f false s)))
                   (lastScanSummary (set_flag f false s))).
      destruct (Hcont k owner repo rest c s2)
        as (sent & A1 & A2 & A3 & A4 & A5).
      cbv zeta in *. exists sent. cbn [files_left counters_of].
      split; [rewrite A1; exact (f_equal (fun l => (l ++ sent)%list) G1)|].
      split; [exact A2|]. split; [cbn; lia|]. split.
      * intros p Hp. rewrite A4 by (intros X; apply Hp; now right).
        apply (G2 p). intros ->. apply Hp. now left.
      * intros s0 E0. destruct (A5 s0 E0) as (m & M1 & M2 & M3 & M4 & M5).
        exists m. repeat split; auto; lia.
Qed.

(** X18.  The summary of a scan counts its requests.  When
    [scanPublishedFiles] returns, whatever the answers were,
    [lastScanSummary.total] is the number of requests the scan sent, all of
    them GETs, one for each file it found published; [missing] and
    [outOfSync] are counts of disjoint verdicts, so neither is negative and
    their sum is at most [total]; and [total] is at most the number of
    markdown files the vault had when the scan began. *)
Theorem scan_summary_counts_the_requests
    (enc b64 : string -> string) (k : ScanCaller) (owner repo : string)
    (inputs : list Input) (s s' : ScanState) :
  scan_all enc b64 k owner repo inputs s = ScanDone s' ->
  exists m sent,
    lastScanSummary s' = Some m /\
    scan_https s' = (scan_https s ++ sent)%list /\
    forallb is_get sent = true /\
    total m = Z.of_nat (List.length sent) /\
    0 <= outOfSync m /\ 0 <= missing m /\
    outOfSync m + missing m <= total m /\
    total m <= Z.of_nat (List.length (getMarkdownFiles (scan_world s))).
Proof.
  unfold scan_all, scanPublishedFiles.
  destruct (scan_from_cases enc k owner repo (getMarkdownFiles (scan_world s))
              (mkCounters 0 0 0) s)
    as [(s1 & E & H1 & H2 & H3 & H4)
       |(s1 & f & rest' & req & sk & E & H1 & Hm & H2 & H3 & H4 & Hr)];
    rewrite E.
  - intros [= <-]. eexists. exists []. rewrite app_nil_r.
    split; [exact H4|]. cbn. repeat split; auto; lia.
  - intros R.
    match type of R with
    | scan_run _ _ ?pc _ _ = _ =>
        destruct (scan_loop enc b64 inputs pc s1 eq_refl)
          as (sent & A1 & A2 & A3 & _ & A5)
    end.
    destruct (A5 s' R) as (m & M1 & M2 & M3 & M4 & M5).
    rewrite R in A1. cbn [state_of files_left counters_of] in *.
    cbn [c_total c_out c_missing] in *.
    exists m, (Http req :: sent).
    split; [exact M1|].
    split; [rewrite A1, H1, <- app_assoc; reflexivity|].
    split; [cbn; rewrite Hm; exact A2|].
    rewrite Hr, length_app. cbn [List.length] in *. repeat split; lia.
Qed.

Lemma scan_summary_counts_the_requests_witness :
  let s := mkScan (world (start "a.md")) [] None in
  let inputs := [InHttp (Rejected (Some 404) JNull);
                 InHttp (Resolved 200
                           (JObj [("content", JStr "QjE="); ("sha", JStr "s1")]));
                 InRead true] in
  let o := scan_all (fun p => p) (fun t => "QjE=") ScanFromCommand
             "user" "repo" inputs s in
  o = ScanDone (state_of o) /\
  lastScanSummary (state_of o) = Some (mkSummary 2 0 1 1767225600000) /\
  exists m, lastScanSummary (state_of o) = Some m /\
            outOfSync m + missing m <= total m.
Proof.
  cbv zeta.
  set (o := scan_all _ _ _ _ _ _ _).
  assert (E : o = ScanDone (state_of o)) by (vm_compute; reflexivity).
  split; [exact E|]. split; [vm_compute; reflexivity|].
  destruct (scan_summary_counts_the_requests _ _ _ _ _ _ _ _ E)
    as (m & sent & M & _ & _ & _ & _ & _ & B & _).
  exists m. split; [exact M|exact B].
Defined.

(** X19.  A rescan only reads, and only looks at markdown files.  Whatever
    the answers, and whether the scan returns, is still suspended or was
    ended by an exception, every request it sent is a GET, and the entry in
    [pendingChanges] of every path that is not a markdown file of the vault
    at the start of the scan is as it was. *)
Theorem rescan_only_reads
    (enc b64 : string -> string) (k : ScanCaller) (owner repo : string)
    (inputs : list Input) (s : ScanState) :
  let s' := state_of (scan_all enc b64 k owner repo inputs s) in
  exists sent,
    scan_https s' = (scan_https s ++ sent)%list /\
    forallb is_get sent = true /\
    forall p, ~ In p (getMarkdownFiles (scan_world s)) ->
      map_get p (scan_pending s') = map_get p (scan_pending s).
Proof.
  cbv zeta. unfold scan_all, scanPublishedFiles.
  destruct (scan_from_cases enc k owner repo (getMarkdownFiles (scan_world s))
              (mkCounters 0 0 0) s)
    as [(s1 & E & H1 & H2 & H3 & H4)
       |(s1 & f & rest' & req & sk & E & H1 & Hm & H2 & H3 & H4 & Hr)];
    rewrite E.
  - exists []. cbn [state_of]. rewrite app_nil_r. repeat split; auto.
    intros p _. now rewrite H2.
  - match goal with
    | |- context [scan_run _ _ ?pc _ _] =>
        destruct (scan_loop enc b64 inputs pc s1 eq_refl)
          as (sent & A1 & A2 & _ & A4 & _)
    end.
    exists (Http req :: sent).
    split; [rewrite A1, H1, <- app_assoc; reflexivity|].
    split; [cbn; rewrite Hm; exact A2|].
    intros p Hp. rewrite A4, H2; [reflexivity|].
    cbn [files_left]. intros Hin. apply Hp. rewrite Hr.
    apply in_or_app. now right.
Qed.

Lemma scan_from_frame enc k owner repo rest c s :
  scan_pending (state_of (scan_from enc k owner repo rest c s)) =
    scan_pending s /\
  shaMap (state_of (scan_from enc k owner repo rest c s)) = shaMap s.
Proof.
  destruct (scan_from_cases enc k owner repo rest c s)
    as [(s1 & E & H1 & H2 & H3 & H4)
       |(s1 & f & rest' & req & sk & E & H1 & Hm & H2 & H3 & H4 & Hr)];
    rewrite E; auto.
Qed.

Lemma assoc_obj_set k v o : assoc k (obj_set k v o) = v.
Proof.
  induction o as [|[k' v'] o IH]; cbn.
  - now rewrite String.eqb_refl.
  - destruct (String.eqb k k') eqn:E; cbn; rewrite E; auto.
Qed.

(** X20.  The scan never marks a file clean unless it is identical to the
    remote file.  A resumption of a scan sets a dirty flag to [false] only
    for the file it just read, and only when the base64 of the local
    content equals the remote [content] with its line feeds removed; it
    then records the remote [sha] of that file in [shaMap].  A rejected
    request, an answer without content, stray inputs and exceptions clear
    nothing. *)
Theorem scan_marks_clean_only_identical_files
    (enc b64 : string -> string) (pc : ScanPc) (i : Input) (s : ScanState)
    (p : string) :
  let s' := state_of (scan_resume enc b64 pc i s) in
  map_get p (scan_pending s') = Some false ->
  map_get p (scan_pending s) <> Some false ->
  exists k owner repo remote rest c file text,
    pc = ScanRead k owner repo p remote rest c /\ i = InRead true /\
    getAbstractFileByPath p (scan_world s) = Some file /\
    field "content" remote = JStr text /\
    b64 (content file) = strip_newlines text /\
    assoc p (shaMap s') = field "sha" remote.
Proof.
  cbv zeta. intros H N.
  assert (Hsettle : forall req r,
            scan_pending
              (scan_with s (snd (githubReq_settle req r (scan_world s)))) =
            scan_pending s).
  { intros req r. unfold scan_pending, pending. cbn.
    now rewrite (proj1 (githubReq_settle_frame req r (scan_world s))). }
  destruct pc as [owner repo req|owner repo refUrl req|owner repo refUrl req
                 |owner repo req|k owner repo f rest c req
                 |k owner repo f remote rest c];
    destruct i as [r|[|]|ok]; cbn [scan_resume state_of] in H |- *;
    try contradiction.
  - exfalso. apply N. rewrite <- H, <- (Hsettle req r).
    destruct (githubReq_settle req r (scan_world s)) as [res w1].
    now destruct (truthy res).
  - exfalso. apply N. rewrite <- H, <- (Hsettle req r).
    destruct (githubReq_settle req r (scan_world s)) as [res w1].
    destruct (truthy _); [|reflexivity].
    unfold scanPublishedFiles. now rewrite (proj1 (scan_from_frame _ _ _ _ _ _ _)).
  - exfalso. apply N. rewrite <- H, <- (Hsettle req r).
    destruct (githubReq_settle req r (scan_world s)) as [res w1].
    now destruct (truthy _).
  - exfalso. apply N. rewrite <- H, <- (Hsettle req r).
    destruct (githubReq_settle req r (scan_world s)) as [res w1].
    destruct (truthy _); [|reflexivity].
    unfold scanPublishedFiles. now rewrite (proj1 (scan_from_frame _ _ _ _ _ _ _)).
  - exfalso. pose proof (Hsettle req r) as F.
    destruct (githubReq_settle req r (scan_world s)) as [res w1].
    cbn [snd] in F.
    destruct (negb (truthy res) || negb (truthy (field "content" res))).
    + rewrite (proj1 (scan_from_frame _ _ _ _ _ _ _)) in H.
      destruct (set_flag_frame f true (scan_with s w1)) as (_ & _ & _ & G1 & G2).
      destruct (String.eqb_spec p f) as [->|Np]; [congruence|].
      rewrite G2, F in H by exact Np. contradiction.
    + cbn [state_of] in H. rewrite F in H. contradiction.
  - destruct (getAbstractFileByPath f (scan_world s)) as [file|] eqn:Ef;
      [|contradiction].
    destruct (field "content" remote) as [| | |text| |] eqn:Ec;
      try contradiction.
    destruct (String.eqb (b64 (content file)) (strip_newlines text)) eqn:Eq;
      cbn [negb] in *.
    + destruct (scan_from_frame enc k owner repo rest c
                  (mkScan (scan_world (set_flag f false s))
                     (obj_set f (field "sha" remote)
                        (shaMap (set_flag f false s)))
                     (lastScanSummary (set_flag f false s)))) as [F1 F2].
      rewrite F1 in H. rewrite F2. cbn [shaMap].
      destruct (set_flag_frame f false s) as (_ & _ & _ & G1 & G2).
      destruct (String.eqb_spec p f) as [->|Np].
      * exists k, owner, repo, remote, rest, c, file, text.
        repeat split; auto.
        -- now apply String.eqb_eq.
        -- apply assoc_obj_set.
      * exfalso. apply N. rewrite <- H. symmetry. now apply (G2 p).
    + exfalso. rewrite (proj1 (scan_from_frame _ _ _ _ _ _ _)) in H.
      destruct (set_flag_frame f true s) as (_ & _ & _ & G1 & G2).
      destruct (String.eqb_spec p f) as [->|Np]; [congruence|].
      rewrite G2 in H by exact Np. contradiction.
Qed.

Lemma scan_marks_clean_only_identical_files_witness :
  let s := mkScan (world (start "a.md")) [] None in
  let remote := JObj [("content", JStr "QjE="); ("sha", JStr "s1")] in
  let pc := ScanRead ScanFromCommand "user" "repo" "b.md" remote []
              (mkCounters 1 0 0) in
  let s' := state_of (scan_resume (fun p => p) (fun t => "QjE=") pc
                        (InRead true) s) in
  map_get "b.md" (scan_pending s) = Some true /\
  map_get "b.md" (scan_pending s') = Some false /\
  assoc "b.md" (shaMap s') = JStr "s1".
Proof.
  cbv zeta. split; [reflexivity|]. split; [reflexivity|].
  destruct (scan_marks_clean_only_identical_files (fun p => p)
              (fun t => "QjE=")
              (ScanRead ScanFromCommand "user" "repo" "b.md"
                 (JObj [("content", JStr "QjE="); ("sha", JStr "s1")]) []
                 (mkCounters 1 0 0))
              (InRead true) (mkScan (world (start "a.md")) [] None) "b.md"
              eq_refl ltac:(discriminate))
    as (k & owner & repo & remote & rest & c & file & text & E & _ & _ & _ & _ & A).
  injection E as _ _ _ <- _ _. exact A.
Defined.

(** The stages of [initialRepoScan] before the loop, last to first. *)








(** ** Safe paths *)

Lemma prefix_shorter a b s :
  String.prefix (a ++ b) s = true -> String.prefix a s = true.
Proof.
  revert s. induction a as [|c a IH]; intros s.
  - now destruct s.
  - rewrite append_cons. destruct s as [|d s]; [discriminate|]. cbn.
    destruct (Ascii.ascii_dec c d); [apply IH|discriminate].
Qed.

Lemma includes_shorter a b s :
  includes s (a ++ b) = true -> includes s a = true.
Proof.
  induction s as [|c s IH]; cbn [includes]; intros H;
    apply orb_true_iff in H; apply orb_true_iff.
  - destruct H as [H|H]; [|discriminate]. left. eapply prefix_shorter; eauto.
  - destruct H as [H|H]; [left; eapply prefix_shorter; eauto|right; auto].
Qed.

Lemma includes_tail c q s :
  includes s (String c q) = true -> includes s q = true.
Proof.
  induction s as [|d s IH]; cbn [includes]; intros H;
    apply orb_true_iff in H.
  - destruct H as [H|H]; [|discriminate]. cbn in H. discriminate.
  - apply orb_true_iff. destruct H as [H|H]; [|right; auto].
    right. cbn in H. destruct (Ascii.ascii_dec c d) as [_|_]; [|discriminate].
    destruct s as [|x s]; cbn [includes].
    + apply orb_true_iff. left. exact H.
    + apply orb_true_iff. left. exact H.
Qed.

(** X22.  What [isSafePath] lets through has no way up: a path that passes
    contains neither [../] nor [/..] nor a backslash variant of two dots in
    a row, and does not begin with a dot.  The check is on the whole path
    only, so a hidden file in a folder passes. *)
Theorem safe_paths_do_not_climb (p : string) :
  isSafePath p = true ->
  includes p "../" = false /\ includes p "/.." = false /\
  includes p "..\" = false /\ startsWith p "." = false /\
  p <> ".." /\ p <> ".".
Proof.
  unfold isSafePath. intros H. apply andb_true_iff in H.
  destruct H as [H1 H2]. apply negb_true_iff in H1, H2.
  repeat split.
  - destruct (includes p "../") eqn:E; [|reflexivity].
    apply (includes_shorter ".." "/") in E. congruence.
  - destruct (includes p "/..") eqn:E; [|reflexivity].
    apply includes_tail in E. congruence.
  - destruct (includes p "..\") eqn:E; [|reflexivity].
    apply (includes_shorter ".." "\") in E. congruence.
  - exact H1.
  - intros ->. discriminate.
  - intros ->. discriminate.
Qed.

Lemma safe_paths_do_not_climb_witness :
  isSafePath "notes/.hidden.md" = true /\
  includes "notes/.hidden.md" "../" = false.
Proof.
  split; [reflexivity|].
  exact (proj1 (safe_paths_do_not_climb "notes/.hidden.md" eq_refl)).
Defined.
